(** * Batched decoding pipeline of TensorRT-LLM: configuration fusion,
      decoding modes, stage factory, sampling-layer setup and stop criteria.

    The development embeds, function by function, the parts of
    - [cpp/include/tensorrt_llm/runtime/decodingMode.h]
    - [cpp/include/tensorrt_llm/runtime/samplingConfig.h]
    - [cpp/tensorrt_llm/layers/layersFactory.h]
    - [cpp/tensorrt_llm/layers/samplingLayer.cpp]
    - [cpp/tests/kernels/stopCriteriaKernelsTest.cpp]
    - [cpp/tests/layers/dynamicDecodeLayerTest.cpp]
    that the specification talks about, and proves the specification's
    statements about them. *)

From Stdlib Require Import ZArith List Bool String Lia Reals Lra.
From Stdlib Require Import Floats.SpecFloat.
From stdpp Require Import base tactics option list.

Import ListNotations.
Local Open Scope Z_scope.

(** ** Exceptions

    [TLLM_CHECK], [TLLM_CHECK_WITH_INFO] and [TLLM_THROW] raise a
    [TllmException]; a function that may raise returns a [Result]. *)

Inductive Result (A : Type) : Type :=
| Ok (a : A)
| TllmException (msg : string).
Arguments Ok {A} a.
Arguments TllmException {A} msg.

Definition bindR {A B : Type} (r : Result A) (k : A -> Result B) : Result B :=
  match r with
  | Ok a => k a
  | TllmException msg => TllmException msg
  end.

#[global] Instance Result_ret : MRet Result := fun _ a => Ok a.
#[global] Instance Result_bind : MBind Result := fun _ _ k r => bindR r k.

Definition TLLM_CHECK (cond : bool) : Result unit :=
  if cond then Ok tt else TllmException "Assertion failed".

Definition TLLM_CHECK_WITH_INFO (cond : bool) (info : string) : Result unit :=
  if cond then Ok tt else TllmException info.

Definition isOk {A : Type} (r : Result A) : bool :=
  match r with Ok _ => true | TllmException _ => false end.

Definition raises {A : Type} (r : Result A) : Prop :=
  exists msg, r = TllmException msg.

(** ** Machine integers

    [SizeType32] and [TokenIdType] are [int32_t], [uint64_t] and [size_t] are
    64-bit unsigned, [UnderlyingType] of a decoding mode is [uint8_t].  They
    are carried as [Z]; where the code converts between them the wrap-around
    is written out.  [FloatType] is [float]; fusion only moves floats
    around, so a float is carried as the [spec_float] it denotes. *)

Abbreviation SizeType32 := Z (only parsing).
Abbreviation TokenIdType := Z (only parsing).
Abbreviation uint64_t := Z (only parsing).
Abbreviation FloatType := spec_float (only parsing).

Definition to_size_t (z : Z) : Z := z mod 2 ^ 64.

(** ** decodingMode.h *)

Module DecodingMode.

Record t : Type := mk { mState : Z }.

Definition kNone : Z := 0.
Definition kTopK : Z := Z.shiftl 1 0.
Definition kTopP : Z := Z.shiftl 1 1.
Definition kBeamSearch : Z := Z.shiftl 1 2.
Definition kMedusa : Z := Z.shiftl 1 3.
Definition kTopKTopP : Z := Z.lor kTopK kTopP.

(** The constructor is private: a mode is built by one of the six named
    factories only. *)
Definition None : t := mk kNone.
Definition TopK : t := mk kTopK.
Definition TopP : t := mk kTopP.
Definition TopKTopP : t := mk kTopKTopP.
Definition BeamSearch : t := mk kBeamSearch.
Definition Medusa : t := mk kMedusa.

Definition anyBitSet (m : t) (bits : Z) : bool :=
  negb (Z.land (mState m) bits =? 0).

Definition allBitSet (m : t) (bits : Z) : bool :=
  Z.land (mState m) bits =? bits.

Definition isNone (m : t) : bool := mState m =? 0.
Definition isTopK (m : t) : bool := anyBitSet m kTopK.
Definition isTopP (m : t) : bool := anyBitSet m kTopP.
Definition isTopKorTopP (m : t) : bool := anyBitSet m kTopKTopP.
Definition isTopKandTopP (m : t) : bool := allBitSet m kTopKTopP.
Definition isBeamSearch (m : t) : bool := anyBitSet m kBeamSearch.
Definition isMedusa (m : t) : bool := anyBitSet m kMedusa.

(** The values the named factories can produce. *)
Definition constructible (m : t) : Prop :=
  m = None \/ m = TopK \/ m = TopP \/ m = TopKTopP \/ m = BeamSearch \/ m = Medusa.

(** A well-formed [uint8_t] state. *)
Definition wf (m : t) : Prop := 0 <= mState m < 2 ^ 8.

End DecodingMode.

(** ** layersFactory.h *)

Inductive DecodingLayers_t : Type :=
| PENALTY_LAYER
| BAN_WORDS_LAYER
| DECODING_LAYER
| STOP_CRITERIA_LAYER.

Definition DecodingLayers_eqb (a b : DecodingLayers_t) : bool :=
  match a, b with
  | PENALTY_LAYER, PENALTY_LAYER
  | BAN_WORDS_LAYER, BAN_WORDS_LAYER
  | DECODING_LAYER, DECODING_LAYER
  | STOP_CRITERIA_LAYER, STOP_CRITERIA_LAYER => true
  | _, _ => false
  end.

Definition createDecodingLayerTypes (mode : DecodingMode.t)
  : Result (list DecodingLayers_t) :=
  if DecodingMode.isTopKorTopP mode || DecodingMode.isBeamSearch mode then
    Ok [PENALTY_LAYER; BAN_WORDS_LAYER; DECODING_LAYER; STOP_CRITERIA_LAYER]
  else if DecodingMode.isMedusa mode then
    Ok [PENALTY_LAYER; DECODING_LAYER; STOP_CRITERIA_LAYER]
  else
    _ ← TLLM_CHECK_WITH_INFO false "layer types are not defined for mode (%d)";
    Ok [].

(** The two stage orders of the specification. *)
Definition samplingOrBeamStages : list DecodingLayers_t :=
  [PENALTY_LAYER; BAN_WORDS_LAYER; DECODING_LAYER; STOP_CRITERIA_LAYER].

Definition speculativeStages : list DecodingLayers_t :=
  [PENALTY_LAYER; DECODING_LAYER; STOP_CRITERIA_LAYER].

(** The layer objects themselves live on the device; a created layer is
    represented by the stage it implements and the mode it was built for. *)
Record BaseLayer : Type := mkLayer {
  layerKind : DecodingLayers_t;
  layerMode : DecodingMode.t
}.

Definition createLayers (mode : DecodingMode.t) : Result (list BaseLayer) :=
  layerTypes ← createDecodingLayerTypes mode;
  _ ← TLLM_CHECK_WITH_INFO
        (negb (length layerTypes =? 0)%nat
         && match layerTypes with
            | ty :: _ => DecodingLayers_eqb ty PENALTY_LAYER
            | [] => false
            end)
        "Penalty layer is required to be the first layer for any decoder configuration";
  Ok (map (fun ty => mkLayer ty mode) layerTypes).

(** ** defaultDecodingParams.h

    [layers::DefaultDecodingParams] is not part of the sources at hand; the
    values its getters return are parameters of the fusion constructor. *)

Module DefaultDecodingParams.

Record t : Type := mk {
  getTemperature : FloatType;
  getMinLength : SizeType32;
  getRepetitionPenalty : FloatType;
  getPresencePenalty : FloatType;
  getFrequencyPenalty : FloatType;
  getTopK : SizeType32;
  getTopP : FloatType;
  getSeed : uint64_t;
  getTopPDecay : FloatType;
  getTopPMin : FloatType;
  getTopPResetId : TokenIdType;
  getBeamSearchDiversity : FloatType;
  getLengthPenalty : FloatType;
  getEarlyStopping : SizeType32;
  getTopKMedusaHeads : list SizeType32
}.

End DefaultDecodingParams.

(** ** samplingConfig.h *)

Definition OptVec (T : Type) : Type := option (list T).

Definition has_value {T : Type} (o : option T) : bool :=
  match o with Some _ => true | None => false end.

Record SamplingConfig : Type := mkSamplingConfig {
  beamWidth : SizeType32;
  temperature : OptVec FloatType;
  minLength : OptVec SizeType32;
  repetitionPenalty : OptVec FloatType;
  presencePenalty : OptVec FloatType;
  frequencyPenalty : OptVec FloatType;
  topK : OptVec SizeType32;
  topP : OptVec FloatType;
  randomSeed : OptVec uint64_t;
  topPDecay : OptVec FloatType;
  topPMin : OptVec FloatType;
  topPResetIds : OptVec TokenIdType;
  beamSearchDiversityRate : OptVec FloatType;
  lengthPenalty : OptVec FloatType;
  earlyStopping : OptVec SizeType32;
  draftAcceptanceThreshold : OptVec FloatType;
  topKMedusaHeads : OptVec (list SizeType32);
  normalizeLogProbs : option bool
}.

(** [explicit SamplingConfig(SizeType32 beamWidth = 1)]: every optional
    member is default-initialised, that is, empty. *)
Definition SamplingConfig_new (bw : SizeType32) : SamplingConfig :=
  {| beamWidth := bw;
     temperature := None; minLength := None; repetitionPenalty := None;
     presencePenalty := None; frequencyPenalty := None;
     topK := None; topP := None; randomSeed := None; topPDecay := None;
     topPMin := None; topPResetIds := None;
     beamSearchDiversityRate := None; lengthPenalty := None;
     earlyStopping := None; draftAcceptanceThreshold := None;
     topKMedusaHeads := None; normalizeLogProbs := None |}.

(** The second loop of [fuseValues]: [cis] are the indices still to visit,
    [values] the vector built so far by [push_back]. *)
Fixpoint fuseValues_collect {T : Type} (accessor : nat -> OptVec T)
    (defaultValue : T) (cis : list nat) (values : list T) : Result (list T) :=
  match cis with
  | [] => Ok values
  | ci :: rest =>
      match accessor ci with
      | Some configValue =>
          _ ← TLLM_CHECK (Z.of_nat (length configValue) =? 1);
          match configValue with
          | front :: _ =>
              fuseValues_collect accessor defaultValue rest (values ++ [front])
          | [] => TllmException "front() of an empty vector"
          end
      | None =>
          fuseValues_collect accessor defaultValue rest (values ++ [defaultValue])
      end
  end.

Definition fuseValues {T : Type} (configs : list SamplingConfig)
    (accessor : nat -> OptVec T) (defaultValue : T) : Result (OptVec T) :=
  let cis := seq 0 (length configs) in
  let atLeastOneHasValue := existsb (fun ci => has_value (accessor ci)) cis in
  if atLeastOneHasValue then
    values ← fuseValues_collect accessor defaultValue cis [];
    Ok (Some values)
  else
    Ok None.

(** [explicit SamplingConfig(std::vector<SamplingConfig> const& configs)] *)
Definition SamplingConfig_fuse (D : DefaultDecodingParams.t)
    (configs : list SamplingConfig) : Result SamplingConfig :=
  _ ← TLLM_CHECK (0 <? Z.of_nat (length configs));
  let front := hd (SamplingConfig_new 1) configs in
  let at_ (ci : nat) := nth ci configs front in
  temperature' ← fuseValues configs (fun ci => temperature (at_ ci))
                   (DefaultDecodingParams.getTemperature D);
  minLength' ← fuseValues configs (fun ci => minLength (at_ ci))
                   (DefaultDecodingParams.getMinLength D);
  repetitionPenalty' ← fuseValues configs (fun ci => repetitionPenalty (at_ ci))
                   (DefaultDecodingParams.getRepetitionPenalty D);
  presencePenalty' ← fuseValues configs (fun ci => presencePenalty (at_ ci))
                   (DefaultDecodingParams.getPresencePenalty D);
  frequencyPenalty' ← fuseValues configs (fun ci => frequencyPenalty (at_ ci))
                   (DefaultDecodingParams.getFrequencyPenalty D);
  topK' ← fuseValues configs (fun ci => topK (at_ ci))
                   (DefaultDecodingParams.getTopK D);
  topP' ← fuseValues configs (fun ci => topP (at_ ci))
                   (DefaultDecodingParams.getTopP D);
  randomSeed' ← fuseValues configs (fun ci => randomSeed (at_ ci))
                   (DefaultDecodingParams.getSeed D);
  topPDecay' ← fuseValues configs (fun ci => topPDecay (at_ ci))
                   (DefaultDecodingParams.getTopPDecay D);
  topPMin' ← fuseValues configs (fun ci => topPMin (at_ ci))
                   (DefaultDecodingParams.getTopPMin D);
  topPResetIds' ← fuseValues configs (fun ci => topPResetIds (at_ ci))
                   (DefaultDecodingParams.getTopPResetId D);
  beamSearchDiversityRate' ← fuseValues configs
                   (fun ci => beamSearchDiversityRate (at_ ci))
                   (DefaultDecodingParams.getBeamSearchDiversity D);
  lengthPenalty' ← fuseValues configs (fun ci => lengthPenalty (at_ ci))
                   (DefaultDecodingParams.getLengthPenalty D);
  earlyStopping' ← fuseValues configs (fun ci => earlyStopping (at_ ci))
                   (DefaultDecodingParams.getEarlyStopping D);
  topKMedusaHeads' ← fuseValues configs (fun ci => topKMedusaHeads (at_ ci))
                   (DefaultDecodingParams.getTopKMedusaHeads D);
  draftAcceptanceThreshold' ← fuseValues configs
                   (fun ci => draftAcceptanceThreshold (at_ ci))
                   (S754_zero false);
  Ok {| beamWidth := beamWidth front;
        temperature := temperature';
        minLength := minLength';
        repetitionPenalty := repetitionPenalty';
        presencePenalty := presencePenalty';
        frequencyPenalty := frequencyPenalty';
        topK := topK';
        topP := topP';
        randomSeed := randomSeed';
        topPDecay := topPDecay';
        topPMin := topPMin';
        topPResetIds := topPResetIds';
        beamSearchDiversityRate := beamSearchDiversityRate';
        lengthPenalty := lengthPenalty';
        earlyStopping := earlyStopping';
        draftAcceptanceThreshold := draftAcceptanceThreshold';
        topKMedusaHeads := topKMedusaHeads';
        normalizeLogProbs := normalizeLogProbs front |}.

(** *** The tunable fields, to state properties of all of them at once *)

Inductive Field : Type :=
| F_temperature | F_minLength | F_repetitionPenalty | F_presencePenalty
| F_frequencyPenalty | F_topK | F_topP | F_randomSeed | F_topPDecay
| F_topPMin | F_topPResetIds | F_beamSearchDiversityRate | F_lengthPenalty
| F_earlyStopping | F_topKMedusaHeads | F_draftAcceptanceThreshold.

Definition field_type (f : Field) : Type :=
  match f with
  | F_minLength | F_topK | F_earlyStopping => SizeType32
  | F_randomSeed => uint64_t
  | F_topPResetIds => TokenIdType
  | F_topKMedusaHeads => list SizeType32
  | _ => FloatType
  end.

Definition field_get (f : Field) : SamplingConfig -> OptVec (field_type f) :=
  match f as f0 return SamplingConfig -> OptVec (field_type f0) with
  | F_temperature => temperature
  | F_minLength => minLength
  | F_repetitionPenalty => repetitionPenalty
  | F_presencePenalty => presencePenalty
  | F_frequencyPenalty => frequencyPenalty
  | F_topK => topK
  | F_topP => topP
  | F_randomSeed => randomSeed
  | F_topPDecay => topPDecay
  | F_topPMin => topPMin
  | F_topPResetIds => topPResetIds
  | F_beamSearchDiversityRate => beamSearchDiversityRate
  | F_lengthPenalty => lengthPenalty
  | F_earlyStopping => earlyStopping
  | F_topKMedusaHeads => topKMedusaHeads
  | F_draftAcceptanceThreshold => draftAcceptanceThreshold
  end.

(** The default the constructor hands to [fuseValues] for each field. *)
Definition field_default (D : DefaultDecodingParams.t) (f : Field) : field_type f :=
  match f as f0 return field_type f0 with
  | F_temperature => DefaultDecodingParams.getTemperature D
  | F_minLength => DefaultDecodingParams.getMinLength D
  | F_repetitionPenalty => DefaultDecodingParams.getRepetitionPenalty D
  | F_presencePenalty => DefaultDecodingParams.getPresencePenalty D
  | F_frequencyPenalty => DefaultDecodingParams.getFrequencyPenalty D
  | F_topK => DefaultDecodingParams.getTopK D
  | F_topP => DefaultDecodingParams.getTopP D
  | F_randomSeed => DefaultDecodingParams.getSeed D
  | F_topPDecay => DefaultDecodingParams.getTopPDecay D
  | F_topPMin => DefaultDecodingParams.getTopPMin D
  | F_topPResetIds => DefaultDecodingParams.getTopPResetId D
  | F_beamSearchDiversityRate => DefaultDecodingParams.getBeamSearchDiversity D
  | F_lengthPenalty => DefaultDecodingParams.getLengthPenalty D
  | F_earlyStopping => DefaultDecodingParams.getEarlyStopping D
  | F_topKMedusaHeads => DefaultDecodingParams.getTopKMedusaHeads D
  | F_draftAcceptanceThreshold => S754_zero false
  end.

(** A request specifies a field when the optional holds a value. *)
Definition specifies (f : Field) (c : SamplingConfig) : Prop :=
  field_get f c <> None.

(** A single-request config carries scalars: every vector it holds has
    exactly one element. *)
Definition singleRequest (c : SamplingConfig) : Prop :=
  forall (f : Field) (v : list (field_type f)),
    field_get f c = Some v -> length v = 1%nat.

(** What one request contributes to one position of a fused vector: its
    scalar when it holds one, the default otherwise. *)
Definition pick {T : Type} (o : OptVec T) (defaultValue : T) : T :=
  match o with
  | Some (x :: _) => x
  | _ => defaultValue
  end.

(** The fusion contract for one field, in the words of the specification:
    absent when no request specifies the field, otherwise one contribution
    per request. *)
Definition fusedField {T : Type} (requests : list (OptVec T)) (defaultValue : T)
  : OptVec T :=
  if existsb has_value requests
  then Some (map (fun o => pick o defaultValue) requests)
  else None.

(** The fused config the contract describes. *)
Definition fusedConfig (D : DefaultDecodingParams.t) (configs : list SamplingConfig)
  : SamplingConfig :=
  let front := hd (SamplingConfig_new 1) configs in
  {| beamWidth := beamWidth front;
     temperature := fusedField (map temperature configs)
                      (DefaultDecodingParams.getTemperature D);
     minLength := fusedField (map minLength configs)
                      (DefaultDecodingParams.getMinLength D);
     repetitionPenalty := fusedField (map repetitionPenalty configs)
                      (DefaultDecodingParams.getRepetitionPenalty D);
     presencePenalty := fusedField (map presencePenalty configs)
                      (DefaultDecodingParams.getPresencePenalty D);
     frequencyPenalty := fusedField (map frequencyPenalty configs)
                      (DefaultDecodingParams.getFrequencyPenalty D);
     topK := fusedField (map topK configs) (DefaultDecodingParams.getTopK D);
     topP := fusedField (map topP configs) (DefaultDecodingParams.getTopP D);
     randomSeed := fusedField (map randomSeed configs)
                      (DefaultDecodingParams.getSeed D);
     topPDecay := fusedField (map topPDecay configs)
                      (DefaultDecodingParams.getTopPDecay D);
     topPMin := fusedField (map topPMin configs)
                      (DefaultDecodingParams.getTopPMin D);
     topPResetIds := fusedField (map topPResetIds configs)
                      (DefaultDecodingParams.getTopPResetId D);
     beamSearchDiversityRate := fusedField (map beamSearchDiversityRate configs)
                      (DefaultDecodingParams.getBeamSearchDiversity D);
     lengthPenalty := fusedField (map lengthPenalty configs)
                      (DefaultDecodingParams.getLengthPenalty D);
     earlyStopping := fusedField (map earlyStopping configs)
                      (DefaultDecodingParams.getEarlyStopping D);
     draftAcceptanceThreshold := fusedField (map draftAcceptanceThreshold configs)
                      (S754_zero false);
     topKMedusaHeads := fusedField (map topKMedusaHeads configs)
                      (DefaultDecodingParams.getTopKMedusaHeads D);
     normalizeLogProbs := normalizeLogProbs front |}.

(** Every tunable field holds exactly one scalar. *)
Definition fullySpecified (c : SamplingConfig) : Prop :=
  forall f : Field, exists x, field_get f c = Some [x].

(** Two configs that differ at most in [beamWidth] and [normalizeLogProbs]. *)
Definition sameTunables (a b : SamplingConfig) : Prop :=
  forall f : Field, field_get f a = field_get f b.

(** Broadcasting one config's scalars to a batch of [n] requests. *)
Definition broadcastField {T : Type} (n : nat) (o : OptVec T) : OptVec T :=
  match o with
  | Some (x :: _) => Some (repeat x n)
  | _ => None
  end.

(** ** samplingLayer.cpp *)

(** Modelled from the spec: the random-state kernels of
    [kernels/decodingCommon.h] ([invokeCurandInitialize],
    [invokeCurandBatchInitialize]) and [cudaAutoCpy] are not among the
    sources.  A per-slot generator state is the result of
    [curand_init(seed, 0, 0, &state)]; it is represented by the triple it was
    initialised from. *)
Record curandState_t : Type := mkCurand {
  curandSeed : uint64_t;
  curandSubsequence : Z;
  curandOffset : Z
}.

(** Modelled from the spec: [curand_init] of the absent cuRAND library; the
    state it produces is determined by its three arguments. *)
Definition curand_init (seed : uint64_t) (subsequence offset : Z) : curandState_t :=
  mkCurand seed subsequence offset.

(** [buf[i] = x] on a device buffer; the kernels never write out of range. *)
Definition store {A : Type} (buf : list A) (i : Z) (x : A) : list A :=
  if 0 <=? i then <[Z.to_nat i := x]> buf else buf.

Definition load {A : Type} (buf : list A) (i : Z) : option A :=
  if 0 <=? i then buf !! Z.to_nat i else None.

(** Modelled from the spec: the absent kernel behind
    [invokeCurandInitialize].  For each batch index [bi < batchSize] the state
    of slot [batchSlots[bi]] is initialised from the one seed. *)
Fixpoint invokeCurandInitialize_from (states : list curandState_t)
    (batchSlots : list SizeType32) (n : nat) (randomSeed : uint64_t)
    : list curandState_t :=
  match n, batchSlots with
  | S n', slot :: rest =>
      invokeCurandInitialize_from (store states slot (curand_init randomSeed 0 0))
        rest n' randomSeed
  | _, _ => states
  end.

(** Modelled from the spec: the absent [invokeCurandInitialize], as the
    comment in [setup] describes it: the one seed initialises the random
    table of all sentences. *)
Definition invokeCurandInitialize (states : list curandState_t)
    (batchSlots : list SizeType32) (batchSize : SizeType32)
    (randomSeed : uint64_t) : list curandState_t :=
  invokeCurandInitialize_from states batchSlots (Z.to_nat batchSize) randomSeed.

(** Modelled from the spec: the absent kernel behind
    [invokeCurandBatchInitialize].  For each batch index [bi < batchSize] the
    state of slot [batchSlots[bi]] is initialised from [randomSeeds[bi]]. *)
Fixpoint invokeCurandBatchInitialize_from (states : list curandState_t)
    (batchSlots : list SizeType32) (n : nat) (randomSeeds : list uint64_t)
    : list curandState_t :=
  match n, batchSlots, randomSeeds with
  | S n', slot :: rest, seed :: seeds =>
      invokeCurandBatchInitialize_from (store states slot (curand_init seed 0 0))
        rest n' seeds
  | _, _, _ => states
  end.

(** Modelled from the spec: the absent [invokeCurandBatchInitialize], as
    the comment in [setup] describes it: the random table is initialised by
    the different seeds respectively. *)
Definition invokeCurandBatchInitialize (states : list curandState_t)
    (batchSlots : list SizeType32) (batchSize : SizeType32)
    (randomSeeds : list uint64_t) : list curandState_t :=
  invokeCurandBatchInitialize_from states batchSlots (Z.to_nat batchSize) randomSeeds.

(** Modelled from the spec: [cudaAutoCpy(dst, src, n)] of the absent
    [common/memoryUtils.h]: the first [n] elements of [dst] are overwritten
    by those of [src]. *)
Definition cudaAutoCpy {A : Type} (dst src : list A) (n : SizeType32) : list A :=
  take (Z.to_nat n) src ++ drop (Z.to_nat n) dst.

Section SamplingLayer.

(** The top-k and top-p sub-layers ([topKSamplingLayer.h],
    [topPSamplingLayer.h]) are not among the sources: their state, the
    members of the setup parameters they read and their [setup] are
    parameters. *)
Variable SubLayer : Type.
Variable SubLayerParams : Type.

Record SamplingSetupParams : Type := mkSetupParams {
  setup_randomSeed : OptVec uint64_t;
  setup_layerParams : SubLayerParams
}.

Variable subLayer_setup :
  SubLayer -> SizeType32 -> SizeType32 -> list SizeType32 ->
  SamplingSetupParams -> Result SubLayer.

Record SamplingLayer : Type := mkSamplingLayer {
  mDecodingMode : DecodingMode.t;
  mCurandStatesDevice : list curandState_t;
  mRandomSeedsDevice : list uint64_t;
  mSamplingLayers : list SubLayer
}.

(** The random-seed block of [setup] (the code before the loop over the
    sub-layers). *)
Definition setup_curand (L : SamplingLayer) (batchSize : SizeType32)
    (batchSlots : list SizeType32) (setupParams : SamplingSetupParams)
  : Result SamplingLayer :=
  match setup_randomSeed setupParams with
  | Some seeds =>
      if Z.of_nat (length seeds) =? 1 then
        Ok {| mDecodingMode := mDecodingMode L;
              mCurandStatesDevice :=
                invokeCurandInitialize (mCurandStatesDevice L) batchSlots
                  batchSize (hd 0 seeds);
              mRandomSeedsDevice := mRandomSeedsDevice L;
              mSamplingLayers := mSamplingLayers L |}
      else
        _ ← TLLM_CHECK_WITH_INFO
              (Z.of_nat (length seeds) =? to_size_t batchSize)
              "Random seed vector size mismatch.";
        let seedsDevice := cudaAutoCpy (mRandomSeedsDevice L) seeds batchSize in
        Ok {| mDecodingMode := mDecodingMode L;
              mCurandStatesDevice :=
                invokeCurandBatchInitialize (mCurandStatesDevice L) batchSlots
                  batchSize seedsDevice;
              mRandomSeedsDevice := seedsDevice;
              mSamplingLayers := mSamplingLayers L |}
  | None =>
      Ok {| mDecodingMode := mDecodingMode L;
            mCurandStatesDevice :=
              invokeCurandInitialize (mCurandStatesDevice L) batchSlots
                batchSize 0;
            mRandomSeedsDevice := mRandomSeedsDevice L;
            mSamplingLayers := mSamplingLayers L |}
  end.

Fixpoint setup_layers (layers : list SubLayer) (batchSize beamWidth : SizeType32)
    (batchSlots : list SizeType32) (setupParams : SamplingSetupParams)
  : Result (list SubLayer) :=
  match layers with
  | [] => Ok []
  | layer :: rest =>
      layer' ← subLayer_setup layer batchSize beamWidth batchSlots setupParams;
      rest' ← setup_layers rest batchSize beamWidth batchSlots setupParams;
      Ok (layer' :: rest')
  end.

(** [SamplingLayer<T>::setup] *)
Definition setup (L : SamplingLayer) (batchSize beamWidth : SizeType32)
    (batchSlots : list SizeType32) (setupParams : SamplingSetupParams)
  : Result SamplingLayer :=
  L1 ← setup_curand L batchSize batchSlots setupParams;
  layers' ← setup_layers (mSamplingLayers L1) batchSize beamWidth batchSlots
              setupParams;
  Ok {| mDecodingMode := mDecodingMode L1;
        mCurandStatesDevice := mCurandStatesDevice L1;
        mRandomSeedsDevice := mRandomSeedsDevice L1;
        mSamplingLayers := layers' |}.

End SamplingLayer.

Arguments mkSetupParams {SubLayerParams}.
Arguments setup_randomSeed {SubLayerParams}.
Arguments mkSamplingLayer {SubLayer}.
Arguments mDecodingMode {SubLayer}.
Arguments mCurandStatesDevice {SubLayer}.
Arguments mRandomSeedsDevice {SubLayer}.
Arguments mSamplingLayers {SubLayer}.
Arguments setup_curand {SubLayer SubLayerParams}.
Arguments setup {SubLayer SubLayerParams}.

(** *** Finished states *)

(** Modelled from the spec: [kernels::FinishedState] of
    [kernels/decodingCommon.h] is not among the sources.  A state records
    which finish conditions are set; a set condition stays set. *)
Module FinishedState.

Record t : Type := mk {
  finishedEos : bool;
  finishedStopWords : bool;
  finishedMaxLength : bool
}.

Definition empty : t := mk false false false.

Definition isFinished (s : t) : bool :=
  finishedEos s || finishedStopWords s || finishedMaxLength s.
Definition isFinishedEOS (s : t) : bool := finishedEos s.
Definition isFinishedStopWords (s : t) : bool := finishedStopWords s.
Definition isFinishedMaxLength (s : t) : bool := finishedMaxLength s.

Definition setFinishedEOS (s : t) : t :=
  mk true (finishedStopWords s) (finishedMaxLength s).
Definition setFinishedStopWords (s : t) : t :=
  mk (finishedEos s) true (finishedMaxLength s).
Definition setFinishedMaxLength (s : t) : t :=
  mk (finishedEos s) (finishedStopWords s) true.

End FinishedState.

(** *** [SamplingLayer<T>::forward] *)

(** The element type [T] of the logits buffer is [float] or [half]
    ([template class SamplingLayer<float>], [SamplingLayer<half>]): a binary
    floating-point format of IEEE 754, given by its precision and its
    exponent bound, whose operations round to nearest. *)
Record FloatFormat : Type := mkFormat {
  prec : Z;
  emax : Z
}.

Definition format_float : FloatFormat := mkFormat 24 128.

Definition Tadd (T : FloatFormat) : FloatType -> FloatType -> FloatType :=
  SFadd (prec T) (emax T).
Definition Tmul (T : FloatFormat) : FloatType -> FloatType -> FloatType :=
  SFmul (prec T) (emax T).
Definition Tdiv (T : FloatFormat) : FloatType -> FloatType -> FloatType :=
  SFdiv (prec T) (emax T).







Section AddBiasSoftMax.

(** The element type of the buffer. *)
Variable T : FloatFormat.

(** The exponential of the device arithmetic is not among the sources. *)
Variable expf : FloatType -> FloatType.

(** Modelled from the spec: banned tokens are excluded: a token whose logit
    was forced to minus infinity has weight 0, any other token the
    exponential of its logit. *)
Definition weight (logit : FloatType) : FloatType :=
  match logit with
  | S754_infinity true => S754_zero false
  | _ => expf logit
  end.

(** Modelled from the spec: the sum of the weights of a row, accumulated in
    the arithmetic of the buffer. *)
Definition sumWeights (row : list FloatType) : FloatType :=
  fold_left (fun acc logit => Tadd T acc (weight logit)) row (S754_zero false).

(** Modelled from the spec: the masked softmax of one row in the arithmetic
    of the buffer: the weight of each token divided by the sum of the
    weights. *)
Definition softmaxRow (row : list FloatType) : list FloatType :=
  let s := sumWeights row in
  map (fun logit => Tdiv T (weight logit) s) row.



End AddBiasSoftMax.



(** Index of the first greatest element. *)
Fixpoint argmax_from {A : Type} (ltb : A -> A -> bool) (bestIdx : nat) (best : A)
    (i : nat) (l : list A) : nat :=
  match l with
  | [] => bestIdx
  | x :: rest =>
      if ltb best x then argmax_from ltb i x (S i) rest
      else argmax_from ltb bestIdx best (S i) rest
  end.

Definition argmax {A : Type} (ltb : A -> A -> bool) (l : list A) : nat :=
  match l with
  | [] => 0%nat
  | x :: rest => argmax_from ltb 0%nat x 1%nat rest
  end.



(** The rounded normalisation keeps the order of the entries of a row: the
    probabilities of two tokens compare as their logits do. *)
Definition keepsOrder (T : FloatFormat) (expf : FloatType -> FloatType)
    (row : list FloatType) : Prop :=
  forall x y, In x row -> In y row ->
    SFltb (Tdiv T (weight expf x) (sumWeights T expf row))
          (Tdiv T (weight expf y) (sumWeights T expf row))
    = SFltb x y.

(** ** Stop criteria (kernels/stopCriteriaKernels.h, tested by
       stopCriteriaKernelsTest.cpp) *)

(** The slots [batchSlots[0 .. batchSize)] of the running requests. *)
Definition activeSlots (batchSlots : list SizeType32) (batchSize : SizeType32)
  : list SizeType32 :=
  take (Z.to_nat batchSize) batchSlots.

Definition isActive (batchSlots : list SizeType32) (batchSize : SizeType32)
    (slot : nat) : bool :=
  existsb (Z.eqb (Z.of_nat slot)) (activeSlots batchSlots batchSize).

(** The [beamWidth] entries of slot [slot] in a buffer of shape
    [[maxBatchSize, beamWidth]]. *)
Definition beamsOf {A : Type} (buf : list A) (beamWidth slot : nat) : list A :=
  take beamWidth (drop (slot * beamWidth) buf).

(** Modelled from the spec: the finished-sum aggregate counts the finished
    beams of a slot. *)
Definition countFinished (states : list FinishedState.t) : Z :=
  fold_right (fun s acc => (if FinishedState.isFinished s then 1 else 0) + acc) 0 states.

(** The number of beams whose length has reached the limit. *)
Definition countLimitReached (limit : SizeType32) (lengths : list SizeType32) : Z :=
  fold_right (fun len acc => (if limit <=? len then 1 else 0) + acc) 0 lengths.

(** Modelled from the spec: the length criterion on one beam: mark
    finished-by-max-length when the current length is greater than or equal
    to the slot's limit. *)
Definition lengthCriterion_beam (limit len : SizeType32) (s : FinishedState.t)
  : FinishedState.t :=
  if limit <=? len then FinishedState.setFinishedMaxLength s else s.

(** Modelled from the spec: the kernel [invokeLengthCriterion] is not among
    the sources.  Per active slot, per beam, the state is marked
    finished-by-max-length when the current length has reached the slot's
    limit; the finished-sum of an active slot is recomputed as the count of
    its finished beams.  Buffers are laid out as the test allocates them:
    [finished] and [sequenceLengths] of shape [[maxBatchSize, beamWidth]],
    [finishedSum] and [sequenceLengthLimits] of shape [[maxBatchSize]]. *)
Definition invokeLengthCriterion (finished : list FinishedState.t)
    (finishedSum : list SizeType32) (sequenceLengthLimits : list SizeType32)
    (sequenceLengths : list SizeType32) (batchSlots : list SizeType32)
    (batchSize beamWidth : SizeType32)
  : list FinishedState.t * list SizeType32 :=
  let bw := Z.to_nat beamWidth in
  let finished' :=
    imap (fun j s =>
            let slot := (j / bw)%nat in
            if isActive batchSlots batchSize slot then
              match sequenceLengthLimits !! slot, sequenceLengths !! j with
              | Some limit, Some len => lengthCriterion_beam limit len s
              | _, _ => s
              end
            else s) finished in
  let finishedSum' :=
    imap (fun slot old =>
            if isActive batchSlots batchSize slot
            then countFinished (beamsOf finished' bw slot)
            else old) finishedSum in
  (finished', finishedSum').

(** Modelled from the spec: the tail of the emitted sequence, read backward
    from position [pos], is compared with a stop phrase; [rword] is the
    phrase reversed. *)
Fixpoint matchBackward (tokens : list TokenIdType) (pos : nat)
    (rword : list TokenIdType) {struct rword} : bool :=
  match rword with
  | [] => true
  | w :: rest =>
      match pos with
      | O => false
      | S p =>
          match tokens !! p with
          | Some tok => (tok =? w) && matchBackward tokens p rest
          | None => false
          end
      end
  end.

(** Modelled from the spec: a stop phrase matches when it is the tail of
    the first [seqLen] emitted tokens.  An empty entry of the stop-word list
    configures no phrase (the test writes no offset for it and expects no
    match). *)
Definition matchesStopWord (tokens : list TokenIdType) (seqLen : SizeType32)
    (word : list TokenIdType) : bool :=
  negb (Nat.eqb (length word) 0)
  && (0 <=? seqLen)
  && matchBackward tokens (Z.to_nat seqLen) (rev word).

(** The [maxSeqLen] tokens of the [j]-th (slot, beam) pair in a buffer of
    shape [[maxBatchSize, beamWidth, maxSeqLen]]. *)
Definition outputIdsOf (outputIds : list TokenIdType) (maxSeqLen j : nat)
  : list TokenIdType :=
  take maxSeqLen (drop (j * maxSeqLen) outputIds).

(** Modelled from the spec: the stop-words criterion on one beam: mark
    finished-by-stop-words when any of the slot's phrases matches. *)
Definition stopWordsCriterion_beam (words : list (list TokenIdType))
    (tokens : list TokenIdType) (seqLen : SizeType32) (s : FinishedState.t)
  : FinishedState.t :=
  if existsb (matchesStopWord tokens seqLen) words
  then FinishedState.setFinishedStopWords s else s.

(** Modelled from the spec: the kernel [invokeStopWordsCriterion] is not
    among the sources.  Per active slot, per beam, the state is marked
    finished-by-stop-words when the tail of the emitted sequence, read
    backward from the current length, matches one of the slot's stop
    phrases. *)
Definition invokeStopWordsCriterion (outputIds : list TokenIdType)
    (stopWords : list (list (list TokenIdType)))
    (finished : list FinishedState.t) (sequenceLengths : list SizeType32)
    (batchSlots : list SizeType32) (batchSize beamWidth maxSeqLen : SizeType32)
  : list FinishedState.t :=
  let bw := Z.to_nat beamWidth in
  imap (fun j s =>
          let slot := (j / bw)%nat in
          if isActive batchSlots batchSize slot then
            match stopWords !! slot, sequenceLengths !! j with
            | Some words, Some seqLen =>
                stopWordsCriterion_beam words
                  (outputIdsOf outputIds (Z.to_nat maxSeqLen) j) seqLen s
            | _, _ => s
            end
          else s) finished.

(** Modelled from the spec: one decoding step of a single beam.  A beam
    that is not finished has the selected token appended to its history, and
    the stop-words criterion then runs on the new length; a finished beam is
    left alone (its state is sticky, its history is not extended). *)
Definition stepBeam (words : list (list TokenIdType))
    (st : list TokenIdType * FinishedState.t) (tok : TokenIdType)
  : list TokenIdType * FinishedState.t :=
  let '(tokens, s) := st in
  if FinishedState.isFinished s then st
  else
    let tokens' := tokens ++ [tok] in
    (tokens', stopWordsCriterion_beam words tokens' (Z.of_nat (length tokens')) s).

(** Modelled from the spec: the steps of a beam from its empty history,
    one per token the selection stage offers. *)
Definition runBeam (words : list (list TokenIdType)) (emitted : list TokenIdType)
  : list TokenIdType * FinishedState.t :=
  fold_left (stepBeam words) emitted ([], FinishedState.empty).

(** *** stopCriteriaKernelsTest.cpp: the test fixture *)

Definition mMaxSeqLen : SizeType32 := 16.

Definition zrange (n : Z) : list Z := map Z.of_nat (seq 0 (Z.to_nat n)).

(** [n] consecutive elements of a buffer starting at offset [start]; reading
    outside the buffer has no defined result. *)
Definition readN {A : Type} (buf : list A) (start : Z) (n : Z) : option (list A) :=
  if (0 <=? start) && (0 <=? n) && (start + n <=? Z.of_nat (length buf))
  then Some (take (Z.to_nat n) (drop (Z.to_nat start) buf))
  else None.

(** [initData]: the buffers it fills deterministically.  [batchSlots[bi] =
    2 * bi]; every state is [FinishedState::empty()], every finished-sum 0;
    [outputIds[bi][ri][si] = ri * mMaxSeqLen + si]; for the stop-words tests
    the length of (bi, ri) is [mMaxSeqLen - (bi / 2 + ri) % mMaxSeqLen]. *)
Definition initData_batchSlots (batchSize : SizeType32) : list SizeType32 :=
  map (fun bi => 2 * bi) (zrange batchSize).

Definition initData_finished (batchSize beamWidth : SizeType32) : list FinishedState.t :=
  repeat FinishedState.empty (Z.to_nat (2 * batchSize * beamWidth)).

Definition initData_finishedSum (batchSize : SizeType32) : list SizeType32 :=
  repeat 0 (Z.to_nat (2 * batchSize)).

Definition initData_outputIds (batchSize beamWidth : SizeType32) : list TokenIdType :=
  flat_map (fun bi =>
    flat_map (fun ri =>
      map (fun si => ri * mMaxSeqLen + si) (zrange mMaxSeqLen))
      (zrange beamWidth))
    (zrange (2 * batchSize)).

Definition initData_sequenceLengths (batchSize beamWidth : SizeType32) : list SizeType32 :=
  flat_map (fun bi =>
    map (fun ri => mMaxSeqLen - (Z.quot bi 2 + ri) mod mMaxSeqLen) (zrange beamWidth))
    (zrange (2 * batchSize)).

(** The inner loop of [verifyMaxSeqLenStopCriteriaResults] over the beams of
    one slot: the running [refSumFinished] and whether every [EXPECT_TRUE]
    held. *)
Fixpoint verifyMaxSeqLen_beams (sequenceLengths sequenceLengthLimits : list SizeType32)
    (finished : list FinishedState.t) (batchSlot beamWidth : SizeType32)
    (beams : list SizeType32) (refSumFinished : Z) : Z * bool :=
  match beams with
  | [] => (refSumFinished, true)
  | beamIdx :: rest =>
      let batchBeamIdx := batchSlot * beamWidth + beamIdx in
      match load sequenceLengths batchBeamIdx,
            load sequenceLengthLimits batchSlot,
            load finished batchBeamIdx with
      | Some len, Some limit, Some fs =>
          let limitExceeded := limit <=? len in
          let expect :=
            if limitExceeded then FinishedState.isFinishedMaxLength fs else true in
          let '(refSum, ok) :=
            verifyMaxSeqLen_beams sequenceLengths sequenceLengthLimits finished
              batchSlot beamWidth rest
              (refSumFinished + (if limitExceeded then 1 else 0)) in
          (refSum, expect && ok)
      | _, _, _ => (refSumFinished, false)
      end
  end.

(** [verifyMaxSeqLenStopCriteriaResults]: [true] when no expectation fails. *)
Definition verifyMaxSeqLenStopCriteriaResults
    (sequenceLengths sequenceLengthLimits : list SizeType32)
    (finished : list FinishedState.t) (finishedSum : list SizeType32)
    (batchSlots : list SizeType32) (batchSize beamWidth : SizeType32) : bool :=
  forallb (fun batchIdx =>
    match load batchSlots batchIdx with
    | Some batchSlot =>
        let '(refSumFinished, ok) :=
          verifyMaxSeqLen_beams sequenceLengths sequenceLengthLimits finished
            batchSlot beamWidth (zrange beamWidth) 0 in
        ok && match load finishedSum batchSlot with
              | Some sum => refSumFinished =? sum
              | None => false
              end
    | None => false
    end) (zrange batchSize).

Definition list_eqb (a b : list Z) : bool :=
  Nat.eqb (length a) (length b) && forallb (fun p => fst p =? snd p) (combine a b).

(** [isSubsequence]: [std::search] returns the first position [i] of the
    [n]-element window at which the pattern occurs (position 0 for an empty
    pattern) and the end of the window when there is none; the result is
    compared with the end of the window. *)
Definition isSubsequence (window : list Z) (n : nat) (subsequence : list Z) : bool :=
  existsb (fun i =>
             (i + length subsequence <=? n)%nat
             && list_eqb (take (length subsequence) (drop i window)) subsequence)
          (seq 0 n).

(** The loop of [verifyStopWordsStopCriteriaResults] over the stop words of
    one (slot, beam): [found], and whether the expectation inside the loop
    held. *)
Fixpoint verifyStopWords_words (outputIds : list TokenIdType) (rowStart : Z)
    (seqLen : SizeType32) (fs : FinishedState.t)
    (words : list (list TokenIdType)) (found : bool) : bool * bool :=
  match words with
  | [] => (found, true)
  | word :: rest =>
      let wordLen := Z.of_nat (length word) in
      let offset := seqLen - wordLen in
      match readN outputIds (rowStart + offset) wordLen with
      | Some window =>
          let found' := found || isSubsequence window (length word) word in
          if found' then (true, FinishedState.isFinishedStopWords fs)
          else verifyStopWords_words outputIds rowStart seqLen fs rest found'
      | None => (found, false)
      end
  end.

(** [verifyStopWordsStopCriteriaResults]: [true] when no expectation fails. *)
Definition verifyStopWordsStopCriteriaResults (outputIds : list TokenIdType)
    (finished : list FinishedState.t) (sequenceLengths : list SizeType32)
    (batchSlots : list SizeType32)
    (stopWords : list (list (list TokenIdType)))
    (batchSize beamWidth : SizeType32) : bool :=
  forallb (fun bi =>
    match load batchSlots bi with
    | Some batchSlot =>
        forallb (fun bwi =>
          let rowStart := batchSlot * beamWidth * mMaxSeqLen + bwi * mMaxSeqLen in
          match load stopWords batchSlot,
                load sequenceLengths (batchSlot * beamWidth + bwi),
                load finished (batchSlot * beamWidth + bwi) with
          | Some words, Some seqLen, Some fs =>
              let '(found, ok) :=
                verifyStopWords_words outputIds rowStart seqLen fs words false in
              ok && (if found then true else negb (FinishedState.isFinished fs))
          | _, _, _ => false
          end) (zrange beamWidth)
    | None => false
    end) (zrange batchSize).

(** [runStopWordsCriteriaTest] on the kernel model: [initData], the
    criterion, the verification. *)
Definition runStopWordsCriteriaTest (stopWords : list (list (list TokenIdType)))
    (batchSize beamWidth : SizeType32) : bool :=
  let outputIds := initData_outputIds batchSize beamWidth in
  let sequenceLengths := initData_sequenceLengths batchSize beamWidth in
  let batchSlots := initData_batchSlots batchSize in
  let finished :=
    invokeStopWordsCriterion outputIds stopWords
      (initData_finished batchSize beamWidth) sequenceLengths batchSlots
      batchSize beamWidth mMaxSeqLen in
  verifyStopWordsStopCriteriaResults outputIds finished sequenceLengths batchSlots
    stopWords batchSize beamWidth.

(** [runMaxLengthCriteriaTest] on the kernel model; the lengths and limits
    [initData] draws at random are arguments. *)
Definition runMaxLengthCriteriaTest (sequenceLengths sequenceLengthLimits : list SizeType32)
    (batchSize beamWidth : SizeType32) : bool :=
  let batchSlots := initData_batchSlots batchSize in
  let '(finished, finishedSum) :=
    invokeLengthCriterion (initData_finished batchSize beamWidth)
      (initData_finishedSum batchSize) sequenceLengthLimits sequenceLengths
      batchSlots batchSize beamWidth in
  verifyMaxSeqLenStopCriteriaResults sequenceLengths sequenceLengthLimits
    finished finishedSum batchSlots batchSize beamWidth.

(** ** Speculative tree verification (tested by dynamicDecodeLayerTest.cpp) *)

(** Modelled from the spec: the Medusa decoding layer and its kernels are
    not among the sources.  A step processes [tokensPerStep] tree nodes:
    node 0 is the root (the last accepted token), node [p >= 1] carries the
    draft token [draft[p - 1]].  [target[p]] is the target model's realized
    choice after node [p].  A path lists the nodes of one candidate
    continuation, root first, [-1] marking an unused entry.  Walking a path,
    the root is always accepted; a further node is accepted when it is used
    and its draft token equals the target's choice after the previous node.
    The accepted length of a path is the number of accepted nodes. *)
Fixpoint acceptAlong (draft target : list TokenIdType) (prev : Z)
    (rest : list Z) : nat :=
  match rest with
  | [] => 0%nat
  | p :: rest' =>
      if p =? -1 then 0%nat
      else
        match load draft (p - 1), load target prev with
        | Some draftToken, Some targetToken =>
            if draftToken =? targetToken
            then S (acceptAlong draft target p rest')
            else 0%nat
        | _, _ => 0%nat
        end
  end.

(** Modelled from the spec: the accepted length of one path (see
    [acceptAlong]); a path whose root entry is unused accepts nothing. *)
Definition pathAcceptedLength (draft target : list TokenIdType) (path : list Z) : nat :=
  match path with
  | [] => 0%nat
  | root :: rest =>
      if root =? -1 then 0%nat else S (acceptAlong draft target root rest)
  end.

(** Modelled from the spec: the longest accepted path; ties break toward
    the path listed first, so a later path replaces the best one only when it
    is strictly longer.  The result is (accepted length, path index). *)
Fixpoint bestPath_from (lengths : list nat) (pi : nat) (best : nat * nat) : nat * nat :=
  match lengths with
  | [] => best
  | len :: rest =>
      bestPath_from rest (S pi) (if (fst best <? len)%nat then (len, pi) else best)
  end.

(** Modelled from the spec: the selected path of a slot. *)
Definition bestPath (draft target : list TokenIdType) (paths : list (list Z))
  : nat * nat :=
  bestPath_from (map (pathAcceptedLength draft target) paths) 0%nat (0%nat, 0%nat).

(** Modelled from the spec: the tokens emitted for the accepted nodes: the
    target's choice after each of them. *)
Definition acceptedTokens (target : list TokenIdType) (paths : list (list Z))
    (best : nat * nat) : list TokenIdType :=
  match paths !! snd best with
  | Some path => omap (load target) (take (fst best) path)
  | None => []
  end.

(** The nodes of the selected path that were accepted. *)
Definition acceptedNodes (paths : list (list Z)) (best : nat * nat) : list Z :=
  match paths !! snd best with
  | Some path => take (fst best) path
  | None => []
  end.

Record MedusaSlot : Type := mkMedusaSlot {
  outputHistory : list TokenIdType;
  acceptedLength : nat
}.

(** Modelled from the spec: verification of one slot: accepted length, and
    the accepted tokens appended to the slot's history. *)
Definition medusaVerify (history draft target : list TokenIdType)
    (paths : list (list Z)) : MedusaSlot :=
  let best := bestPath draft target paths in
  {| outputHistory := history ++ acceptedTokens target paths best;
     acceptedLength := fst best |}.

(** *** dynamicDecodeLayerTest.cpp: [MedusaSimpleTest] *)

(** [mTestLogitsInit], in units of 1e-4; [negFLT_MAX] stands for [-FLT_MAX]. *)
Definition negFLT_MAX : Z := - (3402823466385288598117041834845169254400000).

Definition mTestLogitsInit : list (list Z) :=
  let m := negFLT_MAX in
  [ [m; m; m; m; -9163; -12040; -16094; -23026; m];
    [-9163; -12040; -16094; -23026; m; m; m; m; m];
    [m; m; -9163; -12040; -16094; -23026; m; m; m];
    [-9163; -12040; -16094; -23026; m; m; m; m; m] ].

(** With [topK = 1] the target's choice at a node is the arg-max of the
    node's logits. *)
Definition testTargetTokens : list TokenIdType :=
  map (fun row => Z.of_nat (argmax Z.ltb row)) mTestLogitsInit.

(** [params.paths], one list of paths per batch entry. *)
Definition testPaths : list (list (list Z)) :=
  [ [[0; 1; 2]; [0; 3; -1]];
    [[0; 1; -1]; [0; -1; -1]];
    [[0; 1; 3]];
    [[0; 2; 3]];
    [[0; 2; -1]];
    [[0; 3; -1]] ].

(** [params.outputIds]: the draft tokens of nodes 1..3, per batch entry. *)
Definition testDraftTokens : list (list TokenIdType) :=
  [ [4; 0; 2]; [4; 0; 2]; [4; 0; 0]; [4; 4; 2]; [4; 0; 2]; [4; 0; 2] ].

(** [expectedOutputIds], transposed: per batch entry, the expected token at
    each step. *)
Definition testExpectedOutputIds : list (list TokenIdType) :=
  [ [4; 0; 2; 2]; [4; 0; 0; 2]; [4; 0; 0; 0]; [4; 2; 0; 2]; [4; 4; 0; 2]; [4; 4; 0; 2] ].

(** [checkResult] for one batch entry: only the steps below the sequence
    length are compared. *)
Definition checkResult_slot (slot : MedusaSlot) (expected : list TokenIdType) : bool :=
  list_eqb (outputHistory slot) (take (length (outputHistory slot)) expected)
  && Nat.eqb (length (outputHistory slot)) (acceptedLength slot).

Definition runMedusaSimpleTest : bool :=
  forallb (fun '(paths, draft, expected) =>
             checkResult_slot (medusaVerify [] draft testTargetTokens paths) expected)
          (zip (zip testPaths testDraftTokens) testExpectedOutputIds).

(** ** The stop-criteria statements of the specification *)

(** The buffers have the shapes the test allocates, with [maxBatchSize] the
    length of the limits buffer, and every active slot is a valid slot. *)
Definition stopCriteriaBuffers_wf (finished : list FinishedState.t)
    (finishedSum sequenceLengthLimits sequenceLengths batchSlots : list SizeType32)
    (batchSize beamWidth : SizeType32) : Prop :=
  0 < beamWidth
  /\ (Z.to_nat batchSize <= length batchSlots)%nat
  /\ length finished = (length sequenceLengthLimits * Z.to_nat beamWidth)%nat
  /\ length sequenceLengths = length finished
  /\ length finishedSum = length sequenceLengthLimits
  /\ forall slot, In slot (activeSlots batchSlots batchSize) ->
                  0 <= slot < Z.of_nat (length sequenceLengthLimits).

(** No beam of an active slot is finished, for whatever cause. *)
Definition noneFinished (finished : list FinishedState.t)
    (batchSlots : list SizeType32) (batchSize beamWidth : SizeType32) : Prop :=
  forall (bi slot beam : nat) (s : FinishedState.t),
    (bi < Z.to_nat batchSize)%nat ->
    batchSlots !! bi = Some (Z.of_nat slot) ->
    (beam < Z.to_nat beamWidth)%nat ->
    finished !! (slot * Z.to_nat beamWidth + beam)%nat = Some s ->
    FinishedState.isFinished s = false.

(** The max-length statement: after the length criterion, a beam of an
    active slot is finished-by-max-length exactly when its length has reached
    the slot's limit, and the slot's finished-sum is the number of its beams
    whose length has reached the limit. *)
Definition maxLengthStatement (finished : list FinishedState.t)
    (finishedSum sequenceLengthLimits sequenceLengths batchSlots : list SizeType32)
    (batchSize beamWidth : SizeType32) : Prop :=
  let bw := Z.to_nat beamWidth in
  let result :=
    invokeLengthCriterion finished finishedSum sequenceLengthLimits
      sequenceLengths batchSlots batchSize beamWidth in
  forall (bi slot : nat) (limit : SizeType32),
    (bi < Z.to_nat batchSize)%nat ->
    batchSlots !! bi = Some (Z.of_nat slot) ->
    sequenceLengthLimits !! slot = Some limit ->
    (forall (beam : nat) (len : SizeType32),
       (beam < bw)%nat ->
       sequenceLengths !! (slot * bw + beam)%nat = Some len ->
       exists s',
         fst result !! (slot * bw + beam)%nat = Some s'
         /\ (FinishedState.isFinishedMaxLength s' = true <-> limit <= len))
    /\ snd result !! slot
       = Some (countLimitReached limit (beamsOf sequenceLengths bw slot)).

(** A state with the end-token condition set. *)
Definition finishedByEos : FinishedState.t :=
  FinishedState.setFinishedEOS FinishedState.empty.

(** A state with the max-length condition set. *)
Definition finishedByMaxLength : FinishedState.t :=
  FinishedState.setFinishedMaxLength FinishedState.empty.

(** The number of beams that are finished although their length is below
    the limit. *)
Definition countFinishedBelow (limit : SizeType32) (lengths : list SizeType32)
    (states : list FinishedState.t) : Z :=
  fold_right (fun p acc =>
                (if FinishedState.isFinished (snd p) && (fst p <? limit)
                 then 1 else 0) + acc)
             0 (combine lengths states).

(** No beam of slot [slot] is finished. *)
Definition slotFresh (finished : list FinishedState.t) (beamWidth : SizeType32)
    (slot : nat) : Prop :=
  forall (beam : nat) (s : FinishedState.t),
    (beam < Z.to_nat beamWidth)%nat ->
    finished !! (slot * Z.to_nat beamWidth + beam)%nat = Some s ->
    FinishedState.isFinished s = false.

(** The stop phrase [word] occurs in the emitted sequence as a contiguous
    subsequence that ends exactly at the current length [seqLen]. *)
Definition occursEndingAt (tokens : list TokenIdType) (seqLen : SizeType32)
    (word : list TokenIdType) : Prop :=
  0 <= seqLen
  /\ exists pre, take (Z.to_nat seqLen) tokens = pre ++ word
                 /\ (length pre + length word)%nat = Z.to_nat seqLen.

(** ** Sample data to run the definitions on *)

Definition float_one : FloatType := S754_finite false 8388608 (-23).
Definition float_zero : FloatType := S754_zero false.

Definition exampleDefaults : DefaultDecodingParams.t :=
  {| DefaultDecodingParams.getTemperature := float_one;
     DefaultDecodingParams.getMinLength := 1;
     DefaultDecodingParams.getRepetitionPenalty := float_one;
     DefaultDecodingParams.getPresencePenalty := float_zero;
     DefaultDecodingParams.getFrequencyPenalty := float_zero;
     DefaultDecodingParams.getTopK := 0;
     DefaultDecodingParams.getTopP := float_zero;
     DefaultDecodingParams.getSeed := 0;
     DefaultDecodingParams.getTopPDecay := float_one;
     DefaultDecodingParams.getTopPMin := float_zero;
     DefaultDecodingParams.getTopPResetId := -1;
     DefaultDecodingParams.getBeamSearchDiversity := float_zero;
     DefaultDecodingParams.getLengthPenalty := float_zero;
     DefaultDecodingParams.getEarlyStopping := 1;
     DefaultDecodingParams.getTopKMedusaHeads := [] |}.

(** A request that sets top-k and a seed, beam width 1. *)
Definition requestA : SamplingConfig :=
  {| beamWidth := 1;
     temperature := None; minLength := None; repetitionPenalty := None;
     presencePenalty := None; frequencyPenalty := None;
     topK := Some [5]; topP := None; randomSeed := Some [7]; topPDecay := None;
     topPMin := None; topPResetIds := None;
     beamSearchDiversityRate := None; lengthPenalty := None;
     earlyStopping := None; draftAcceptanceThreshold := None;
     topKMedusaHeads := None; normalizeLogProbs := Some true |}.

(** A request that sets nothing, beam width 4. *)
Definition requestB : SamplingConfig := SamplingConfig_new 4.

(** A config that holds a batch vector where a scalar is expected. *)
Definition requestBatch : SamplingConfig :=
  {| beamWidth := 1;
     temperature := None; minLength := None; repetitionPenalty := None;
     presencePenalty := None; frequencyPenalty := None;
     topK := Some [1; 2]; topP := None; randomSeed := None; topPDecay := None;
     topPMin := None; topPResetIds := None;
     beamSearchDiversityRate := None; lengthPenalty := None;
     earlyStopping := None; draftAcceptanceThreshold := None;
     topKMedusaHeads := None; normalizeLogProbs := None |}.

(** A request that sets every tunable field. *)
Definition requestFull : SamplingConfig :=
  {| beamWidth := 2;
     temperature := Some [float_one]; minLength := Some [3];
     repetitionPenalty := Some [float_one];
     presencePenalty := Some [float_zero]; frequencyPenalty := Some [float_zero];
     topK := Some [5]; topP := Some [float_one]; randomSeed := Some [7];
     topPDecay := Some [float_one]; topPMin := Some [float_zero];
     topPResetIds := Some [-1];
     beamSearchDiversityRate := Some [float_zero];
     lengthPenalty := Some [float_zero];
     earlyStopping := Some [1]; draftAcceptanceThreshold := Some [float_zero];
     topKMedusaHeads := Some [[3; 1]]; normalizeLogProbs := Some false |}.

(** A sampling layer with four slots and no sub-layer state, two active
    requests in slots 0 and 2. *)
Definition trivial_subLayer_setup (layer : unit) (batchSize beamWidth : SizeType32)
    (batchSlots : list SizeType32) (params : SamplingSetupParams unit)
  : Result unit := Ok layer.

Definition exampleLayer : SamplingLayer unit :=
  {| mDecodingMode := DecodingMode.TopKTopP;
     mCurandStatesDevice := repeat (curand_init 99 0 0) 4;
     mRandomSeedsDevice := repeat 0 4;
     mSamplingLayers := [tt; tt] |}.

Definition exampleBatchSlots : list SizeType32 := [0; 2].

(** ** decodingMode.h: [operator==] and [fromExecutor] *)

(** [bool operator==(DecodingMode const& other) const] *)
Definition DecodingMode_eqb (a b : DecodingMode.t) : bool :=
  DecodingMode.mState a =? DecodingMode.mState b.

(** [executor::DecodingMode] is declared in [executor/types.h], which is not
    among the sources; its enumerators are the six that [fromExecutor] names.
    A value of the enumeration type that is none of them is [kOTHER], with
    its underlying value. *)
Inductive executor_DecodingMode : Type :=
| kNONE
| kTOP_K
| kTOP_P
| kBEAM_SEARCH
| kMEDUSA
| kTOP_K_TOP_P
| kOTHER (underlying : Z).

(** [static DecodingMode fromExecutor(executor::DecodingMode decodingMode)] *)
Definition fromExecutor (decodingMode : executor_DecodingMode)
  : Result DecodingMode.t :=
  match decodingMode with
  | kNONE => Ok DecodingMode.None
  | kTOP_K => Ok DecodingMode.TopK
  | kTOP_P => Ok DecodingMode.TopP
  | kBEAM_SEARCH => Ok DecodingMode.BeamSearch
  | kMEDUSA => Ok DecodingMode.Medusa
  | kTOP_K_TOP_P => Ok DecodingMode.TopKTopP
  | kOTHER _ => TllmException "Invalid decoding mode"
  end.

(** ** samplingLayer.cpp: the constructor and [allocateBuffer] *)

(** The two sub-layers the constructor can create ([topKSamplingLayer.h],
    [topPSamplingLayer.h]); a created sub-layer is represented by its kind. *)
Inductive SamplingSubLayer_t : Type :=
| TopKSamplingLayer
| TopPSamplingLayer.

(** [SamplingLayer<T>::SamplingLayer]: the two mode checks, then the
    sub-layers [emplace_back]ed into [mSamplingLayers]. *)
Definition SamplingLayer_new (mode : DecodingMode.t)
  : Result (list SamplingSubLayer_t) :=
  _ ← TLLM_CHECK_WITH_INFO (negb (DecodingMode.isBeamSearch mode))
        "SamplingLayer does not support Beam search mode";
  _ ← TLLM_CHECK_WITH_INFO (DecodingMode.isTopKorTopP mode)
        "SamplingLayer requires TopK nor TopP mode";
  let mSamplingLayers := [] in
  let mSamplingLayers :=
    if DecodingMode.isTopK mode
    then mSamplingLayers ++ [TopKSamplingLayer] else mSamplingLayers in
  let mSamplingLayers :=
    if DecodingMode.isTopP mode
    then mSamplingLayers ++ [TopPSamplingLayer] else mSamplingLayers in
  Ok mSamplingLayers.

(** The first loop of [allocateBuffer]: [mWorkspaceSize] starts at 0 and is
    raised to the workspace size of each sub-layer in turn.  The argument
    lists [layer->getWorkspaceSize()] for the sub-layers; sizes are [size_t]. *)
Definition allocateBuffer_mWorkspaceSize (workspaceSizes : list Z) : Z :=
  fold_left (fun mWorkspaceSize size => Z.max mWorkspaceSize size) workspaceSizes 0.

(** ** dynamicDecodeLayerTest.cpp: [allocateData] *)

(** The lambda that picks the decoding mode of the layer under test. *)
Definition allocateData_decodingMode (mBeamWidth : SizeType32) (mUseMedusa : bool)
  : DecodingMode.t :=
  if mBeamWidth =? 1 then
    if mUseMedusa then DecodingMode.Medusa else DecodingMode.TopKTopP
  else DecodingMode.BeamSearch.

(** ** samplingConfig.h: the constructor from an executor config *)

(** [executor::SamplingConfig] and [executor::SpeculativeDecodingConfig] are
    declared in [executor/executor.h], which is not among the sources.  The
    constructor reads them through the getters below only; but for
    [getBeamWidth] each returns an optional scalar. *)
Module executor.

Record SamplingConfig : Type := mkSamplingConfig {
  getBeamWidth : SizeType32;
  getTopK : option SizeType32;
  getTopP : option FloatType;
  getTopPMin : option FloatType;
  getTopPResetIds : option TokenIdType;
  getTopPDecay : option FloatType;
  getRandomSeed : option uint64_t;
  getTemperature : option FloatType;
  getMinLength : option SizeType32;
  getBeamSearchDiversityRate : option FloatType;
  getRepetitionPenalty : option FloatType;
  getPresencePenalty : option FloatType;
  getFrequencyPenalty : option FloatType;
  getLengthPenalty : option FloatType;
  getEarlyStopping : option SizeType32
}.

Record SpeculativeDecodingConfig : Type := mkSpeculativeDecodingConfig {
  getAcceptanceThreshold : option FloatType
}.

End executor.

(** The macro [SET_FROM_OPTIONAL]: the member, default-initialised to
    [std::nullopt], becomes the one-element vector of the getter's value when
    the getter returns one. *)
Definition SET_FROM_OPTIONAL {VarType : Type} (getter : option VarType)
  : OptVec VarType :=
  match getter with
  | Some value => Some [value]
  | None => None
  end.

(** [explicit SamplingConfig(executor::SamplingConfig const& samplingConfig,
    std::optional<executor::SpeculativeDecodingConfig> const&
    specDecodingConfig)]; [topKMedusaHeads] and [normalizeLogProbs] are not
    assigned and stay empty. *)
Definition SamplingConfig_fromExecutor (samplingConfig : executor.SamplingConfig)
    (specDecodingConfig : option executor.SpeculativeDecodingConfig)
  : SamplingConfig :=
  {| beamWidth := executor.getBeamWidth samplingConfig;
     draftAcceptanceThreshold :=
       match specDecodingConfig with
       | Some spec => SET_FROM_OPTIONAL (executor.getAcceptanceThreshold spec)
       | None => None
       end;
     topK := SET_FROM_OPTIONAL (executor.getTopK samplingConfig);
     topP := SET_FROM_OPTIONAL (executor.getTopP samplingConfig);
     topPMin := SET_FROM_OPTIONAL (executor.getTopPMin samplingConfig);
     topPResetIds := SET_FROM_OPTIONAL (executor.getTopPResetIds samplingConfig);
     topPDecay := SET_FROM_OPTIONAL (executor.getTopPDecay samplingConfig);
     randomSeed := SET_FROM_OPTIONAL (executor.getRandomSeed samplingConfig);
     temperature := SET_FROM_OPTIONAL (executor.getTemperature samplingConfig);
     minLength := SET_FROM_OPTIONAL (executor.getMinLength samplingConfig);
     beamSearchDiversityRate :=
       SET_FROM_OPTIONAL (executor.getBeamSearchDiversityRate samplingConfig);
     repetitionPenalty :=
       SET_FROM_OPTIONAL (executor.getRepetitionPenalty samplingConfig);
     presencePenalty := SET_FROM_OPTIONAL (executor.getPresencePenalty samplingConfig);
     frequencyPenalty :=
       SET_FROM_OPTIONAL (executor.getFrequencyPenalty samplingConfig);
     lengthPenalty := SET_FROM_OPTIONAL (executor.getLengthPenalty samplingConfig);
     earlyStopping := SET_FROM_OPTIONAL (executor.getEarlyStopping samplingConfig);
     topKMedusaHeads := None;
     normalizeLogProbs := None |}.

(** A request as the executor hands it over. *)
Definition ExecutorRequest : Type :=
  executor.SamplingConfig * option executor.SpeculativeDecodingConfig.

(** What a request says about a tunable field: the value of the getter the
    constructor reads for it, nothing for [topKMedusaHeads]. *)
Definition executor_get (f : Field) (request : ExecutorRequest)
  : option (field_type f) :=
  let '(samplingConfig, specDecodingConfig) := request in
  match f as f0 return option (field_type f0) with
  | F_temperature => executor.getTemperature samplingConfig
  | F_minLength => executor.getMinLength samplingConfig
  | F_repetitionPenalty => executor.getRepetitionPenalty samplingConfig
  | F_presencePenalty => executor.getPresencePenalty samplingConfig
  | F_frequencyPenalty => executor.getFrequencyPenalty samplingConfig
  | F_topK => executor.getTopK samplingConfig
  | F_topP => executor.getTopP samplingConfig
  | F_randomSeed => executor.getRandomSeed samplingConfig
  | F_topPDecay => executor.getTopPDecay samplingConfig
  | F_topPMin => executor.getTopPMin samplingConfig
  | F_topPResetIds => executor.getTopPResetIds samplingConfig
  | F_beamSearchDiversityRate => executor.getBeamSearchDiversityRate samplingConfig
  | F_lengthPenalty => executor.getLengthPenalty samplingConfig
  | F_earlyStopping => executor.getEarlyStopping samplingConfig
  | F_topKMedusaHeads => None
  | F_draftAcceptanceThreshold =>
      match specDecodingConfig with
      | Some spec => executor.getAcceptanceThreshold spec
      | None => None
      end
  end.

(** Two executor requests: the first sets top-k 5 and seed 7, the second
    sets a temperature and, through its speculative config, an acceptance
    threshold. *)
Definition executorRequestA : ExecutorRequest :=
  (executor.mkSamplingConfig 1 (Some 5) None None None None (Some 7) None None
     None None None None None None, None).

Definition executorRequestB : ExecutorRequest :=
  (executor.mkSamplingConfig 4 None None None None None None (Some float_one) None
     None None None None None None,
   Some (executor.mkSpeculativeDecodingConfig (Some float_zero))).

(** ** dynamicDecodeLayerTest.cpp: [getMaxWordsLen] *)

(** The body of the loop of [getMaxWordsLen] for one batch entry (the same
    code computes [maxStopWordsLen] in [runStopWordsCriteriaTest]): the
    number of tokens of the entry's words, plus one when that number equals
    the number of words.  The sums are taken in [Z]. *)
Definition wordsLenOf (batchWords : list (list TokenIdType)) : SizeType32 :=
  let wordsLen :=
    fold_left (fun wordsLen words => wordsLen + Z.of_nat (length words)) batchWords 0 in
  if wordsLen =? Z.of_nat (length batchWords) then wordsLen + 1 else wordsLen.

Definition getMaxWordsLen (inputWords : list (list (list TokenIdType))) : SizeType32 :=
  fold_left (fun maxWordsLen batchWords => Z.max maxWordsLen (wordsLenOf batchWords))
    inputWords 0.

(** ** banWordsLayer.cpp *)

(** What ends a call other than a return: a [TllmException] of a failed
    [TLLM_CHECK], the [std::bad_optional_access] that [value()] throws on an
    empty [std::optional], or the [std::length_error] of a [std::vector]
    asked for more elements than it can hold. *)
Inductive Exception : Type :=
| tllm_exception (msg : string)
| bad_optional_access
| length_error.

(** The outcome of a call; [Undefined] is behaviour the language leaves
    undefined (dereferencing an empty optional, indexing past the end). *)
Inductive Outcome (A : Type) : Type :=
| Returns (a : A)
| Throws (e : Exception)
| Undefined.
Arguments Returns {A} a.
Arguments Throws {A} e.
Arguments Undefined {A}.

(** A [size_t] converted to [SizeType32]. *)
Definition to_SizeType32 (z : Z) : SizeType32 :=
  (z + 2 ^ 31) mod 2 ^ 32 - 2 ^ 31.

(** The members of [DynamicDecodeInputParams] and
    [DynamicDecodeOutputParams] that [BanWordsLayer::forward] and the two
    functions it calls look at ([decodingParams.h] is not among the sources).
    Of a tensor only the shape is read here; of the other optionals only
    whether they hold a value. *)
Record BanWordsParams : Type := mkBanWordsParams {
  output_ids_shape : list Z;
  sequence_length_present : bool;
  inputs_logits : option (list Z);
  inputs_logits_vec : option (list (list Z));
  no_repeat_ngram_size_present : bool;
  max_bad_words_len : SizeType32;
  bad_words_present : bool
}.

(** The kernels of [kernels/banRepeatNgram.h] and [kernels/banBadWords.h]
    are not among the sources; a launch is recorded with the sizes it is
    given, and for the bad-words kernel with whether it is given the parent
    ids. *)
Inductive BanKernelLaunch : Type :=
| invokeBanRepeatNgram (batchSize beamWidth maxSeqLen vocabSizePadded : SizeType32)
| invokeBanBadWords (parentIds : bool)
    (batchSize beamWidth maxBadWordsLength vocabSizePadded maxSeqLen : SizeType32).

(** [BanWordsLayer<T>::banRepeatNGrams]: the kernel runs only when
    [inputs->no_repeat_ngram_size] holds a value; [outputs->sequence_length]
    is dereferenced. *)
Definition banRepeatNGrams (params : BanWordsParams)
    (batchSize beamWidth maxSeqLen vocabSizePadded : SizeType32)
  : Outcome (list BanKernelLaunch) :=
  if no_repeat_ngram_size_present params then
    if sequence_length_present params
    then Returns [invokeBanRepeatNgram batchSize beamWidth maxSeqLen vocabSizePadded]
    else Undefined
  else Returns [].

(** [BanWordsLayer<T>::banBadWords]: the kernel runs only when
    [inputs->max_bad_words_len] is not zero; [inputs->bad_words_ptr],
    [inputs->bad_words_lengths] and [outputs->sequence_length] are
    dereferenced; the parent ids are passed for a beam width above 1 only. *)
Definition banBadWords (params : BanWordsParams)
    (batchSize beamWidth maxSeqLen vocabSizePadded : SizeType32)
  : Outcome (list BanKernelLaunch) :=
  let maxBadWordsLength := max_bad_words_len params in
  if negb (maxBadWordsLength =? 0) then
    if bad_words_present params && sequence_length_present params
    then Returns [invokeBanBadWords (1 <? beamWidth) batchSize beamWidth
                    maxBadWordsLength vocabSizePadded maxSeqLen]
    else Undefined
  else Returns [].

(** The block of [forward] that reads [batchSize], [beamWidth] and
    [vocabSize] off the shape of the logits. *)
Definition forward_sizes (params : BanWordsParams)
  : Outcome (SizeType32 * SizeType32 * SizeType32) :=
  let sizesOf (batchSize : Z) (logitsShape : list Z) :=
    let idxOffset := (length logitsShape - 3)%nat in
    match logitsShape !! (idxOffset + 1)%nat, logitsShape !! (idxOffset + 2)%nat with
    | Some beamWidth, Some vocabSize =>
        Returns (to_SizeType32 batchSize, to_SizeType32 beamWidth,
                 to_SizeType32 vocabSize)
    | _, _ => Undefined
    end in
  let rankOk (logitsShape : list Z) :=
    (length logitsShape =? 3)%nat || (length logitsShape =? 4)%nat in
  match inputs_logits params with
  | Some logitsShape =>
      if rankOk logitsShape then
        match logitsShape !! 0%nat with
        | Some batchSize => sizesOf batchSize logitsShape
        | None => Undefined
        end
      else Throws (tllm_exception "Assertion failed")
  | None =>
      match inputs_logits_vec params with
      | Some logits_vec =>
          if (0 <? length logits_vec)%nat then
            match logits_vec !! 0%nat with
            | Some logitsShape =>
                if rankOk logitsShape
                then sizesOf (Z.of_nat (length logits_vec)) logitsShape
                else Throws (tllm_exception "Assertion failed")
            | None => Undefined
            end
          else Throws (tllm_exception "Assertion failed")
      | None => Undefined
      end
  end.

(** [BanWordsLayer<T>::forward]: the kernel launches of a call that returns,
    in order.  [maxSeqLen] is the last extent of [outputs->output_ids]; both
    ban functions are handed [inputs->logits.value()]. *)
Definition BanWordsLayer_forward (params : BanWordsParams)
  : Outcome (list BanKernelLaunch) :=
  match last (output_ids_shape params) with
  | None => Undefined
  | Some maxSeqLen =>
      match forward_sizes params with
      | Returns (batchSize, beamWidth, vocabSize) =>
          match inputs_logits params with
          | None => Throws bad_optional_access
          | Some _ =>
              match banRepeatNGrams params batchSize beamWidth
                      (to_SizeType32 maxSeqLen) vocabSize with
              | Returns launched =>
                  match banBadWords params batchSize beamWidth
                          (to_SizeType32 maxSeqLen) vocabSize with
                  | Returns launched' => Returns (launched ++ launched')
                  | Throws e => Throws e
                  | Undefined => Undefined
                  end
              | Throws e => Throws e
              | Undefined => Undefined
              end
          end
      | Throws e => Throws e
      | Undefined => Undefined
      end
  end.

(** ** gptJsonConfig.cpp: [buildLayerTypes] *)

(** [ModelConfig::LayerType], of [modelConfig.h]: the two enumerators
    [buildLayerTypes] assigns. *)
Inductive LayerType : Type :=
| kATTENTION
| kRECURRENT.

(** [buildLayerTypes]: [result] starts as [numLayers] attention layers; when
    the list of names is not empty, layer [i] is assigned from the name at
    [i % groupSize], and a name that is neither ["attention"] nor
    ["recurrent"] is logged and assigns nothing.  [numLayers] is a [size_t]. *)
Definition buildLayerTypes (numLayers : nat) (layerStringTypes : list string)
  : list LayerType :=
  let result := repeat kATTENTION numLayers in
  if (length layerStringTypes =? 0)%nat then result
  else
    let groupSize := length layerStringTypes in
    fold_left
      (fun result i =>
         match layerStringTypes !! (i mod groupSize)%nat with
         | Some name =>
             if String.eqb name "attention" then <[i := kATTENTION]> result
             else if String.eqb name "recurrent" then <[i := kRECURRENT]> result
             else result
         | None => result
         end)
      (seq 0 numLayers) result.

(** ** worldConfig.cpp *)

Definition bindO {A B : Type} (o : Outcome A) (k : A -> Outcome B) : Outcome B :=
  match o with
  | Returns a => k a
  | Throws e => Throws e
  | Undefined => Undefined
  end.

#[global] Instance Outcome_ret : MRet Outcome := fun _ a => Returns a.
#[global] Instance Outcome_bind : MBind Outcome := fun _ _ k o => bindO o k.

(** [TLLM_CHECK] and [TLLM_CHECK_WITH_INFO] where other exceptions can occur
    as well. *)
Definition check (cond : bool) (info : string) : Outcome unit :=
  if cond then Returns tt else Throws (tllm_exception info).

Record WorldConfig : Type := mkWorldConfig {
  mTensorParallelism : SizeType32;
  mPipelineParallelism : SizeType32;
  mRank : SizeType32;
  mGpusPerNode : SizeType32;
  mDeviceIds : list SizeType32
}.

(** [*std::max_element(first, last)] and [*std::min_element(first, last)] of
    a range; dereferencing the result for an empty range has no defined
    behaviour. *)
Definition max_element (l : list Z) : Outcome Z :=
  match l with
  | [] => Undefined
  | x :: rest => Returns (fold_left Z.max rest x)
  end.

Definition min_element (l : list Z) : Outcome Z :=
  match l with
  | [] => Undefined
  | x :: rest => Returns (fold_left Z.min rest x)
  end.

(** [WorldConfig::WorldConfig].  [ENABLE_MULTI_DEVICE] is the build flag.
    The member initialiser evaluates [std::vector<SizeType32>(mGpusPerNode)]
    whether or not [deviceIds] holds a value; a negative count converts to a
    [size_t] beyond [max_size()].  The size of the [std::set] of the ids is
    the number of distinct ids. *)
Definition WorldConfig_new (ENABLE_MULTI_DEVICE : bool)
    (tensorParallelism pipelineParallelism rank gpusPerNode : SizeType32)
    (deviceIds : option (list SizeType32)) : Outcome WorldConfig :=
  if gpusPerNode <? 0 then Throws length_error
  else
    let mDeviceIds := default (repeat 0 (Z.to_nat gpusPerNode)) deviceIds in
    if ENABLE_MULTI_DEVICE then
      let numDevices := Z.of_nat (length mDeviceIds) in
      _ ← check (0 <? numDevices) "Assertion failed";
      mDeviceIds ←
        match deviceIds with
        | None => Returns (zrange gpusPerNode)
        | Some _ =>
            _ ← check (to_SizeType32 numDevices <=? gpusPerNode)
                  "Number of device IDs %zu is greater than GPUs per node %d";
            maxId ← max_element mDeviceIds;
            _ ← check (maxId <? gpusPerNode) "Assertion failed";
            minId ← min_element mDeviceIds;
            _ ← check (0 <=? minId) "Assertion failed";
            let deviceIdSet := nodup Z.eq_dec mDeviceIds in
            _ ← check (Z.of_nat (length deviceIdSet) =? numDevices)
                  "Device IDs are not unique %zu != %zu";
            Returns mDeviceIds
        end;
      _ ← check (0 <? tensorParallelism) "Assertion failed";
      _ ← check (0 <? pipelineParallelism) "Assertion failed";
      Returns (mkWorldConfig tensorParallelism pipelineParallelism rank gpusPerNode
                 mDeviceIds)
    else
      Returns (mkWorldConfig 1 1 0 1 mDeviceIds).

(** The result of an arithmetic operation on two [int]s: a result that is
    not representable in [int] has no defined behaviour. *)
Definition int_result (z : Z) : Outcome Z :=
  if (- 2 ^ 31 <=? z) && (z <? 2 ^ 31) then Returns z else Undefined.

(** [WorldConfig::mpi] in a build with [ENABLE_MULTI_DEVICE]; [mpiSize] and
    [mpiRank] are the size and rank of [COMM_SESSION], [localSize] the size
    of [LOCAL_COMM_SESSION], all of type [int].  The argument [mpiSize / pp]
    of [value_or] is evaluated whether or not [tensorParallelism] holds a
    value; an integer division by zero has no defined behaviour, and the
    quotient of two [int]s is truncated.  The product [tp * pp] is a product
    of two [int]s. *)
Definition WorldConfig_mpi (mpiSize mpiRank localSize : Z) (gpusPerNode : SizeType32)
    (tensorParallelism pipelineParallelism : option SizeType32)
    (deviceIds : option (list SizeType32)) : Outcome WorldConfig :=
  let pp := default 1 pipelineParallelism in
  quotient ← (if pp =? 0 then Undefined else int_result (Z.quot mpiSize pp));
  let tp := default quotient tensorParallelism in
  product ← int_result (tp * pp);
  _ ← check (mpiSize =? product) "Assertion failed";
  _ ← check ((mpiSize <=? gpusPerNode) || (localSize =? gpusPerNode))
        "Assertion failed";
  WorldConfig_new true tp pp mpiRank gpusPerNode deviceIds.

(** ** tllmRuntime.cpp: [shapeToDims] and [dimsToShape] *)

(** [nvinfer1::Dims] of TensorRT: [int32_t nbDims] and an array
    [int64_t d[MAX_DIMS]]. *)
Record Dims : Type := mkDims {
  nbDims : Z;
  d : list Z
}.

(** [std::numeric_limits<ITensor::DimType64>::max()] *)
Definition dim_max : Z := 2 ^ 63 - 1.

(** The loop of [shapeToDims]: [dims.d[i] = shape[i]] after the check of the
    upper bound; [rest] are the extents from index [i] on. *)
Fixpoint shapeToDims_loop (rest : list Z) (i : nat) (dims_d : list Z)
  : Outcome (list Z) :=
  match rest with
  | [] => Returns dims_d
  | extent :: rest' =>
      _ ← check (extent <=? dim_max) "Assertion failed";
      shapeToDims_loop rest' (S i) (<[i := extent]> dims_d)
  end.

(** [shapeToDims].  [MAX_DIMS] is [nvinfer1::Dims::MAX_DIMS]; [dims] is
    declared without an initialiser, [uninitialised] stands for what its
    array holds before the loop. *)
Definition shapeToDims (MAX_DIMS : nat) (uninitialised : list Z) (shape : list Z)
  : Outcome Dims :=
  _ ← check (length shape <=? MAX_DIMS)%nat "Assertion failed";
  dims_d ← shapeToDims_loop shape 0 uninitialised;
  Returns (mkDims (Z.of_nat (length shape)) dims_d).

(** The loop of [dimsToShape], [n] iterations from index [i]; reading
    [dims.d] past its end has no defined behaviour. *)
Fixpoint dimsToShape_loop (dims_d : list Z) (n i : nat) (shape : list Z)
  : Outcome (list Z) :=
  match n with
  | O => Returns shape
  | S n' =>
      match dims_d !! i with
      | Some extent =>
          _ ← check (0 <=? extent) "Assertion failed";
          dimsToShape_loop dims_d n' (S i) (<[i := extent]> shape)
      | None => Undefined
      end
  end.

(** [dimsToShape]: the vector is created with [dims.nbDims] zeros. *)
Definition dimsToShape (dims : Dims) : Outcome (list Z) :=
  _ ← check (0 <=? nbDims dims) "Assertion failed";
  dimsToShape_loop (d dims) (Z.to_nat (nbDims dims)) 0
    (repeat 0 (Z.to_nat (nbDims dims))).

(** ** cubinObj.cpp: [CubinObj::getSerializationSize] *)

(** [size_t result = sizeof(uint32_t) + mContent.size();
    result = (result + 3) & ~3;] in 64-bit unsigned arithmetic.  [~3] is the
    [int] -4, converted to [size_t] for the conjunction. *)
Definition CubinObj_getSerializationSize (mContent_size : Z) : Z :=
  let result := (4 + mContent_size) mod 2 ^ 64 in
  Z.land ((result + 3) mod 2 ^ 64) (Z.lnot 3 mod 2 ^ 64).

(** ** gemmPlugin.cpp: [GemmPlugin::getOutputDimensions] *)

(** [nvinfer1::DimsExprs] of TensorRT: [int32_t nbDims] and an array
    [IDimensionExpr const* d[MAX_DIMS]]; [E] is the type of the array's
    entries. *)
Record DimsExprs (E : Type) : Type := mkDimsExprs {
  exprs_nbDims : Z;
  exprs_d : list E
}.
Arguments mkDimsExprs {E} exprs_nbDims exprs_d.
Arguments exprs_nbDims {E} _.
Arguments exprs_d {E} _.

(** [arr[i] = x]; an assignment past the array has no defined behaviour. *)
Definition assign {E : Type} (arr : list E) (i : Z) (x : E) : Outcome (list E) :=
  if (0 <=? i) && (i <? Z.of_nat (length arr))
  then Returns (<[Z.to_nat i := x]> arr)
  else Undefined.

(** [for (int j = i; j < i + count; ++j) ret.d[offset + j] = input.d[j];] *)
Fixpoint copyExtents {E : Type} (input : list E) (i : Z) (count : nat) (offset : Z)
    (ret_d : list E) : Outcome (list E) :=
  match count with
  | O => Returns ret_d
  | S count' =>
      match load input i with
      | Some x =>
          ret_d' ← assign ret_d (offset + i) x;
          copyExtents input (i + 1) count' offset ret_d'
      | None => Undefined
      end
  end.

(** [GemmPlugin::getOutputDimensions].  A failed check is caught inside the
    function, which then returns [DimsExprs{}]: no dimension and an array of
    null pointers ([null]).  [ret] is declared without an initialiser,
    [uninitialised] stands for what its array holds before the loops. *)
Definition getOutputDimensions {E : Type} (null : E) (mTransA mTransB : bool)
    (outputIndex : Z) (inputs : list (DimsExprs E)) (nbInputs : Z)
    (uninitialised : list E) : Outcome (DimsExprs E) :=
  let caught := Returns (mkDimsExprs 0 (repeat null (length uninitialised))) in
  if negb (nbInputs =? 2) then caught
  else if negb (outputIndex =? 0) then caught
  else
    match inputs !! 0%nat, inputs !! 1%nat with
    | Some inputA, Some inputB =>
        let nbDimsA := exprs_nbDims inputA in
        let nbDimsB := exprs_nbDims inputB in
        ret_d ←
          (if mTransA
           then copyExtents (exprs_d inputA) 1 (Z.to_nat (nbDimsA - 1)) (-1)
                  uninitialised
           else copyExtents (exprs_d inputA) 0 (Z.to_nat (nbDimsA - 1)) 0
                  uninitialised);
        ret_d ←
          (if mTransB
           then copyExtents (exprs_d inputB) 0 (Z.to_nat (nbDimsB - 1))
                  (nbDimsA - 1) ret_d
           else copyExtents (exprs_d inputB) 1 (Z.to_nat (nbDimsB - 1))
                  (nbDimsA - 2) ret_d);
        Returns (mkDimsExprs (nbDimsA + nbDimsB - 2) ret_d)
    | _, _ => Undefined
    end.

(** ** dynamicDecodeLayerTest.cpp: [initXWordsTensors] *)

(** The loop over the tokens of one word:
    [wordsData[start + si] = inputWords[bi][wi][si]]. *)
Fixpoint writeWord (wordsData : list Z) (start : Z) (word : list TokenIdType)
  : Outcome (list Z) :=
  match word with
  | [] => Returns wordsData
  | token :: rest =>
      wordsData' ← assign wordsData start token;
      writeWord wordsData' (start + 1) rest
  end.

(** The loop over the words of one batch entry; [wi] and [totalLen] are its
    variables, [words] the words from index [wi] on.  The tokens go to the
    first row of the slot, the running total to the second row, unless the
    total is still 0. *)
Fixpoint writeWords (wordsData : list Z) (batchSlot maxWordsLen wi totalLen : Z)
    (words : list (list TokenIdType)) : Outcome (list Z) :=
  match words with
  | [] => Returns wordsData
  | word :: rest =>
      wordsData1 ← writeWord wordsData
                     (batchSlot * 2 * maxWordsLen + 0 * maxWordsLen + totalLen) word;
      let totalLen' := totalLen + Z.of_nat (length word) in
      wordsData2 ← (if 0 <? totalLen'
                    then assign wordsData1
                           (batchSlot * 2 * maxWordsLen + 1 * maxWordsLen + wi) totalLen'
                    else Returns wordsData1);
      writeWords wordsData2 batchSlot maxWordsLen (wi + 1) totalLen' rest
  end.

(** The first loop over the batch entries, from entry [bi] on. *)
Fixpoint initXWordsTensors_words (batchSlotsPtr wordsData : list Z)
    (maxWordsLen bi : Z) (inputWords : list (list (list TokenIdType)))
  : Outcome (list Z) :=
  match inputWords with
  | [] => Returns wordsData
  | words :: rest =>
      match load batchSlotsPtr bi with
      | Some batchSlot =>
          wordsData' ← writeWords wordsData batchSlot maxWordsLen 0 0 words;
          initXWordsTensors_words batchSlotsPtr wordsData' maxWordsLen (bi + 1) rest
      | None => Undefined
      end
  end.

(** The second loop over the batch entries: the row pointer of the slot, as
    an offset into [wordsData], and the row length. *)
Fixpoint initXWordsTensors_ptrs (batchSlotsPtr wordsPtr wordsLenData : list Z)
    (maxWordsLen bi : Z) (count : nat) : Outcome (list Z * list Z) :=
  match count with
  | O => Returns (wordsPtr, wordsLenData)
  | S count' =>
      match load batchSlotsPtr bi with
      | Some batchSlot =>
          wordsPtr' ← assign wordsPtr batchSlot (batchSlot * 2 * maxWordsLen);
          wordsLenData' ← assign wordsLenData batchSlot maxWordsLen;
          initXWordsTensors_ptrs batchSlotsPtr wordsPtr' wordsLenData' maxWordsLen
            (bi + 1) count'
      | None => Undefined
      end
  end.

(** [initXWordsTensors]: [wordsData] has [mMaxBatchSize * 2 * maxWordsLen]
    entries and is filled with -1 first; [wordsPtr] and [wordsLenData] come
    as they are.  The result is the three buffers. *)
Definition initXWordsTensors (mMaxBatchSize : SizeType32)
    (batchSlotsPtr wordsPtr wordsLenData : list Z) (maxWordsLen : SizeType32)
    (inputWords : list (list (list TokenIdType)))
  : Outcome (list Z * list Z * list Z) :=
  let wordsData := repeat (-1) (Z.to_nat (mMaxBatchSize * 2 * maxWordsLen)) in
  wordsData' ← initXWordsTensors_words batchSlotsPtr wordsData maxWordsLen 0 inputWords;
  ptrs ← initXWordsTensors_ptrs batchSlotsPtr wordsPtr wordsLenData maxWordsLen 0
           (length inputWords);
  Returns (wordsData', fst ptrs, snd ptrs).

(** The number of tokens of the first [n] words. *)
Definition tokensUpTo (words : list (list TokenIdType)) (n : nat) : Z :=
  Z.of_nat (length (concat (take n words))).

(** The two rows of a slot of the words table hold the words [words]: the
    first row their tokens end to end, the second row at position [wi] the
    number of tokens of the words up to and including word [wi] when that
    number is positive; every other position of the two rows holds -1. *)
Definition wordsRows (wordsData : list Z) (batchSlot maxWordsLen : Z)
    (words : list (list TokenIdType)) : Prop :=
  let base := batchSlot * 2 * maxWordsLen in
  (forall k, (k < Z.to_nat maxWordsLen)%nat ->
     load wordsData (base + Z.of_nat k) = Some (nth k (concat words) (-1)))
  /\ (forall wi, (wi < Z.to_nat maxWordsLen)%nat ->
        load wordsData (base + maxWordsLen + Z.of_nat wi)
        = Some (if (wi <? length words)%nat && (0 <? tokensUpTo words (S wi))
                then tokensUpTo words (S wi) else -1)).

(** ** samplingConfig.h: [operator==] *)

(** [operator==] of [std::vector]: equal sizes and pairwise equal elements. *)
Definition vector_eqb {T : Type} (eqb : T -> T -> bool) (a b : list T) : bool :=
  Nat.eqb (length a) (length b)
  && forallb (fun p => eqb (fst p) (snd p)) (combine a b).

(** [operator==] of [std::optional]: both empty, or both set to equal
    values. *)
Definition optional_eqb {T : Type} (eqb : T -> T -> bool) (a b : option T) : bool :=
  match a, b with
  | Some x, Some y => eqb x y
  | None, None => true
  | _, _ => false
  end.

(** [==] on [float]: the comparison of IEEE 754, under which a NaN equals
    nothing and the two zeros are equal. *)
Definition float_eqb (x y : FloatType) : bool := SFeqb x y.

(** [bool operator==(SamplingConfig const& other) const] *)
Definition SamplingConfig_eqb (c other : SamplingConfig) : bool :=
  (beamWidth c =? beamWidth other)
  && optional_eqb (vector_eqb float_eqb) (temperature c) (temperature other)
  && optional_eqb (vector_eqb Z.eqb) (minLength c) (minLength other)
  && optional_eqb (vector_eqb float_eqb) (repetitionPenalty c) (repetitionPenalty other)
  && optional_eqb (vector_eqb float_eqb) (presencePenalty c) (presencePenalty other)
  && optional_eqb (vector_eqb float_eqb) (frequencyPenalty c) (frequencyPenalty other)
  && optional_eqb (vector_eqb Z.eqb) (topK c) (topK other)
  && optional_eqb (vector_eqb float_eqb) (topP c) (topP other)
  && optional_eqb (vector_eqb Z.eqb) (randomSeed c) (randomSeed other)
  && optional_eqb (vector_eqb float_eqb) (topPDecay c) (topPDecay other)
  && optional_eqb (vector_eqb float_eqb) (topPMin c) (topPMin other)
  && optional_eqb (vector_eqb Z.eqb) (topPResetIds c) (topPResetIds other)
  && optional_eqb (vector_eqb float_eqb) (beamSearchDiversityRate c)
       (beamSearchDiversityRate other)
  && optional_eqb (vector_eqb float_eqb) (lengthPenalty c) (lengthPenalty other)
  && optional_eqb (vector_eqb Z.eqb) (earlyStopping c) (earlyStopping other)
  && optional_eqb (vector_eqb float_eqb) (draftAcceptanceThreshold c)
       (draftAcceptanceThreshold other)
  && optional_eqb (vector_eqb (vector_eqb Z.eqb)) (topKMedusaHeads c)
       (topKMedusaHeads other)
  && optional_eqb Bool.eqb (normalizeLogProbs c) (normalizeLogProbs other).

(** The [float] values a config holds. *)
Definition floatValues (c : SamplingConfig) : list FloatType :=
  concat (map (default [])
            [temperature c; repetitionPenalty c; presencePenalty c;
             frequencyPenalty c; topP c; topPDecay c; topPMin c;
             beamSearchDiversityRate c; lengthPenalty c;
             draftAcceptanceThreshold c]).

(** A request whose temperature is not a number. *)
Definition requestNaN : SamplingConfig :=
  {| beamWidth := 1;
     temperature := Some [S754_nan]; minLength := None; repetitionPenalty := None;
     presencePenalty := None; frequencyPenalty := None;
     topK := None; topP := None; randomSeed := None; topPDecay := None;
     topPMin := None; topPResetIds := None;
     beamSearchDiversityRate := None; lengthPenalty := None;
     earlyStopping := None; draftAcceptanceThreshold := None;
     topKMedusaHeads := None; normalizeLogProbs := None |}.







(** An exponential for arguments close to 0, in the arithmetic of a format:
    the polynomial [1 + x * (1 + x / 2)].  In binary32 at [0] and at
    [-2^-30], where [exp] is 1 and [1 - 2^-30 + 2^-61 - ...], it returns 1,
    the binary32 number nearest to both; so it does in binary16 at [0] and
    at [-2^-24]. *)
Definition expf_small (T : FloatFormat) (x : FloatType) : FloatType :=
  let one := binary_normalize (prec T) (emax T) 1 0 false in
  let half := binary_normalize (prec T) (emax T) 1 (-1) false in
  Tadd T one (Tmul T x (Tadd T one (Tmul T x half))).


(** The device ids of a world configuration are usable: there is at least
    one, they are pairwise distinct, and each names a GPU of the node. *)
Definition deviceIds_ok (gpusPerNode : SizeType32) (ids : list SizeType32) : Prop :=
  ids <> [] /\ List.NoDup ids /\ forall id, In id ids -> 0 <= id < gpusPerNode.

(** * Properties *)

(** ** Exceptions *)

Lemma bind_Ok {A B : Type} (a : A) (k : A -> Result B) :
  (Ok a ≫= k) = k a.
Proof. reflexivity. Qed.

Lemma bind_raises {A B : Type} (r : Result A) (k : A -> Result B) :
  raises r -> raises (r ≫= k).
Proof. intros [msg ->]. exists msg. reflexivity. Qed.

Lemma raises_not_Ok {A : Type} (r : Result A) (a : A) :
  raises r -> r <> Ok a.
Proof. intros [msg ->]. discriminate. Qed.

Lemma Result_cases {A : Type} (r : Result A) :
  (exists a, r = Ok a) \/ raises r.
Proof. destruct r as [a | msg]; [left | right]; eexists; reflexivity. Qed.

(** ** Decoding modes *)

Module DecodingModeFacts.
Import DecodingMode.

(** The [static_assert]s of decodingMode.h. *)
Lemma static_asserts :
  isNone None = true /\ isTopK None = false /\ isTopP None = false
  /\ isBeamSearch None = false /\ isMedusa None = false
  /\ isTopK TopK = true /\ isTopKorTopP TopK = true
  /\ isTopKandTopP TopK = false /\ isTopP TopK = false
  /\ isBeamSearch TopK = false /\ isMedusa TopK = false
  /\ isTopP TopP = true /\ isTopKorTopP TopP = true
  /\ isTopKandTopP TopP = false /\ isTopK TopP = false
  /\ isBeamSearch TopP = false /\ isMedusa TopP = false
  /\ isTopK TopKTopP = true /\ isTopP TopKTopP = true
  /\ isTopKorTopP TopKTopP = true /\ isTopKandTopP TopKTopP = true
  /\ isBeamSearch TopKTopP = false /\ isMedusa TopKTopP = false
  /\ isBeamSearch BeamSearch = true /\ isTopKorTopP BeamSearch = false
  /\ isMedusa BeamSearch = false
  /\ isTopK Medusa = false /\ isTopKorTopP Medusa = false
  /\ isTopKandTopP Medusa = false /\ isTopP Medusa = false
  /\ isBeamSearch Medusa = false /\ isMedusa Medusa = true.
Proof. repeat split; reflexivity. Qed.

(** Testing the two sampling bits together is testing one or the other. *)
Lemma isTopKorTopP_orb (m : t) : isTopKorTopP m = isTopK m || isTopP m.
Proof.
  unfold isTopKorTopP, isTopK, isTopP, anyBitSet, kTopKTopP.
  rewrite Z.land_lor_distr_r.
  destruct (Z.eqb_spec (Z.land (mState m) kTopK) 0) as [Hk | Hk];
    destruct (Z.eqb_spec (Z.land (mState m) kTopP) 0) as [Hp | Hp];
    destruct (Z.eqb_spec (Z.lor (Z.land (mState m) kTopK) (Z.land (mState m) kTopP)) 0)
      as [Hl | Hl]; try reflexivity; exfalso.
  - apply Hl. rewrite Hk, Hp. reflexivity.
  - apply Z.lor_eq_0_iff in Hl. tauto.
  - apply Z.lor_eq_0_iff in Hl. tauto.
  - apply Z.lor_eq_0_iff in Hl. tauto.
Qed.

Lemma constructible_wf (m : t) : constructible m -> wf m.
Proof.
  unfold constructible, wf.
  intros [-> | [-> | [-> | [-> | [-> | ->]]]]];
    vm_compute; (split; [discriminate | reflexivity]).
Qed.

(** No bit set means no family is selected. *)
Lemma isNone_no_family (m : t) :
  isNone m = true ->
  isTopKorTopP m = false /\ isBeamSearch m = false /\ isMedusa m = false.
Proof.
  unfold isNone. intros H. apply Z.eqb_eq in H.
  unfold isTopKorTopP, isBeamSearch, isMedusa, anyBitSet.
  rewrite H. repeat split; reflexivity.
Qed.

End DecodingModeFacts.

(** ** The stage factory *)

Lemma createDecodingLayerTypes_cases (mode : DecodingMode.t) :
  (DecodingMode.isTopKorTopP mode || DecodingMode.isBeamSearch mode = true
   /\ createDecodingLayerTypes mode = Ok samplingOrBeamStages)
  \/ (DecodingMode.isTopKorTopP mode || DecodingMode.isBeamSearch mode = false
      /\ DecodingMode.isMedusa mode = true
      /\ createDecodingLayerTypes mode = Ok speculativeStages)
  \/ (DecodingMode.isTopKorTopP mode || DecodingMode.isBeamSearch mode = false
      /\ DecodingMode.isMedusa mode = false
      /\ raises (createDecodingLayerTypes mode)).
Proof.
  unfold createDecodingLayerTypes.
  destruct (DecodingMode.isTopKorTopP mode || DecodingMode.isBeamSearch mode) eqn:Hsb.
  - left. split; reflexivity.
  - destruct (DecodingMode.isMedusa mode) eqn:Hm.
    + right; left. repeat split; reflexivity.
    + right; right. repeat split. eexists. reflexivity.
Qed.

Lemma createLayers_raises (mode : DecodingMode.t) :
  raises (createDecodingLayerTypes mode) -> raises (createLayers mode).
Proof. intros H. unfold createLayers. apply bind_raises, H. Qed.

Lemma createLayers_kinds (mode : DecodingMode.t) (types : list DecodingLayers_t) :
  createDecodingLayerTypes mode = Ok types ->
  exists layers, createLayers mode = Ok layers /\ map layerKind layers = types.
Proof.
  intros H.
  destruct (createDecodingLayerTypes_cases mode) as [[_ E] | [[_ [_ E]] | [_ [_ E]]]].
  - rewrite E in H. injection H as <-. unfold createLayers. rewrite E.
    eexists. split; reflexivity.
  - rewrite E in H. injection H as <-. unfold createLayers. rewrite E.
    eexists. split; reflexivity.
  - exfalso. eapply raises_not_Ok; eauto.
Qed.

(** C2. The stage-list factory: whatever list [createDecodingLayerTypes]
    returns starts with the penalty layer; a top-k, top-p or beam-search mode
    gets exactly Penalty, BanWords, Decoding, StopCriteria; the Medusa mode
    (more generally, a mode with the Medusa bit and none of the others) gets
    exactly Penalty, Decoding, StopCriteria; any other mode, [None] included,
    raises, so that [createLayers] builds no layer at all. *)
Theorem C2_createDecodingLayerTypes (mode : DecodingMode.t) :
  (forall types, createDecodingLayerTypes mode = Ok types ->
                 head types = Some PENALTY_LAYER)
  /\ (DecodingMode.isTopK mode = true \/ DecodingMode.isTopP mode = true
      \/ DecodingMode.isBeamSearch mode = true ->
      createDecodingLayerTypes mode
      = Ok [PENALTY_LAYER; BAN_WORDS_LAYER; DECODING_LAYER; STOP_CRITERIA_LAYER])
  /\ (DecodingMode.isTopK mode = false -> DecodingMode.isTopP mode = false ->
      DecodingMode.isBeamSearch mode = false -> DecodingMode.isMedusa mode = true ->
      createDecodingLayerTypes mode
      = Ok [PENALTY_LAYER; DECODING_LAYER; STOP_CRITERIA_LAYER])
  /\ createDecodingLayerTypes DecodingMode.Medusa
     = Ok [PENALTY_LAYER; DECODING_LAYER; STOP_CRITERIA_LAYER]
  /\ (DecodingMode.isTopK mode = false -> DecodingMode.isTopP mode = false ->
      DecodingMode.isBeamSearch mode = false -> DecodingMode.isMedusa mode = false ->
      raises (createDecodingLayerTypes mode) /\ raises (createLayers mode))
  /\ (raises (createDecodingLayerTypes DecodingMode.None)
      /\ raises (createLayers DecodingMode.None))
  /\ (DecodingMode.constructible mode ->
      (mode <> DecodingMode.None /\ mode <> DecodingMode.Medusa
       /\ createDecodingLayerTypes mode = Ok samplingOrBeamStages)
      \/ (mode = DecodingMode.Medusa
          /\ createDecodingLayerTypes mode = Ok speculativeStages)
      \/ (mode = DecodingMode.None /\ raises (createDecodingLayerTypes mode))).
Proof.
  pose proof (DecodingModeFacts.isTopKorTopP_orb mode) as Hor.
  assert (Hnone : raises (createDecodingLayerTypes DecodingMode.None)
                  /\ raises (createLayers DecodingMode.None))
    by (split; eexists; reflexivity).
  assert (Hcons : DecodingMode.constructible mode ->
      (mode <> DecodingMode.None /\ mode <> DecodingMode.Medusa
       /\ createDecodingLayerTypes mode = Ok samplingOrBeamStages)
      \/ (mode = DecodingMode.Medusa
          /\ createDecodingLayerTypes mode = Ok speculativeStages)
      \/ (mode = DecodingMode.None /\ raises (createDecodingLayerTypes mode))).
  { intros [-> | [-> | [-> | [-> | [-> | ->]]]]].
    - right; right. split; [reflexivity | eexists; reflexivity].
    - left. repeat split; discriminate || reflexivity.
    - left. repeat split; discriminate || reflexivity.
    - left. repeat split; discriminate || reflexivity.
    - left. repeat split; discriminate || reflexivity.
    - right; left. split; reflexivity. }
  destruct (createDecodingLayerTypes_cases mode)
    as [[Hsb E] | [[Hsb [Hm E]] | [Hsb [Hm E]]]];
    refine (conj _ (conj _ (conj _ (conj eq_refl (conj _ (conj Hnone Hcons)))))).
  - intros types H. rewrite E in H. injection H as <-. reflexivity.
  - intros _. exact E.
  - intros Hk Hp Hb _. rewrite Hor, Hk, Hp, Hb in Hsb. discriminate.
  - intros Hk Hp Hb _. rewrite Hor, Hk, Hp, Hb in Hsb. discriminate.
  - intros types H. rewrite E in H. injection H as <-. reflexivity.
  - intros H. rewrite Hor in Hsb.
    destruct H as [H | [H | H]]; rewrite H in Hsb;
      destruct (DecodingMode.isTopK mode), (DecodingMode.isTopP mode);
      discriminate.
  - intros _ _ _ _. exact E.
  - intros _ _ _ H. rewrite H in Hm. discriminate.
  - intros types H. exfalso. eapply raises_not_Ok; eauto.
  - intros H. rewrite Hor in Hsb.
    destruct H as [H | [H | H]]; rewrite H in Hsb;
      destruct (DecodingMode.isTopK mode), (DecodingMode.isTopP mode);
      discriminate.
  - intros _ _ _ H. rewrite H in Hm. discriminate.
  - intros _ _ _ _. split; [exact E | apply createLayers_raises, E].
Qed.

(** The six modes the named factories build, one by one. *)
Lemma createDecodingLayerTypes_constructible :
  createDecodingLayerTypes DecodingMode.TopK = Ok samplingOrBeamStages
  /\ createDecodingLayerTypes DecodingMode.TopP = Ok samplingOrBeamStages
  /\ createDecodingLayerTypes DecodingMode.TopKTopP = Ok samplingOrBeamStages
  /\ createDecodingLayerTypes DecodingMode.BeamSearch = Ok samplingOrBeamStages
  /\ createDecodingLayerTypes DecodingMode.Medusa = Ok speculativeStages
  /\ isOk (createDecodingLayerTypes DecodingMode.None) = false.
Proof. repeat split; reflexivity. Qed.

(** ** Fusion of sampling configs *)

Section Fusion.

Variable D : DefaultDecodingParams.t.

Lemma bind_Ok_inv {A B : Type} (r : Result A) (k : A -> Result B) (b : B) :
  (r ≫= k) = Ok b -> exists a, r = Ok a /\ k a = Ok b.
Proof. destruct r as [a | msg]; [eauto | discriminate]. Qed.

Lemma map_nth_seq {A B : Type} (g : A -> B) (l : list A) (d : A) :
  map (fun ci => g (nth ci l d)) (seq 0 (length l)) = map g l.
Proof.
  induction l as [| a l IH]; [reflexivity |].
  cbn [length seq map nth]. f_equal.
  rewrite <- seq_shift, List.map_map. exact IH.
Qed.

Lemma existsb_nth_seq {A : Type} (q : A -> bool) (l : list A) (d : A) :
  existsb (fun ci => q (nth ci l d)) (seq 0 (length l)) = existsb q l.
Proof.
  induction l as [| a l IH]; [reflexivity |].
  cbn [length seq existsb nth]. f_equal.
  rewrite <- seq_shift, <- IH. clear IH.
  generalize (seq 0 (length l)). intros cis.
  induction cis as [| ci cis IHc]; [reflexivity |].
  cbn [map existsb nth]. rewrite IHc. reflexivity.
Qed.

Lemma existsb_has_value_map {A T : Type} (g : A -> OptVec T) (l : list A) :
  existsb has_value (map g l) = existsb (fun c => has_value (g c)) l.
Proof. induction l as [| a l IH]; cbn; [reflexivity | rewrite IH; reflexivity]. Qed.

Lemma length_one_inv {T : Type} (v : list T) :
  length v = 1%nat -> exists x, v = [x].
Proof. destruct v as [| x [| y v]]; cbn; intros H; try discriminate. eauto. Qed.

Lemma length_check_cases {T : Type} (v : list T) :
  (exists x, v = [x]) \/ (Z.of_nat (length v) =? 1) = false.
Proof.
  destruct v as [| x [| y v]]; [right; reflexivity | left; eauto | right].
  apply Z.eqb_neq. cbn [length]. lia.
Qed.

(** The second loop, when every visited request holds a scalar or nothing. *)
Lemma fuseValues_collect_ok {T : Type} (accessor : nat -> OptVec T) (d : T)
    (cis : list nat) (values : list T) :
  (forall ci v, In ci cis -> accessor ci = Some v -> length v = 1%nat) ->
  fuseValues_collect accessor d cis values
  = Ok (values ++ map (fun ci => pick (accessor ci) d) cis).
Proof.
  revert values. induction cis as [| ci cis IH]; intros values Hwf.
  - cbn. rewrite app_nil_r. reflexivity.
  - cbn [fuseValues_collect map].
    assert (Hrest : forall cj v, In cj cis -> accessor cj = Some v -> length v = 1%nat)
      by (intros cj v Hin; apply Hwf; right; exact Hin).
    destruct (accessor ci) as [v |] eqn:Hacc.
    + destruct (length_one_inv v (Hwf ci v (or_introl eq_refl) Hacc)) as [x ->].
      cbn. rewrite (IH _ Hrest), <- app_assoc. reflexivity.
    + cbn. rewrite (IH _ Hrest), <- app_assoc. reflexivity.
Qed.

(** The second loop raises as soon as a visited request holds a vector that
    is not a single scalar. *)
Lemma fuseValues_collect_Ok_inv {T : Type} (accessor : nat -> OptVec T) (d : T)
    (cis : list nat) (values result : list T) :
  fuseValues_collect accessor d cis values = Ok result ->
  forall ci v, In ci cis -> accessor ci = Some v -> length v = 1%nat.
Proof.
  revert values. induction cis as [| ci cis IH]; intros values Hok cj v Hin Hacc.
  - destruct Hin.
  - cbn [fuseValues_collect] in Hok.
    destruct Hin as [<- | Hin].
    + rewrite Hacc in Hok.
      destruct (length_check_cases v) as [[x ->] | Hbad]; [reflexivity |].
      rewrite Hbad in Hok. discriminate.
    + destruct (accessor ci) as [w |].
      * destruct (length_check_cases w) as [[x ->] | Hbad].
        -- change (fuseValues_collect accessor d cis (values ++ [x]) = Ok result) in Hok.
           exact (IH _ Hok cj v Hin Hacc).
        -- rewrite Hbad in Hok. discriminate.
      * exact (IH _ Hok cj v Hin Hacc).
Qed.

Lemma fuseValues_ok {T : Type} (configs : list SamplingConfig)
    (g : SamplingConfig -> OptVec T) (d : T) (front : SamplingConfig) :
  (forall c v, In c configs -> g c = Some v -> length v = 1%nat) ->
  fuseValues configs (fun ci => g (nth ci configs front)) d
  = Ok (fusedField (map g configs) d).
Proof.
  intros Hwf. unfold fuseValues, fusedField.
  rewrite (existsb_nth_seq (fun c => has_value (g c))), existsb_has_value_map.
  destruct (existsb (fun c => has_value (g c)) configs); [| reflexivity].
  rewrite fuseValues_collect_ok.
  - cbn. rewrite (map_nth_seq (fun c => pick (g c) d)), List.map_map. reflexivity.
  - intros ci v Hin Hacc. apply in_seq in Hin.
    apply (Hwf (nth ci configs front)); [| exact Hacc].
    apply nth_In. lia.
Qed.

Lemma fuseValues_Ok_inv {T : Type} (configs : list SamplingConfig)
    (g : SamplingConfig -> OptVec T) (d : T) (front : SamplingConfig)
    (result : OptVec T) :
  fuseValues configs (fun ci => g (nth ci configs front)) d = Ok result ->
  forall c v, In c configs -> g c = Some v -> length v = 1%nat.
Proof.
  unfold fuseValues. intros Hok c v Hin Hg.
  destruct (In_nth _ _ front Hin) as (ci & Hlt & Hnth).
  destruct (existsb _ (seq 0 (length configs))) eqn:Hany.
  - apply bind_Ok_inv in Hok as (values & Hcollect & _).
    eapply (fuseValues_collect_Ok_inv _ _ _ _ _ Hcollect ci).
    + apply in_seq. lia.
    + cbn. rewrite Hnth. exact Hg.
  - exfalso.
    assert (Hci : existsb (fun ci => has_value (g (nth ci configs front)))
                    (seq 0 (length configs)) = true).
    { apply existsb_exists. exists ci. split; [apply in_seq; lia |].
      rewrite Hnth, Hg. reflexivity. }
    rewrite Hci in Hany. discriminate.
Qed.

Lemma singleRequest_field (configs : list SamplingConfig) (f : Field) :
  List.Forall singleRequest configs ->
  forall c v, In c configs -> field_get f c = Some v -> length v = 1%nat.
Proof.
  intros Hall c v Hin Hf.
  rewrite List.Forall_forall in Hall. exact (Hall c Hin f v Hf).
Qed.

(** The constructor computes the fused config of the contract whenever the
    list is not empty and every request carries scalars. *)
Lemma SamplingConfig_fuse_ok (configs : list SamplingConfig) :
  configs <> [] ->
  List.Forall singleRequest configs ->
  SamplingConfig_fuse D configs = Ok (fusedConfig D configs).
Proof.
  intros Hne Hall. unfold SamplingConfig_fuse.
  assert (Hlen : (0 <? Z.of_nat (length configs)) = true).
  { destruct configs; [congruence | cbn [length]; apply Z.ltb_lt; lia]. }
  rewrite Hlen. cbn [TLLM_CHECK]. rewrite bind_Ok.
  rewrite (fuseValues_ok configs temperature _ _ (singleRequest_field _ F_temperature Hall)), bind_Ok.
  rewrite (fuseValues_ok configs minLength _ _ (singleRequest_field _ F_minLength Hall)), bind_Ok.
  rewrite (fuseValues_ok configs repetitionPenalty _ _ (singleRequest_field _ F_repetitionPenalty Hall)), bind_Ok.
  rewrite (fuseValues_ok configs presencePenalty _ _ (singleRequest_field _ F_presencePenalty Hall)), bind_Ok.
  rewrite (fuseValues_ok configs frequencyPenalty _ _ (singleRequest_field _ F_frequencyPenalty Hall)), bind_Ok.
  rewrite (fuseValues_ok configs topK _ _ (singleRequest_field _ F_topK Hall)), bind_Ok.
  rewrite (fuseValues_ok configs topP _ _ (singleRequest_field _ F_topP Hall)), bind_Ok.
  rewrite (fuseValues_ok configs randomSeed _ _ (singleRequest_field _ F_randomSeed Hall)), bind_Ok.
  rewrite (fuseValues_ok configs topPDecay _ _ (singleRequest_field _ F_topPDecay Hall)), bind_Ok.
  rewrite (fuseValues_ok configs topPMin _ _ (singleRequest_field _ F_topPMin Hall)), bind_Ok.
  rewrite (fuseValues_ok configs topPResetIds _ _ (singleRequest_field _ F_topPResetIds Hall)), bind_Ok.
  rewrite (fuseValues_ok configs beamSearchDiversityRate _ _ (singleRequest_field _ F_beamSearchDiversityRate Hall)), bind_Ok.
  rewrite (fuseValues_ok configs lengthPenalty _ _ (singleRequest_field _ F_lengthPenalty Hall)), bind_Ok.
  rewrite (fuseValues_ok configs earlyStopping _ _ (singleRequest_field _ F_earlyStopping Hall)), bind_Ok.
  rewrite (fuseValues_ok configs topKMedusaHeads _ _ (singleRequest_field _ F_topKMedusaHeads Hall)), bind_Ok.
  rewrite (fuseValues_ok configs draftAcceptanceThreshold _ _ (singleRequest_field _ F_draftAcceptanceThreshold Hall)), bind_Ok.
  reflexivity.
Qed.

(** Conversely the constructor returns only for such a list. *)
Lemma SamplingConfig_fuse_Ok_inv (configs : list SamplingConfig) (fused : SamplingConfig) :
  SamplingConfig_fuse D configs = Ok fused ->
  configs <> [] /\ List.Forall singleRequest configs.
Proof.
  unfold SamplingConfig_fuse. intros Hok.
  apply bind_Ok_inv in Hok as ([] & Hcheck & Hok).
  split.
  { intros ->. discriminate Hcheck. }
  apply bind_Ok_inv in Hok as (? & E1 & Hok).
  apply bind_Ok_inv in Hok as (? & E2 & Hok).
  apply bind_Ok_inv in Hok as (? & E3 & Hok).
  apply bind_Ok_inv in Hok as (? & E4 & Hok).
  apply bind_Ok_inv in Hok as (? & E5 & Hok).
  apply bind_Ok_inv in Hok as (? & E6 & Hok).
  apply bind_Ok_inv in Hok as (? & E7 & Hok).
  apply bind_Ok_inv in Hok as (? & E8 & Hok).
  apply bind_Ok_inv in Hok as (? & E9 & Hok).
  apply bind_Ok_inv in Hok as (? & E10 & Hok).
  apply bind_Ok_inv in Hok as (? & E11 & Hok).
  apply bind_Ok_inv in Hok as (? & E12 & Hok).
  apply bind_Ok_inv in Hok as (? & E13 & Hok).
  apply bind_Ok_inv in Hok as (? & E14 & Hok).
  apply bind_Ok_inv in Hok as (? & E15 & Hok).
  apply bind_Ok_inv in Hok as (? & E16 & Hok).
  apply List.Forall_forall. intros c Hin f v Hf.
  destruct f; cbn [field_get field_type] in Hf, v.
  - exact (fuseValues_Ok_inv _ _ _ _ _ E1 c v Hin Hf).
  - exact (fuseValues_Ok_inv _ _ _ _ _ E2 c v Hin Hf).
  - exact (fuseValues_Ok_inv _ _ _ _ _ E3 c v Hin Hf).
  - exact (fuseValues_Ok_inv _ _ _ _ _ E4 c v Hin Hf).
  - exact (fuseValues_Ok_inv _ _ _ _ _ E5 c v Hin Hf).
  - exact (fuseValues_Ok_inv _ _ _ _ _ E6 c v Hin Hf).
  - exact (fuseValues_Ok_inv _ _ _ _ _ E7 c v Hin Hf).
  - exact (fuseValues_Ok_inv _ _ _ _ _ E8 c v Hin Hf).
  - exact (fuseValues_Ok_inv _ _ _ _ _ E9 c v Hin Hf).
  - exact (fuseValues_Ok_inv _ _ _ _ _ E10 c v Hin Hf).
  - exact (fuseValues_Ok_inv _ _ _ _ _ E11 c v Hin Hf).
  - exact (fuseValues_Ok_inv _ _ _ _ _ E12 c v Hin Hf).
  - exact (fuseValues_Ok_inv _ _ _ _ _ E13 c v Hin Hf).
  - exact (fuseValues_Ok_inv _ _ _ _ _ E14 c v Hin Hf).
  - exact (fuseValues_Ok_inv _ _ _ _ _ E15 c v Hin Hf).
  - exact (fuseValues_Ok_inv _ _ _ _ _ E16 c v Hin Hf).
Qed.

Lemma field_get_fusedConfig (configs : list SamplingConfig) (f : Field) :
  field_get f (fusedConfig D configs)
  = fusedField (map (field_get f) configs) (field_default D f).
Proof. destruct f; reflexivity. Qed.

End Fusion.

Lemma lookup_map {A B : Type} (g : A -> B) (l : list A) (i : nat) :
  map g l !! i = option_map g (l !! i).
Proof.
  revert i. induction l as [| a l IH]; intros [| i]; cbn; try reflexivity.
  apply IH.
Qed.

Lemma lookup_In {A : Type} (l : list A) (i : nat) (a : A) :
  l !! i = Some a -> In a l.
Proof.
  revert i. induction l as [| b l IH]; intros [| i] H; cbn in H; try discriminate.
  - injection H as ->. left. reflexivity.
  - right. eapply IH, H.
Qed.

Lemma fusedField_absent {A T : Type} (g : A -> OptVec T) (l : list A) (d : T) :
  (forall c, In c l -> g c = None) -> fusedField (map g l) d = None.
Proof.
  intros Hnone. unfold fusedField.
  rewrite existsb_has_value_map.
  destruct (existsb (fun c => has_value (g c)) l) eqn:Hany; [| reflexivity].
  apply existsb_exists in Hany as (c & Hin & Hv).
  rewrite (Hnone c Hin) in Hv. discriminate.
Qed.

Lemma fusedField_present {A T : Type} (g : A -> OptVec T) (l : list A) (d : T) :
  (exists c, In c l /\ g c <> None) ->
  fusedField (map g l) d = Some (map (fun c => pick (g c) d) l).
Proof.
  intros (c & Hin & Hv). unfold fusedField.
  rewrite existsb_has_value_map.
  assert (Hany : existsb (fun c => has_value (g c)) l = true).
  { apply existsb_exists. exists c. split; [exact Hin |].
    destruct (g c); [reflexivity | congruence]. }
  rewrite Hany, List.map_map. reflexivity.
Qed.

Lemma fusedField_length {T : Type} (requests : list (OptVec T)) (d : T)
    (values : list T) :
  fusedField requests d = Some values -> length values = length requests.
Proof.
  unfold fusedField. destruct (existsb has_value requests); [| discriminate].
  intros H. injection H as <-. apply List.length_map.
Qed.

(** C1. The fusion contract of [SamplingConfig(configs)], for a non-empty
    list of N configs and any tunable field [f].  When every config carries
    scalars the constructor returns, and the fused field is absent if no
    request specifies [f]; if at least one does, it is a vector of length N
    holding at each position the request's scalar when the request specifies
    [f] and the default of [f] otherwise.  When some config holds, for some
    field, a vector whose length is not 1, the constructor raises. *)
Theorem C1_fusion_contract (D : DefaultDecodingParams.t)
    (configs : list SamplingConfig) (f : Field) :
  configs <> [] ->
  (List.Forall singleRequest configs ->
   exists fused,
     SamplingConfig_fuse D configs = Ok fused
     /\ ((forall c, In c configs -> field_get f c = None) ->
         field_get f fused = None)
     /\ ((exists c, In c configs /\ specifies f c) ->
         exists values,
           field_get f fused = Some values
           /\ length values = length configs
           /\ forall i c, configs !! i = Some c ->
                (forall x, field_get f c = Some [x] -> values !! i = Some x)
                /\ (field_get f c = None ->
                    values !! i = Some (field_default D f))))
  /\ ((exists c (f' : Field) (v : list (field_type f')),
         In c configs /\ field_get f' c = Some v /\ length v <> 1%nat) ->
      raises (SamplingConfig_fuse D configs)).
Proof.
  intros Hne. split.
  - intros Hall. exists (fusedConfig D configs).
    split; [apply SamplingConfig_fuse_ok; assumption |].
    rewrite field_get_fusedConfig. split.
    + apply fusedField_absent.
    + intros Hsome. rewrite (fusedField_present _ _ _ Hsome).
      eexists. split; [reflexivity |]. split; [apply List.length_map |].
      intros i c Hi. rewrite lookup_map, Hi. cbn [option_map]. split.
      * intros x Hx. rewrite Hx. reflexivity.
      * intros Hx. rewrite Hx. reflexivity.
  - intros (c & f' & v & Hin & Hf & Hlen).
    destruct (Result_cases (SamplingConfig_fuse D configs)) as [[fused Hok] | Hr];
      [| exact Hr].
    exfalso. apply SamplingConfig_fuse_Ok_inv in Hok as [_ Hall].
    apply Hlen. exact (singleRequest_field configs f' Hall c v Hin Hf).
Qed.

Lemma requests_singleRequest : List.Forall singleRequest [requestA; requestB].
Proof.
  repeat constructor; intros f v Hf; destruct f; cbn in Hf;
    try discriminate; injection Hf as <-; reflexivity.
Qed.

(** C1 on two requests, the first of which sets top-k: the fused top-k holds
    the scalar of the first and the default for the second. *)
Lemma C1_fusion_contract_witness :
  [requestA; requestB] <> []
  /\ exists fused,
       SamplingConfig_fuse exampleDefaults [requestA; requestB] = Ok fused
       /\ field_get F_topK fused = Some [5; 0].
Proof.
  split; [discriminate |].
  destruct (C1_fusion_contract exampleDefaults [requestA; requestB] F_topK
              ltac:(discriminate)) as [Hok _].
  destruct (Hok requests_singleRequest) as (fused & Hfuse & _ & Hpresent).
  exists fused. split; [exact Hfuse |].
  destruct Hpresent as (values & Hget & Hlen & Hat).
  { exists requestA. split; [left; reflexivity | discriminate]. }
  rewrite Hget. f_equal.
  destruct (Hat 0%nat requestA eq_refl) as [HA _].
  destruct (Hat 1%nat requestB eq_refl) as [_ HB].
  specialize (HA 5 eq_refl). specialize (HB eq_refl).
  destruct values as [| a [| b [| ? ?]]]; cbn in Hlen, HA, HB; try discriminate.
  injection HA as ->. injection HB as ->. reflexivity.
Defined.

(** C8. Fusion idempotence: fusing N >= 1 copies of a config in which every
    tunable field holds one scalar gives the broadcast of that config to
    batch size N: every field is the length-N vector repeating the scalar,
    and the beam width is the config's. *)
Theorem C8_fusion_idempotence (D : DefaultDecodingParams.t)
    (c : SamplingConfig) (n : nat) :
  fullySpecified c ->
  (1 <= n)%nat ->
  exists fused,
    SamplingConfig_fuse D (repeat c n) = Ok fused
    /\ beamWidth fused = beamWidth c
    /\ normalizeLogProbs fused = normalizeLogProbs c
    /\ (forall f, field_get f fused = broadcastField n (field_get f c))
    /\ (forall f x, field_get f c = Some [x] ->
                    field_get f fused = Some (repeat x n)).
Proof.
  intros Hfull Hn.
  assert (Hne : repeat c n <> []) by (destruct n; [lia | discriminate]).
  assert (Hall : List.Forall singleRequest (repeat c n)).
  { apply List.Forall_forall. intros c' Hin. apply repeat_spec in Hin. subst c'.
    intros f v Hf. destruct (Hfull f) as [x Hx]. rewrite Hx in Hf.
    injection Hf as <-. reflexivity. }
  assert (Hfield : forall f x, field_get f c = Some [x] ->
            field_get f (fusedConfig D (repeat c n)) = Some (repeat x n)).
  { intros f x Hx. rewrite field_get_fusedConfig, fusedField_present.
    - f_equal. clear Hne Hall Hn. induction n as [| n IH]; [reflexivity |].
      cbn [repeat map]. rewrite Hx at 1. cbn [pick]. f_equal. exact IH.
    - exists c. split; [destruct n; [lia | left; reflexivity] |].
      rewrite Hx. discriminate. }
  exists (fusedConfig D (repeat c n)).
  split; [apply SamplingConfig_fuse_ok; assumption |].
  split; [destruct n; [lia | reflexivity] |].
  split; [destruct n; [lia | reflexivity] |].
  split; [| exact Hfield].
  intros f. destruct (Hfull f) as [x Hx].
  rewrite (Hfield f x Hx), Hx. reflexivity.
Qed.

Lemma requestFull_fullySpecified : fullySpecified requestFull.
Proof. intros f. destruct f; eexists; reflexivity. Qed.

(** C8 on three copies of a fully specified request. *)
Lemma C8_fusion_idempotence_witness :
  exists fused,
    SamplingConfig_fuse exampleDefaults (repeat requestFull 3) = Ok fused
    /\ beamWidth fused = 2
    /\ topK fused = Some [5; 5; 5]
    /\ topKMedusaHeads fused = Some [[3; 1]; [3; 1]; [3; 1]].
Proof.
  destruct (C8_fusion_idempotence exampleDefaults requestFull 3
              requestFull_fullySpecified ltac:(lia))
    as (fused & Hok & Hbw & _ & _ & Hf).
  exists fused. split; [exact Hok |]. split; [exact Hbw |].
  split.
  - exact (Hf F_topK 5 eq_refl).
  - exact (Hf F_topKMedusaHeads [3; 1] eq_refl).
Defined.

(** C9. The fused-shape invariant: every field the constructor produces as
    present has exactly one entry per input config; for a batch of two or
    more it is never the length-1 broadcast form, whatever the values. *)
Theorem C9_fused_length (D : DefaultDecodingParams.t)
    (configs : list SamplingConfig) (fused : SamplingConfig)
    (f : Field) (values : list (field_type f)) :
  SamplingConfig_fuse D configs = Ok fused ->
  field_get f fused = Some values ->
  length values = length configs
  /\ ((2 <= length configs)%nat -> length values <> 1%nat).
Proof.
  intros Hok Hf.
  pose proof (SamplingConfig_fuse_Ok_inv D configs fused Hok) as [Hne Hall].
  rewrite (SamplingConfig_fuse_ok D configs Hne Hall) in Hok.
  injection Hok as <-.
  rewrite field_get_fusedConfig in Hf.
  apply fusedField_length in Hf. rewrite List.length_map in Hf.
  split; [exact Hf | lia].
Qed.

(** C9 on two requests with equal top-k: the fused vector still has two
    entries. *)
Lemma C9_fused_length_witness :
  SamplingConfig_fuse exampleDefaults [requestA; requestA]
  = Ok (fusedConfig exampleDefaults [requestA; requestA])
  /\ field_get F_topK (fusedConfig exampleDefaults [requestA; requestA]) = Some [5; 5]
  /\ length [5; 5] = length [requestA; requestA]
  /\ ((2 <= length [requestA; requestA])%nat -> length [5; 5] <> 1%nat).
Proof.
  split; [reflexivity |]. split; [reflexivity |].
  exact (C9_fused_length exampleDefaults [requestA; requestA]
           (fusedConfig exampleDefaults [requestA; requestA]) F_topK [5; 5]
           eq_refl eq_refl).
Defined.

Lemma sameTunables_map (f : Field) (cs cs' : list SamplingConfig) :
  List.Forall2 sameTunables cs cs' ->
  map (field_get f) cs = map (field_get f) cs'.
Proof.
  induction 1 as [| a b cs cs' Hab _ IH]; [reflexivity |].
  cbn [map]. rewrite (Hab f), IH. reflexivity.
Qed.

Lemma sameTunables_singleRequest (cs cs' : list SamplingConfig) :
  List.Forall2 sameTunables cs cs' ->
  List.Forall singleRequest cs -> List.Forall singleRequest cs'.
Proof.
  induction 1 as [| a b cs cs' Hab _ IH]; intros Hall; [constructor |].
  inversion Hall as [| ? ? Ha Hcs]; subst. constructor; [| apply IH, Hcs].
  intros f v Hf. apply (Ha f). rewrite (Hab f). exact Hf.
Qed.

(** The fused config does not depend on the beam widths and the
    [normalizeLogProbs] of the configs after the first. *)
Lemma fusedConfig_sameTunables (D : DefaultDecodingParams.t) (c : SamplingConfig)
    (cs cs' : list SamplingConfig) :
  List.Forall2 sameTunables cs cs' ->
  fusedConfig D (c :: cs) = fusedConfig D (c :: cs').
Proof.
  intros Hsame. unfold fusedConfig. cbn [map hd].
  pose proof (fun f => sameTunables_map f cs cs' Hsame) as Hmap.
  pose proof (Hmap F_temperature) as H1.
  pose proof (Hmap F_minLength) as H2.
  pose proof (Hmap F_repetitionPenalty) as H3.
  pose proof (Hmap F_presencePenalty) as H4.
  pose proof (Hmap F_frequencyPenalty) as H5.
  pose proof (Hmap F_topK) as H6.
  pose proof (Hmap F_topP) as H7.
  pose proof (Hmap F_randomSeed) as H8.
  pose proof (Hmap F_topPDecay) as H9.
  pose proof (Hmap F_topPMin) as H10.
  pose proof (Hmap F_topPResetIds) as H11.
  pose proof (Hmap F_beamSearchDiversityRate) as H12.
  pose proof (Hmap F_lengthPenalty) as H13.
  pose proof (Hmap F_earlyStopping) as H14.
  pose proof (Hmap F_topKMedusaHeads) as H15.
  pose proof (Hmap F_draftAcceptanceThreshold) as H16.
  cbn [field_get field_type] in H1, H2, H3, H4, H5, H6, H7, H8, H9, H10, H11,
    H12, H13, H14, H15, H16.
  rewrite H1, H2, H3, H4, H5, H6, H7, H8, H9, H10, H11, H12, H13, H14, H15, H16.
  reflexivity.
Qed.

(** C10. First-config precedence.  The constructor raises on an empty list.
    On a list [c :: cs] of single-request configs it returns a config whose
    [beamWidth] and [normalizeLogProbs] are those of [c], and it returns the
    same config when the configs after the first are replaced by configs
    with the same tunable fields but any beam width and any
    [normalizeLogProbs].  On a non-empty list it returns exactly when every
    config is a single-request config, and raises otherwise. *)
Theorem C10_first_config_precedence (D : DefaultDecodingParams.t) :
  raises (SamplingConfig_fuse D [])
  /\ (forall c cs,
        List.Forall singleRequest (c :: cs) ->
        exists fused,
          SamplingConfig_fuse D (c :: cs) = Ok fused
          /\ beamWidth fused = beamWidth c
          /\ normalizeLogProbs fused = normalizeLogProbs c
          /\ forall cs',
               List.Forall2 sameTunables cs cs' ->
               SamplingConfig_fuse D (c :: cs') = Ok fused)
  /\ (forall c cs,
        (exists fused, SamplingConfig_fuse D (c :: cs) = Ok fused)
        <-> List.Forall singleRequest (c :: cs))
  /\ (forall c cs,
        ~ List.Forall singleRequest (c :: cs) ->
        raises (SamplingConfig_fuse D (c :: cs))).
Proof.
  split; [eexists; reflexivity |]. split; [| split].
  - intros c cs Hall. exists (fusedConfig D (c :: cs)).
    split; [apply SamplingConfig_fuse_ok; [discriminate | exact Hall] |].
    split; [reflexivity |]. split; [reflexivity |].
    intros cs' Hsame.
    assert (Hall' : List.Forall singleRequest (c :: cs')).
    { inversion Hall; subst. constructor; [assumption |].
      eapply sameTunables_singleRequest; eauto. }
    rewrite (SamplingConfig_fuse_ok D (c :: cs') ltac:(discriminate) Hall').
    f_equal. symmetry. apply fusedConfig_sameTunables, Hsame.
  - intros c cs. split.
    + intros [fused Hok]. apply (SamplingConfig_fuse_Ok_inv D _ fused Hok).
    + intros Hall. eexists. apply SamplingConfig_fuse_ok; [discriminate | exact Hall].
  - intros c cs Hnot.
    destruct (Result_cases (SamplingConfig_fuse D (c :: cs))) as [[fused Hok] | Hr];
      [| exact Hr].
    exfalso. apply Hnot. apply (SamplingConfig_fuse_Ok_inv D _ fused Hok).
Qed.

(** C10 on two requests: the beam width 4 and the absent
    [normalizeLogProbs] of the second are ignored, also when the second is
    replaced by a request with beam width 9. *)
Lemma C10_first_config_precedence_witness :
  exists fused,
    SamplingConfig_fuse exampleDefaults [requestA; requestB] = Ok fused
    /\ beamWidth fused = 1 /\ normalizeLogProbs fused = Some true
    /\ beamWidth requestB = 4 /\ normalizeLogProbs requestB = None
    /\ SamplingConfig_fuse exampleDefaults [requestA; SamplingConfig_new 9] = Ok fused.
Proof.
  destruct (C10_first_config_precedence exampleDefaults) as (_ & Hfirst & _).
  destruct (Hfirst requestA [requestB] requests_singleRequest)
    as (fused & Hok & Hbw & Hnorm & Hsame).
  exists fused. split; [exact Hok |].
  split; [exact Hbw |]. split; [exact Hnorm |].
  split; [reflexivity |]. split; [reflexivity |].
  apply Hsame. constructor; [| constructor].
  intros f. destruct f; reflexivity.
Defined.

(** The beam width 4 of the second request is ignored. *)
Lemma first_config_precedence_example :
  exists fused,
    SamplingConfig_fuse exampleDefaults [requestA; requestB] = Ok fused
    /\ beamWidth fused = 1 /\ normalizeLogProbs fused = Some true
    /\ beamWidth requestB = 4 /\ normalizeLogProbs requestB = None.
Proof. eexists. repeat split; reflexivity. Qed.

(** A batch vector inside a request makes the constructor raise. *)
Lemma fuse_batch_vector_raises :
  raises (SamplingConfig_fuse exampleDefaults [requestA; requestBatch]).
Proof. eexists. reflexivity. Qed.

(** ** Random-seed setup of the sampling layer *)

Lemma length_store {A : Type} (buf : list A) (i : Z) (x : A) :
  length (store buf i x) = length buf.
Proof. unfold store. destruct (0 <=? i); [apply length_insert | reflexivity]. Qed.

Lemma load_store_eq {A : Type} (buf : list A) (i : Z) (x : A) :
  0 <= i < Z.of_nat (length buf) -> load (store buf i x) i = Some x.
Proof.
  intros Hi. unfold load, store.
  destruct (Z.leb_spec 0 i); [| lia].
  apply list_lookup_insert_eq. lia.
Qed.

Lemma load_store_ne {A : Type} (buf : list A) (i j : Z) (x : A) :
  i <> j -> load (store buf i x) j = load buf j.
Proof.
  intros Hij. unfold load, store.
  destruct (Z.leb_spec 0 j); [| reflexivity].
  destruct (Z.leb_spec 0 i); [| reflexivity].
  apply list_lookup_insert_ne. lia.
Qed.

Lemma length_invokeCurandInitialize_from (states : list curandState_t)
    (batchSlots : list SizeType32) (n : nat) (seed : uint64_t) :
  length (invokeCurandInitialize_from states batchSlots n seed) = length states.
Proof.
  revert states batchSlots. induction n as [| n IH]; intros states [| slot rest];
    cbn; try reflexivity.
  rewrite IH. apply length_store.
Qed.





Section SetupFacts.

Context {SubLayer SubLayerParams : Type}.
Variable subLayer_setup :
  SubLayer -> SizeType32 -> SizeType32 -> list SizeType32 ->
  SamplingSetupParams SubLayerParams -> Result SubLayer.

Variable L : SamplingLayer SubLayer.
Variables batchSize beamWidth : SizeType32.
Variable batchSlots : list SizeType32.
Variable params : SamplingSetupParams SubLayerParams.

Hypothesis batchSize_range : 0 <= batchSize < 2 ^ 31.
Hypothesis batchSlots_length : length batchSlots = Z.to_nat batchSize.
Hypothesis batchSlots_range :
  forall slot, In slot batchSlots ->
               0 <= slot < Z.of_nat (length (mCurandStatesDevice L)).
Hypothesis batchSlots_NoDup : List.NoDup batchSlots.













End SetupFacts.



(** The three other cases on the same layer. *)
Lemma setup_seed_examples :
  (exists L',
     setup trivial_subLayer_setup exampleLayer 2 1 exampleBatchSlots
       (mkSetupParams (Some [7]) tt) = Ok L'
     /\ mCurandStatesDevice L'
        = [curand_init 7 0 0; curand_init 99 0 0; curand_init 7 0 0; curand_init 99 0 0])
  /\ (exists L',
        setup trivial_subLayer_setup exampleLayer 2 1 exampleBatchSlots
          (mkSetupParams None tt) = Ok L'
        /\ mCurandStatesDevice L'
           = [curand_init 0 0 0; curand_init 99 0 0; curand_init 0 0 0; curand_init 99 0 0])
  /\ raises (setup trivial_subLayer_setup exampleLayer 2 1 exampleBatchSlots
               (mkSetupParams (Some [7; 8; 9]) tt))
  /\ raises (setup trivial_subLayer_setup exampleLayer 2 1 exampleBatchSlots
               (mkSetupParams (Some []) tt)).
Proof.
  split; [eexists; split; reflexivity |].
  split; [eexists; split; reflexivity |].
  split; eexists; reflexivity.
Qed.

(** ** Skipping the softmax *)

















(** The logits 0 and 1 keep their order in binary32: the exponential
    [expf_small] gives them the weights 1 and 2.5. *)
Lemma keepsOrder_example :
  keepsOrder format_float (expf_small format_float) [float_zero; float_one]
  /\ softmaxRow format_float (expf_small format_float) [float_zero; float_one]
     = [S754_finite false 9586981 (-25); S754_finite false 11983726 (-24)].
Proof.
  split; [| vm_compute; reflexivity].
  intros x y [<- | [<- | []]] [<- | [<- | []]]; vm_compute; reflexivity.
Qed.

(** ** Speculative tree verification *)

(** The kernel model reproduces the outputs [MedusaSimpleTest] expects for
    its six batch entries. *)
Lemma MedusaSimpleTest_passes : runMedusaSimpleTest = true.
Proof. vm_compute. reflexivity. Qed.

Lemma testTargetTokens_eq : testTargetTokens = [4; 0; 2; 0].
Proof. vm_compute. reflexivity. Qed.

(** The accepted nodes of a path are all used entries. *)
Lemma acceptAlong_used (draft target : list TokenIdType) (rest : list Z) (prev : Z) :
  List.Forall (fun p => p <> -1) (take (acceptAlong draft target prev rest) rest).
Proof.
  revert prev. induction rest as [| p rest IH]; intros prev; [constructor |].
  cbn [acceptAlong].
  destruct (Z.eqb_spec p (-1)) as [Hp | Hp]; [constructor |].
  destruct (load draft (p - 1)) as [d |]; [| constructor].
  destruct (load target prev) as [t |]; [| constructor].
  destruct (d =? t); [| constructor].
  cbn [take]. constructor; [exact Hp | apply IH].
Qed.

Lemma pathAcceptedLength_used (draft target : list TokenIdType) (path : list Z) :
  List.Forall (fun p => p <> -1) (take (pathAcceptedLength draft target path) path).
Proof.
  destruct path as [| root rest]; [constructor |].
  cbn [pathAcceptedLength].
  destruct (Z.eqb_spec root (-1)) as [Hr | Hr]; [constructor |].
  cbn [take]. constructor; [exact Hr | apply acceptAlong_used].
Qed.

(** What the scan for the best path returns: an upper bound of all lengths,
    and either the incoming best or the first position that reaches it. *)
Lemma bestPath_from_spec (lengths : list nat) (pi : nat) (best : nat * nat) :
  let r := bestPath_from lengths pi best in
  (fst best <= fst r)%nat
  /\ (forall k len, lengths !! k = Some len -> (len <= fst r)%nat)
  /\ (r = best
      \/ exists k,
           snd r = (pi + k)%nat /\ lengths !! k = Some (fst r)
           /\ (fst best < fst r)%nat
           /\ forall k' len', (k' < k)%nat -> lengths !! k' = Some len' ->
                              (len' < fst r)%nat).
Proof.
  revert pi best. induction lengths as [| len rest IH]; intros pi best; cbn zeta.
  - cbn. split; [lia |]. split; [intros k len' H; discriminate | left; reflexivity].
  - cbn [bestPath_from].
    set (best' := if (fst best <? len)%nat then (len, pi) else best).
    assert (Hbest' : (fst best <= fst best')%nat /\ (len <= fst best')%nat).
    { unfold best'. destruct (Nat.ltb_spec (fst best) len); cbn; lia. }
    specialize (IH (S pi) best'). cbn zeta in IH.
    destruct IH as (Hle & Hub & Hcase).
    split; [lia |]. split.
    + intros [| k] len' Hk; cbn in Hk.
      * injection Hk as <-. lia.
      * eapply Hub, Hk.
    + destruct Hcase as [Heq | (k & Hsnd & Hk & Hlt & Hfirst)].
      * rewrite Heq. unfold best'.
        destruct (Nat.ltb_spec (fst best) len) as [Hlt | Hge]; [| left; reflexivity].
        right. exists 0%nat. cbn.
        split; [lia |]. split; [reflexivity |]. split; [lia |].
        intros k' len' Hk'. lia.
      * right. exists (S k).
        split; [lia |]. split; [exact Hk |]. split; [lia |].
        intros [| k'] len' Hk' Hlen'; cbn in Hlen'.
        -- injection Hlen' as <-. lia.
        -- apply (Hfirst k'); [lia | exact Hlen'].
Qed.

(** The selected path is the first of the longest accepted ones. *)
Lemma bestPath_first_longest (draft target : list TokenIdType)
    (paths : list (list Z)) :
  let best := bestPath draft target paths in
  (forall j path, paths !! j = Some path ->
                  (pathAcceptedLength draft target path <= fst best)%nat)
  /\ ((0 < fst best)%nat ->
      exists path,
        paths !! snd best = Some path
        /\ pathAcceptedLength draft target path = fst best
        /\ forall j path', (j < snd best)%nat -> paths !! j = Some path' ->
             (pathAcceptedLength draft target path' < fst best)%nat).
Proof.
  cbn zeta. unfold bestPath.
  pose proof (bestPath_from_spec (map (pathAcceptedLength draft target) paths)
                0%nat (0%nat, 0%nat)) as Hspec.
  cbn zeta in Hspec. destruct Hspec as (_ & Hub & Hcase).
  split.
  - intros j path Hj. apply (Hub j). rewrite lookup_map, Hj. reflexivity.
  - intros Hpos. destruct Hcase as [Heq | (k & Hsnd & Hk & _ & Hfirst)].
    + rewrite Heq in Hpos. cbn in Hpos. lia.
    + cbn in Hsnd. rewrite Hsnd.
      rewrite lookup_map in Hk.
      destruct (paths !! k) as [path |] eqn:Hpath; [| discriminate].
      cbn in Hk. injection Hk as Hk.
      exists path. split; [reflexivity |]. split; [exact Hk |].
      intros j path' Hj Hpath'. apply (Hfirst j); [exact Hj |].
      rewrite lookup_map, Hpath'. reflexivity.
Qed.

Lemma acceptedNodes_used (draft target : list TokenIdType) (paths : list (list Z)) :
  List.Forall (fun p => p <> -1)
    (acceptedNodes paths (bestPath draft target paths)).
Proof.
  unfold acceptedNodes.
  destruct (bestPath_first_longest draft target paths) as [_ Hbest].
  destruct (fst (bestPath draft target paths)) as [| n] eqn:Hlen.
  - destruct (paths !! _); constructor.
  - destruct (Hbest ltac:(lia)) as (path & Hpath & Hacc & _).
    rewrite Hpath, <- Hacc. apply pathAcceptedLength_used.
Qed.

(** The accepted lengths of the two paths of the tree {0,1,2 / 0,3,-1} with
    draft tokens 4, 0, 2, in terms of the target's choices. *)
Lemma scenario_path_lengths (a b c x : TokenIdType) :
  pathAcceptedLength [4; 0; 2] [a; b; c; x] [0; 1; 2]
  = (if 4 =? a then if 0 =? b then 3%nat else 2%nat else 1%nat)
  /\ pathAcceptedLength [4; 0; 2] [a; b; c; x] [0; 3; -1]
     = (if 2 =? a then 2%nat else 1%nat).
Proof.
  split.
  - cbv [pathAcceptedLength acceptAlong].
    change (load [4; 0; 2] (1 - 1)) with (Some 4).
    change (load [4; 0; 2] (2 - 1)) with (Some 0).
    change (load [a; b; c; x] 0) with (Some a).
    change (load [a; b; c; x] 1) with (Some b).
    cbv beta iota. destruct (4 =? a), (0 =? b); reflexivity.
  - cbv [pathAcceptedLength acceptAlong].
    change (load [4; 0; 2] (3 - 1)) with (Some 2).
    change (load [a; b; c; x] 0) with (Some a).
    cbv beta iota. destruct (2 =? a); reflexivity.
Qed.

(** The accepted lengths of the six batch entries of [MedusaSimpleTest] and
    the tokens appended for them: each is the prefix of the entry's expected
    output ids. *)
Lemma MedusaSimpleTest_accepted :
  map (fun '(paths, draft) => medusaVerify [] draft testTargetTokens paths)
      (zip testPaths testDraftTokens)
  = [ {| outputHistory := [4; 0; 2]; acceptedLength := 3 |};
      {| outputHistory := [4; 0]; acceptedLength := 2 |};
      {| outputHistory := [4; 0; 0]; acceptedLength := 3 |};
      {| outputHistory := [4; 2; 0]; acceptedLength := 3 |};
      {| outputHistory := [4]; acceptedLength := 1 |};
      {| outputHistory := [4]; acceptedLength := 1 |} ].
Proof. vm_compute. reflexivity. Qed.

(** The statement of the specification fails when the target's token for
    depth 2 is 2: it mismatches the token 4 of node 1, the depth-2 node of
    the path 0,1,2, but it is the token of node 3, so that the path 0,3 is
    accepted and the accepted length is 2, not 1. *)
Lemma C3_counterexample :
  2 <> 4
  /\ medusaVerify [] [4; 0; 2] [2; 0; 2; 0] [[0; 1; 2]; [0; 3; -1]]
     = {| outputHistory := [2; 0]; acceptedLength := 2 |}
  /\ bestPath [4; 0; 2] [2; 0; 2; 0] [[0; 1; 2]; [0; 3; -1]] = (2%nat, 1%nat)
  /\ ~ (forall (history : list TokenIdType) (t x : TokenIdType),
          t <> 4 ->
          acceptedLength
            (medusaVerify history [4; 0; 2] [t; 0; 2; x] [[0; 1; 2]; [0; 3; -1]])
          = 1%nat).
Proof.
  split; [discriminate |]. split; [reflexivity |]. split; [reflexivity |].
  intros H. specialize (H [] 2 0 ltac:(discriminate)). discriminate H.
Qed.

(** C3, amended.  Speculative tree verification on the path tree
    {0,1,2 / 0,3,-1} with draft tokens 4, 0, 2 at nodes 1, 2, 3.  Depths are
    counted from 1 at the root, so that the accepted length is the number of
    accepted depths.  When the target model realizes 4, 0, 2 along the path
    0,1,2 the accepted length is 3 and 4, 0, 2 are appended to the history.
    When the target's token for depth 2 matches no depth-2 node of the tree
    (it is neither 4 nor 2) the accepted length is 1 and only that token is
    appended; when it is 2, the token of node 3, the second path is selected
    and the accepted length is 2; a mismatch one depth further down the
    first path leaves length 2.  In general the selected path is the first
    listed among the longest accepted ones, and no accepted node of it is an
    unused (-1) entry. *)
Theorem C3_speculative_verification :
  (forall (history : list TokenIdType) (x : TokenIdType),
     medusaVerify history [4; 0; 2] [4; 0; 2; x] [[0; 1; 2]; [0; 3; -1]]
     = {| outputHistory := history ++ [4; 0; 2]; acceptedLength := 3 |}
     /\ snd (bestPath [4; 0; 2] [4; 0; 2; x] [[0; 1; 2]; [0; 3; -1]]) = 0%nat)
  /\ (forall (history : list TokenIdType) (t x : TokenIdType),
        t <> 4 -> t <> 2 ->
        medusaVerify history [4; 0; 2] [t; 0; 2; x] [[0; 1; 2]; [0; 3; -1]]
        = {| outputHistory := history ++ [t]; acceptedLength := 1 |})
  /\ (forall (history : list TokenIdType) (x : TokenIdType),
        medusaVerify history [4; 0; 2] [2; 0; 2; x] [[0; 1; 2]; [0; 3; -1]]
        = {| outputHistory := history ++ [2; x]; acceptedLength := 2 |}
        /\ snd (bestPath [4; 0; 2] [2; 0; 2; x] [[0; 1; 2]; [0; 3; -1]]) = 1%nat)
  /\ (forall (history : list TokenIdType) (t x : TokenIdType),
        acceptedLength
          (medusaVerify history [4; 0; 2] [t; 0; 2; x] [[0; 1; 2]; [0; 3; -1]])
        = 1%nat
        <-> t <> 4 /\ t <> 2)
  /\ (forall (history : list TokenIdType) (t x : TokenIdType),
        t <> 0 ->
        medusaVerify history [4; 0; 2] [4; t; 2; x] [[0; 1; 2]; [0; 3; -1]]
        = {| outputHistory := history ++ [4; t]; acceptedLength := 2 |})
  /\ (forall (draft target : list TokenIdType) (paths : list (list Z)),
        let best := bestPath draft target paths in
        (forall j path, paths !! j = Some path ->
                        (pathAcceptedLength draft target path <= fst best)%nat)
        /\ ((0 < fst best)%nat ->
            exists path,
              paths !! snd best = Some path
              /\ pathAcceptedLength draft target path = fst best
              /\ forall j path', (j < snd best)%nat -> paths !! j = Some path' ->
                   (pathAcceptedLength draft target path' < fst best)%nat))
  /\ (forall (draft target : list TokenIdType) (paths : list (list Z)),
        List.Forall (fun p => p <> -1)
          (acceptedNodes paths (bestPath draft target paths))).
Proof.
  split; [intros history x; split; reflexivity |].
  split.
  { intros history t x H4 H2.
    destruct (scenario_path_lengths t 0 2 x) as [E1 E2].
    unfold medusaVerify, bestPath. cbn [map]. rewrite E1, E2.
    destruct (Z.eqb_spec 4 t) as [E | _]; [congruence |].
    destruct (Z.eqb_spec 2 t) as [E | _]; [congruence |].
    reflexivity. }
  split; [intros history x; split; reflexivity |].
  split.
  { intros history t x.
    destruct (scenario_path_lengths t 0 2 x) as [E1 E2].
    unfold medusaVerify, bestPath. cbn [map acceptedLength]. rewrite E1, E2.
    destruct (Z.eqb_spec 4 t) as [E4 | N4];
      destruct (Z.eqb_spec 2 t) as [E2' | N2]; cbn;
      (split; [intros H; try discriminate H; split; congruence
              | intros [H4 H2]; congruence]). }
  split.
  { intros history t x H0.
    destruct (scenario_path_lengths 4 t 2 x) as [E1 E2].
    unfold medusaVerify, bestPath. cbn [map]. rewrite E1, E2.
    destruct (Z.eqb_spec 0 t) as [E | _]; [congruence |].
    reflexivity. }
  split; [apply bestPath_first_longest | apply acceptedNodes_used].
Qed.

(** Two paths of equal accepted length: the first listed is selected. *)
Lemma bestPath_tie_example :
  bestPath [4; 0; 2] [4; 0; 2; 0] [[0; 1; -1]; [0; 1; -1]; [0; 3; -1]]
  = (2%nat, 0%nat).
Proof. reflexivity. Qed.

(** ** Stop criteria *)

Lemma isActive_true (batchSlots : list SizeType32) (batchSize : SizeType32)
    (bi slot : nat) :
  (bi < Z.to_nat batchSize)%nat ->
  batchSlots !! bi = Some (Z.of_nat slot) ->
  isActive batchSlots batchSize slot = true.
Proof.
  intros Hbi Hslot. unfold isActive, activeSlots.
  apply existsb_exists. exists (Z.of_nat slot). split; [| apply Z.eqb_refl].
  apply (lookup_In _ bi). apply lookup_take_Some. split; assumption.
Qed.

Lemma active_In (batchSlots : list SizeType32) (batchSize : SizeType32)
    (bi slot : nat) :
  (bi < Z.to_nat batchSize)%nat ->
  batchSlots !! bi = Some (Z.of_nat slot) ->
  In (Z.of_nat slot) (activeSlots batchSlots batchSize).
Proof.
  intros Hbi Hslot. apply (lookup_In _ bi), lookup_take_Some. split; assumption.
Qed.

Lemma beam_index_div (bw slot beam : nat) :
  (beam < bw)%nat -> ((slot * bw + beam) / bw)%nat = slot.
Proof.
  intros Hbeam. rewrite Nat.div_add_l by lia.
  rewrite Nat.div_small by exact Hbeam. lia.
Qed.

Lemma lookup_beamsOf {A : Type} (buf : list A) (bw slot beam : nat) :
  (beam < bw)%nat -> beamsOf buf bw slot !! beam = buf !! (slot * bw + beam)%nat.
Proof.
  intros Hbeam. unfold beamsOf.
  rewrite lookup_take_lt by exact Hbeam. apply lookup_drop.
Qed.

Lemma length_beamsOf {A : Type} (buf : list A) (bw slot : nat) :
  ((slot + 1) * bw <= length buf)%nat -> length (beamsOf buf bw slot) = bw.
Proof. intros H. unfold beamsOf. rewrite length_take, length_drop. nia. Qed.

(** The state of one beam of an active slot after the length criterion. *)
Lemma invokeLengthCriterion_beam (finished : list FinishedState.t)
    (finishedSum limits lens batchSlots : list SizeType32)
    (batchSize beamWidth : SizeType32) (bi slot beam : nat)
    (limit len : SizeType32) (s : FinishedState.t) :
  (bi < Z.to_nat batchSize)%nat ->
  batchSlots !! bi = Some (Z.of_nat slot) ->
  (beam < Z.to_nat beamWidth)%nat ->
  limits !! slot = Some limit ->
  lens !! (slot * Z.to_nat beamWidth + beam)%nat = Some len ->
  finished !! (slot * Z.to_nat beamWidth + beam)%nat = Some s ->
  fst (invokeLengthCriterion finished finishedSum limits lens batchSlots
         batchSize beamWidth) !! (slot * Z.to_nat beamWidth + beam)%nat
  = Some (lengthCriterion_beam limit len s).
Proof.
  intros Hbi Hslot Hbeam Hlimit Hlen Hs. unfold invokeLengthCriterion. cbn [fst].
  rewrite list_lookup_imap, Hs. cbn.
  rewrite (beam_index_div _ _ _ Hbeam), (isActive_true _ _ _ _ Hbi Hslot).
  rewrite Hlimit, Hlen. reflexivity.
Qed.

(** The finished-sum of an active slot is the count of its finished beams,
    whatever their cause. *)
Lemma invokeLengthCriterion_finishedSum (finished : list FinishedState.t)
    (finishedSum limits lens batchSlots : list SizeType32)
    (batchSize beamWidth : SizeType32) (bi slot : nat) :
  (bi < Z.to_nat batchSize)%nat ->
  batchSlots !! bi = Some (Z.of_nat slot) ->
  (slot < length finishedSum)%nat ->
  let result := invokeLengthCriterion finished finishedSum limits lens batchSlots
                  batchSize beamWidth in
  snd result !! slot
  = Some (countFinished (beamsOf (fst result) (Z.to_nat beamWidth) slot)).
Proof.
  intros Hbi Hslot Hlt. cbn zeta. unfold invokeLengthCriterion. cbn [fst snd].
  rewrite list_lookup_imap.
  destruct (lookup_lt_is_Some_2 finishedSum slot Hlt) as [old Hold].
  rewrite Hold. cbn. rewrite (isActive_true _ _ _ _ Hbi Hslot). reflexivity.
Qed.

Lemma count_pointwise (limit : SizeType32) (states : list FinishedState.t)
    (lens : list SizeType32) :
  length states = length lens ->
  (forall k s len, states !! k = Some s -> lens !! k = Some len ->
                   FinishedState.isFinished s = (limit <=? len)) ->
  countFinished states = countLimitReached limit lens.
Proof.
  revert lens. induction states as [| s states IH]; intros [| len lens] Hlen Hpt;
    try discriminate; [reflexivity |].
  cbn [countFinished countLimitReached fold_right].
  rewrite (Hpt 0%nat s len eq_refl eq_refl).
  f_equal. apply IH; [cbn in Hlen; lia |].
  intros k s' len' Hs' Hlen'. apply (Hpt (S k)); assumption.
Qed.

Lemma not_finished_flags (s : FinishedState.t) :
  FinishedState.isFinished s = false ->
  FinishedState.isFinishedEOS s = false
  /\ FinishedState.isFinishedStopWords s = false
  /\ FinishedState.isFinishedMaxLength s = false.
Proof.
  destruct s as [[] [] []]; cbn; intros H; try discriminate; repeat split.
Qed.

Lemma lengthCriterion_beam_fresh (limit len : SizeType32) (s : FinishedState.t) :
  FinishedState.isFinished s = false ->
  FinishedState.isFinished (lengthCriterion_beam limit len s) = (limit <=? len)
  /\ FinishedState.isFinishedMaxLength (lengthCriterion_beam limit len s)
     = (limit <=? len).
Proof.
  intros Hs. destruct (not_finished_flags s Hs) as (He & Hw & Hm).
  unfold lengthCriterion_beam. destruct (limit <=? len).
  - destruct s; cbn in *. subst. split; reflexivity.
  - split; assumption.
Qed.

Section LengthCriterion.

Variable finished : list FinishedState.t.
Variables finishedSum limits lens batchSlots : list SizeType32.
Variables batchSize beamWidth : SizeType32.

Hypothesis buffers_wf :
  stopCriteriaBuffers_wf finished finishedSum limits lens batchSlots batchSize beamWidth.

Let bw := Z.to_nat beamWidth.
Let result :=
  invokeLengthCriterion finished finishedSum limits lens batchSlots batchSize beamWidth.

Lemma active_slot_bounds (bi slot : nat) :
  (bi < Z.to_nat batchSize)%nat ->
  batchSlots !! bi = Some (Z.of_nat slot) ->
  (slot < length limits)%nat
  /\ ((slot + 1) * bw <= length finished)%nat
  /\ (0 < bw)%nat.
Proof.
  intros Hbi Hslot. destruct buffers_wf as (Hbw & _ & Hfin & _ & _ & Hrange).
  pose proof (Hrange _ (active_In _ _ _ _ Hbi Hslot)) as Hs.
  subst bw. split; [lia |]. split; [| lia].
  rewrite Hfin. apply Nat.mul_le_mono_r. lia.
Qed.

(** With no beam finished beforehand, the statement of the specification
    holds. *)
Lemma maxLengthStatement_fresh :
  noneFinished finished batchSlots batchSize beamWidth ->
  maxLengthStatement finished finishedSum limits lens batchSlots batchSize beamWidth.
Proof.
  intros Hfresh bi slot limit Hbi Hslot Hlimit.
  destruct (active_slot_bounds bi slot Hbi Hslot) as (Hslt & Hrow & Hbw).
  destruct buffers_wf as (_ & _ & Hfin & Hlens & Hsum & _).
  split.
  - intros beam len Hbeam Hlen.
    assert (Hj : (slot * Z.to_nat beamWidth + beam < length finished)%nat)
      by (fold bw; nia).
    destruct (lookup_lt_is_Some_2 finished _ Hj) as [s Hs].
    exists (lengthCriterion_beam limit len s).
    split; [eapply invokeLengthCriterion_beam; eauto |].
    destruct (lengthCriterion_beam_fresh limit len s
                (Hfresh bi slot beam s Hbi Hslot Hbeam Hs)) as [_ Hmax].
    rewrite Hmax. apply Z.leb_le.
  - rewrite invokeLengthCriterion_finishedSum with (bi := bi) by (assumption || lia).
    f_equal. apply count_pointwise.
    + rewrite !length_beamsOf; [reflexivity | fold bw; lia |].
      fold bw. unfold invokeLengthCriterion. cbn [fst]. rewrite length_imap. lia.
    + intros beam s' len Hs' Hlen.
      assert (Hbeam : (beam < Z.to_nat beamWidth)%nat).
      { pose proof (lookup_lt_Some _ _ _ Hlen) as Hlt.
        rewrite length_beamsOf in Hlt by (fold bw; lia). exact Hlt. }
      rewrite lookup_beamsOf in Hs' by exact Hbeam.
      rewrite lookup_beamsOf in Hlen by exact Hbeam.
      assert (Hj : (slot * Z.to_nat beamWidth + beam < length finished)%nat)
        by (fold bw; nia).
      destruct (lookup_lt_is_Some_2 finished _ Hj) as [s Hs].
      rewrite (invokeLengthCriterion_beam _ _ _ _ _ _ _ bi slot beam limit len s)
        in Hs' by assumption.
      injection Hs' as <-.
      apply lengthCriterion_beam_fresh.
      exact (Hfresh bi slot beam s Hbi Hslot Hbeam Hs).
Qed.

(** In any state: a beam that has reached the limit is marked, a beam that
    has not keeps its state, and the finished-sum counts the finished beams
    of the slot. *)
Lemma lengthCriterion_general (bi slot : nat) (limit : SizeType32) :
  (bi < Z.to_nat batchSize)%nat ->
  batchSlots !! bi = Some (Z.of_nat slot) ->
  limits !! slot = Some limit ->
  (forall (beam : nat) (len : SizeType32) (s : FinishedState.t),
     (beam < bw)%nat ->
     lens !! (slot * bw + beam)%nat = Some len ->
     finished !! (slot * bw + beam)%nat = Some s ->
     exists s',
       fst result !! (slot * bw + beam)%nat = Some s'
       /\ (limit <= len -> FinishedState.isFinishedMaxLength s' = true)
       /\ (len < limit -> s' = s)
       /\ (FinishedState.isFinished s = true -> FinishedState.isFinished s' = true))
  /\ snd result !! slot = Some (countFinished (beamsOf (fst result) bw slot)).
Proof.
  intros Hbi Hslot Hlimit.
  destruct (active_slot_bounds bi slot Hbi Hslot) as (Hslt & Hrow & Hbw).
  destruct buffers_wf as (_ & _ & Hfin & Hlens & Hsum & _).
  split.
  - intros beam len s Hbeam Hlen Hs.
    exists (lengthCriterion_beam limit len s).
    split; [eapply invokeLengthCriterion_beam; eauto |].
    unfold lengthCriterion_beam.
    destruct (Z.leb_spec limit len); repeat split; intros; try lia; try reflexivity.
    + destruct s as [[] [] []]; cbn in *; congruence.
    + assumption.
  - apply invokeLengthCriterion_finishedSum with (bi := bi); [assumption .. | lia].
Qed.

Lemma load_of_nat {A : Type} (buf : list A) (i : nat) :
  load buf (Z.of_nat i) = buf !! i.
Proof.
  unfold load. destruct (Z.leb_spec 0 (Z.of_nat i)); [| lia].
  rewrite Nat2Z.id. reflexivity.
Qed.

Lemma beam_index_Z (slot beam : nat) :
  Z.of_nat slot * beamWidth + Z.of_nat beam = Z.of_nat (slot * bw + beam).
Proof.
  destruct buffers_wf as (Hbw & _). subst bw.
  rewrite Nat2Z.inj_add, Nat2Z.inj_mul, Z2Nat.id by lia. reflexivity.
Qed.

(** The length of beam [beam] of slot [slot]. *)
Let lenOf (slot beam : nat) : SizeType32 := default 0 (lens !! (slot * bw + beam)%nat).

Lemma beamsOf_lens (slot : nat) :
  ((slot + 1) * bw <= length lens)%nat ->
  beamsOf lens bw slot = map (lenOf slot) (seq 0 bw).
Proof.
  intros Hrow. apply list_eq. intros k.
  rewrite lookup_map.
  destruct (Nat.lt_ge_cases k bw) as [Hk | Hk].
  - rewrite lookup_beamsOf, lookup_seq_lt by exact Hk. cbn. unfold lenOf.
    destruct (lookup_lt_is_Some_2 lens (slot * bw + k)%nat ltac:(nia)) as [len Hlen].
    rewrite Hlen. reflexivity.
  - rewrite lookup_seq_ge by exact Hk. cbn.
    apply lookup_ge_None. rewrite length_beamsOf by exact Hrow. exact Hk.
Qed.

Lemma countLimitReached_map (limit : SizeType32) (g : nat -> SizeType32)
    (ks : list nat) :
  countLimitReached limit (map g ks)
  = fold_right (fun k acc => (if limit <=? g k then 1 else 0) + acc) 0 ks.
Proof. induction ks as [| k ks IH]; cbn; [reflexivity | rewrite <- IH; reflexivity]. Qed.

(** The inner loop of the verification, on the beams of one slot whose
    marked states agree with the limit. *)
Lemma verifyMaxSeqLen_beams_ok (finished' : list FinishedState.t)
    (slot : nat) (limit : SizeType32) (beams : list nat) (acc : Z) :
  limits !! slot = Some limit ->
  (forall beam, In beam beams ->
     exists len s',
       lens !! (slot * bw + beam)%nat = Some len
       /\ finished' !! (slot * bw + beam)%nat = Some s'
       /\ (limit <= len -> FinishedState.isFinishedMaxLength s' = true)) ->
  verifyMaxSeqLen_beams lens limits finished' (Z.of_nat slot) beamWidth
    (map Z.of_nat beams) acc
  = (acc + fold_right (fun k a => (if limit <=? lenOf slot k then 1 else 0) + a) 0 beams,
     true).
Proof.
  intros Hlimit. revert acc. induction beams as [| beam beams IH]; intros acc Hall.
  - cbn. rewrite Z.add_0_r. reflexivity.
  - cbn [map verifyMaxSeqLen_beams fold_right].
    destruct (Hall beam (or_introl eq_refl)) as (len & s' & Hlen & Hs' & Hmark).
    rewrite beam_index_Z, !load_of_nat, Hlen, Hlimit, Hs'.
    rewrite IH by (intros b Hb; apply Hall; right; exact Hb).
    unfold lenOf at 2. rewrite Hlen. cbn [default].
    destruct (Z.leb_spec limit len) as [Hle | Hgt].
    + rewrite (Hmark Hle). cbn. f_equal.
      apply Z.leb_le in Hle. rewrite Hle. lia.
    + cbn. f_equal. apply Z.leb_gt in Hgt. rewrite Hgt. lia.
Qed.

(** From a state with no finished beam, the result of the criterion passes
    the test's verification. *)
Lemma verifyMaxSeqLen_fresh :
  noneFinished finished batchSlots batchSize beamWidth ->
  verifyMaxSeqLenStopCriteriaResults lens limits (fst result) (snd result)
    batchSlots batchSize beamWidth = true.
Proof.
  intros Hfresh. pose proof (maxLengthStatement_fresh Hfresh) as Hstmt.
  unfold verifyMaxSeqLenStopCriteriaResults.
  apply forallb_forall. intros batchIdx Hin.
  unfold zrange in Hin. apply in_map_iff in Hin as (bi & <- & Hbi).
  apply in_seq in Hbi. destruct Hbi as [_ Hbi]. cbn in Hbi.
  pose proof buffers_wf as (Hbw & Hslots & Hfin & Hlens & Hsum & Hrange).
  rewrite load_of_nat.
  destruct (lookup_lt_is_Some_2 batchSlots bi ltac:(lia)) as [batchSlot Hslot].
  rewrite Hslot.
  assert (Hact : In batchSlot (activeSlots batchSlots batchSize)).
  { apply (lookup_In _ bi), lookup_take_Some. split; assumption. }
  pose proof (Hrange _ Hact) as Hsr.
  assert (Hnat : batchSlot = Z.of_nat (Z.to_nat batchSlot)) by lia.
  set (sl := Z.to_nat batchSlot) in *. rewrite Hnat in Hslot |- *.
  destruct (active_slot_bounds bi sl Hbi Hslot) as (Hslt & Hrow & Hbwpos).
  destruct (lookup_lt_is_Some_2 limits sl Hslt) as [limit Hlimit].
  destruct (Hstmt bi sl limit Hbi Hslot Hlimit) as [Hbeams Hsumeq].
  fold result in Hbeams, Hsumeq.
  unfold zrange. fold bw.
  rewrite (verifyMaxSeqLen_beams_ok (fst result) sl limit (seq 0 bw) 0 Hlimit).
  - cbn [andb]. rewrite load_of_nat, Hsumeq.
    rewrite beamsOf_lens by lia. rewrite countLimitReached_map.
    rewrite Z.add_0_l. apply Z.eqb_refl.
  - intros beam Hbeam. apply in_seq in Hbeam. destruct Hbeam as [_ Hbeam].
    cbn in Hbeam.
    destruct (lookup_lt_is_Some_2 lens (sl * bw + beam)%nat ltac:(nia))
      as [len Hlen].
    destruct (Hbeams beam len Hbeam Hlen) as (s' & Hs' & Hiff).
    exists len, s'. split; [exact Hlen |]. split; [exact Hs' |].
    apply Hiff.
Qed.

End LengthCriterion.

(** The finished beams after the criterion are those at the limit and those
    that were finished below it. *)
Lemma countFinished_decompose (limit : SizeType32)
    (lens : list SizeType32) (states states' : list FinishedState.t) :
  length states = length lens ->
  length states' = length lens ->
  (forall k s len, states !! k = Some s -> lens !! k = Some len ->
                   states' !! k = Some (lengthCriterion_beam limit len s)) ->
  countFinished states'
  = countLimitReached limit lens + countFinishedBelow limit lens states.
Proof.
  revert states states'.
  induction lens as [| len lens IH]; intros [| s states] [| s' states'] H1 H2 Hpt;
    try discriminate; [reflexivity |].
  cbn [countFinished countLimitReached countFinishedBelow combine fold_right fst snd].
  pose proof (Hpt 0%nat s len eq_refl eq_refl) as H0. cbn in H0. injection H0 as ->.
  specialize (IH states states' ltac:(cbn in H1; lia) ltac:(cbn in H2; lia)
                (fun k => Hpt (S k))).
  unfold countFinished, countLimitReached, countFinishedBelow in IH.
  rewrite IH. unfold lengthCriterion_beam.
  destruct (Z.leb_spec limit len) as [Hle | Hgt].
  - destruct (Z.ltb_spec len limit); [lia |].
    rewrite andb_false_r.
    replace (FinishedState.isFinished (FinishedState.setFinishedMaxLength s))
      with true by (destruct s as [[] [] []]; reflexivity).
    lia.
  - destruct (Z.ltb_spec len limit); [| lia].
    rewrite andb_true_r. destruct (FinishedState.isFinished s); lia.
Qed.

Lemma countFinishedBelow_zero (limit : SizeType32) (lens : list SizeType32)
    (states : list FinishedState.t) :
  length states = length lens ->
  0 <= countFinishedBelow limit lens states
  /\ (countFinishedBelow limit lens states = 0
      <-> forall k s len, states !! k = Some s -> lens !! k = Some len ->
                          FinishedState.isFinished s = true -> limit <= len).
Proof.
  revert states. induction lens as [| len lens IH]; intros [| s states] Hlen;
    try discriminate.
  - cbn. split; [lia |]. split; [intros _ k s len H; discriminate H | reflexivity].
  - cbn [countFinishedBelow combine fold_right fst snd].
    destruct (IH states ltac:(cbn in Hlen; lia)) as [Hnn Hiff].
    unfold countFinishedBelow in Hnn, Hiff.
    set (rest := fold_right _ 0 (combine lens states)) in *.
    destruct (FinishedState.isFinished s) eqn:Hs; cbn [andb].
    + destruct (Z.ltb_spec len limit) as [Hlt | Hge].
      * split; [lia |]. split; [lia |].
        intros Hall. specialize (Hall 0%nat s len eq_refl eq_refl Hs). lia.
      * split; [lia |]. rewrite Z.add_0_l, Hiff. split.
        -- intros Hall [| k] s0 len0 Hk Hl; cbn in Hk, Hl.
           ++ injection Hk as <-. injection Hl as <-. intros _. exact Hge.
           ++ apply (Hall k); assumption.
        -- intros Hall k. apply (Hall (S k)).
    + split; [lia |]. rewrite Z.add_0_l, Hiff. split.
      * intros Hall [| k] s0 len0 Hk Hl; cbn in Hk, Hl.
        -- injection Hk as <-. congruence.
        -- apply (Hall k); assumption.
      * intros Hall k. apply (Hall (S k)).
Qed.

(** The finished-sum of an active slot after the criterion. *)
Lemma invokeLengthCriterion_sum (finished : list FinishedState.t)
    (finishedSum limits lens batchSlots : list SizeType32)
    (batchSize beamWidth : SizeType32) (bi slot : nat) (limit : SizeType32) :
  stopCriteriaBuffers_wf finished finishedSum limits lens batchSlots batchSize
    beamWidth ->
  (bi < Z.to_nat batchSize)%nat ->
  batchSlots !! bi = Some (Z.of_nat slot) ->
  limits !! slot = Some limit ->
  let bw := Z.to_nat beamWidth in
  length (beamsOf finished bw slot) = length (beamsOf lens bw slot)
  /\ snd (invokeLengthCriterion finished finishedSum limits lens batchSlots
            batchSize beamWidth) !! slot
     = Some (countLimitReached limit (beamsOf lens bw slot)
             + countFinishedBelow limit (beamsOf lens bw slot)
                 (beamsOf finished bw slot)).
Proof.
  intros Hwf Hbi Hslot Hlimit bw.
  destruct (active_slot_bounds _ _ _ _ _ _ _ Hwf bi slot Hbi Hslot)
    as (Hslt & Hrow & Hbw).
  fold bw in Hrow, Hbw.
  pose proof Hwf as (_ & _ & Hfin & Hlens & Hsum & _).
  assert (Hl1 : length (beamsOf finished bw slot) = bw)
    by (apply length_beamsOf; exact Hrow).
  assert (Hl2 : length (beamsOf lens bw slot) = bw)
    by (apply length_beamsOf; lia).
  split; [lia |].
  rewrite invokeLengthCriterion_finishedSum with (bi := bi) by (assumption || lia).
  f_equal. fold bw. apply countFinished_decompose.
  - lia.
  - rewrite Hl2. apply length_beamsOf.
    unfold invokeLengthCriterion. cbn [fst]. rewrite length_imap. exact Hrow.
  - intros beam s len Hs Hlen.
    assert (Hbeam : (beam < bw)%nat).
    { rewrite <- Hl2. eapply lookup_lt_Some, Hlen. }
    rewrite lookup_beamsOf in Hs by exact Hbeam.
    rewrite lookup_beamsOf in Hlen by exact Hbeam.
    rewrite lookup_beamsOf by exact Hbeam.
    eapply invokeLengthCriterion_beam; eauto.
Qed.

(** The statement of the specification fails in both of its halves.  On a
    slot with a beam that had finished by end token, the beam is below its
    limit, no beam has reached the limit, yet the finished-sum is 1.  On a
    slot with a beam that carries the max-length mark already, the beam is
    below its limit and is finished-by-max-length afterwards. *)
Lemma C4_counterexample :
  (stopCriteriaBuffers_wf [finishedByEos] [0] [10] [3] [0] 1 1
   /\ invokeLengthCriterion [finishedByEos] [0] [10] [3] [0] 1 1
      = ([finishedByEos], [1])
   /\ countLimitReached 10 (beamsOf [3] 1 0) = 0
   /\ ~ maxLengthStatement [finishedByEos] [0] [10] [3] [0] 1 1)
  /\ (stopCriteriaBuffers_wf [finishedByMaxLength] [0] [10] [3] [0] 1 1
      /\ fst (invokeLengthCriterion [finishedByMaxLength] [0] [10] [3] [0] 1 1)
         = [finishedByMaxLength]
      /\ FinishedState.isFinishedMaxLength finishedByMaxLength = true
      /\ ~ 10 <= 3
      /\ ~ maxLengthStatement [finishedByMaxLength] [0] [10] [3] [0] 1 1).
Proof.
  assert (Hwf : forall s, stopCriteriaBuffers_wf [s] [0] [10] [3] [0] 1 1).
  { intros s. unfold stopCriteriaBuffers_wf. cbn.
    split; [lia |]. split; [lia |]. split; [reflexivity |].
    split; [reflexivity |]. split; [reflexivity |].
    intros slot [<- | []]; lia. }
  split.
  - split; [apply Hwf |].
    split; [reflexivity |]. split; [reflexivity |].
    intros Hstmt.
    destruct (Hstmt 0%nat 0%nat 10 ltac:(cbn; lia) eq_refl eq_refl) as [_ Hsum].
    cbn in Hsum. discriminate Hsum.
  - split; [apply Hwf |].
    split; [reflexivity |]. split; [reflexivity |]. split; [lia |].
    intros Hstmt.
    destruct (Hstmt 0%nat 0%nat 10 ltac:(cbn; lia) eq_refl eq_refl) as [Hbeam _].
    destruct (Hbeam 0%nat 3 ltac:(cbn; lia) eq_refl) as (s' & Hs' & Hiff).
    cbn in Hs'. injection Hs' as <-.
    pose proof (proj1 Hiff eq_refl). lia.
Qed.

(** C4, amended.  On buffers of the test's shapes, for every active slot:
    a beam of the slot is finished-by-max-length after the length criterion
    exactly when it carried that mark before or its length is greater than
    or equal to the slot's limit, so a beam without the mark is
    finished-by-max-length afterwards exactly when its length has reached
    the limit; the other finish conditions of the beam are unchanged.  The
    slot's finished-sum is the number of its finished beams: the number of
    its beams whose length has reached the limit plus the number of its
    beams that were finished below the limit.  It equals the number of beams
    at the limit exactly when no beam of the slot was finished below the
    limit, in particular when no beam of the slot was finished.  When no
    beam of any active slot is finished (the state [initData] sets up) the
    result passes [verifyMaxSeqLenStopCriteriaResults]. *)
Theorem C4_max_length_criterion (finished : list FinishedState.t)
    (finishedSum limits lens batchSlots : list SizeType32)
    (batchSize beamWidth : SizeType32) :
  stopCriteriaBuffers_wf finished finishedSum limits lens batchSlots batchSize beamWidth ->
  let bw := Z.to_nat beamWidth in
  let result :=
    invokeLengthCriterion finished finishedSum limits lens batchSlots batchSize
      beamWidth in
  (forall (bi slot : nat) (limit : SizeType32),
     (bi < Z.to_nat batchSize)%nat ->
     batchSlots !! bi = Some (Z.of_nat slot) ->
     limits !! slot = Some limit ->
     (forall (beam : nat) (len : SizeType32) (s : FinishedState.t),
        (beam < bw)%nat ->
        lens !! (slot * bw + beam)%nat = Some len ->
        finished !! (slot * bw + beam)%nat = Some s ->
        exists s',
          fst result !! (slot * bw + beam)%nat = Some s'
          /\ (FinishedState.isFinishedMaxLength s' = true
              <-> FinishedState.isFinishedMaxLength s = true \/ limit <= len)
          /\ (FinishedState.isFinishedMaxLength s = false ->
              (FinishedState.isFinishedMaxLength s' = true <-> limit <= len))
          /\ FinishedState.isFinishedEOS s' = FinishedState.isFinishedEOS s
          /\ FinishedState.isFinishedStopWords s'
             = FinishedState.isFinishedStopWords s)
     /\ snd result !! slot
        = Some (countFinished (beamsOf (fst result) bw slot))
     /\ snd result !! slot
        = Some (countLimitReached limit (beamsOf lens bw slot)
                + countFinishedBelow limit (beamsOf lens bw slot)
                    (beamsOf finished bw slot))
     /\ (snd result !! slot
         = Some (countLimitReached limit (beamsOf lens bw slot))
         <-> forall (beam : nat) (len : SizeType32) (s : FinishedState.t),
               (beam < bw)%nat ->
               lens !! (slot * bw + beam)%nat = Some len ->
               finished !! (slot * bw + beam)%nat = Some s ->
               FinishedState.isFinished s = true -> limit <= len)
     /\ (slotFresh finished beamWidth slot ->
         snd result !! slot
         = Some (countLimitReached limit (beamsOf lens bw slot))))
  /\ (noneFinished finished batchSlots batchSize beamWidth ->
      maxLengthStatement finished finishedSum limits lens batchSlots batchSize beamWidth
      /\ verifyMaxSeqLenStopCriteriaResults lens limits (fst result) (snd result)
           batchSlots batchSize beamWidth = true).
Proof.
  intros Hwf. cbn zeta. split.
  - intros bi slot limit Hbi Hslot Hlimit.
    set (bw := Z.to_nat beamWidth).
    destruct (active_slot_bounds _ _ _ _ _ _ _ Hwf bi slot Hbi Hslot)
      as (Hslt & Hrow & Hbw).
    fold bw in Hrow, Hbw.
    pose proof Hwf as (_ & _ & Hfin & Hlens & Hsum & _).
    destruct (invokeLengthCriterion_sum _ _ _ _ _ _ _ bi slot limit Hwf Hbi Hslot
                Hlimit) as [Hrows Hdecomp].
    fold bw in Hrows, Hdecomp.
    assert (Hl2 : length (beamsOf lens bw slot) = bw)
      by (apply length_beamsOf; lia).
    destruct (countFinishedBelow_zero limit (beamsOf lens bw slot)
                (beamsOf finished bw slot) Hrows) as [Hnn Hzero].
    assert (Hexact :
              snd (invokeLengthCriterion finished finishedSum limits lens batchSlots
                     batchSize beamWidth) !! slot
              = Some (countLimitReached limit (beamsOf lens bw slot))
              <-> forall (beam : nat) (len : SizeType32) (s : FinishedState.t),
                    (beam < bw)%nat ->
                    lens !! (slot * bw + beam)%nat = Some len ->
                    finished !! (slot * bw + beam)%nat = Some s ->
                    FinishedState.isFinished s = true -> limit <= len).
    { rewrite Hdecomp. split.
      - intros E. injection E as E.
        assert (Hz : countFinishedBelow limit (beamsOf lens bw slot)
                       (beamsOf finished bw slot) = 0) by lia.
        intros beam len s Hbeam Hlen Hs.
        apply (proj1 Hzero Hz beam); rewrite lookup_beamsOf by exact Hbeam; assumption.
      - intros Hall. f_equal.
        assert (Hz : countFinishedBelow limit (beamsOf lens bw slot)
                       (beamsOf finished bw slot) = 0); [| lia].
        apply Hzero. intros beam s len Hs Hlen.
        assert (Hbeam : (beam < bw)%nat).
        { rewrite <- Hl2. eapply lookup_lt_Some, Hlen. }
        rewrite lookup_beamsOf in Hs by exact Hbeam.
        rewrite lookup_beamsOf in Hlen by exact Hbeam.
        apply (Hall beam); assumption. }
    split; [| split; [| split; [exact Hdecomp | split; [exact Hexact |]]]].
    + intros beam len s Hbeam Hlen Hs.
      exists (lengthCriterion_beam limit len s).
      split; [eapply invokeLengthCriterion_beam; eauto |].
      unfold lengthCriterion_beam.
      destruct (Z.leb_spec limit len) as [Hle | Hgt].
      * destruct s as [e w m]; cbn.
        split; [split; [intros _; right; exact Hle | reflexivity] |].
        split; [intros _; split; [intros _; exact Hle | reflexivity] |].
        split; reflexivity.
      * split; [split; [intros H; left; exact H | intros [H | H]; [exact H | lia]] |].
        split; [intros Hm; rewrite Hm; split; [discriminate | lia] |].
        split; reflexivity.
    + apply invokeLengthCriterion_finishedSum with (bi := bi); [assumption .. | lia].
    + intros Hfresh. apply Hexact.
      intros beam len s Hbeam Hlen Hs Hfinished.
      rewrite (Hfresh beam s Hbeam Hs) in Hfinished. discriminate.
  - intros Hfresh. split.
    + apply maxLengthStatement_fresh; assumption.
    + apply verifyMaxSeqLen_fresh; assumption.
Qed.

Lemma initData_noneFinished (batchSize beamWidth : SizeType32) :
  noneFinished (initData_finished batchSize beamWidth)
    (initData_batchSlots batchSize) batchSize beamWidth.
Proof.
  intros bi slot beam s _ _ _ Hs.
  apply lookup_In, repeat_spec in Hs. subst s. reflexivity.
Qed.

Lemma initData_wf (lens limits : list SizeType32) (batchSize beamWidth : SizeType32) :
  0 < batchSize -> 0 < beamWidth ->
  length limits = Z.to_nat (2 * batchSize) ->
  length lens = Z.to_nat (2 * batchSize * beamWidth) ->
  stopCriteriaBuffers_wf (initData_finished batchSize beamWidth)
    (initData_finishedSum batchSize) limits lens (initData_batchSlots batchSize)
    batchSize beamWidth.
Proof.
  intros Hbs Hbw Hlimits Hlens. unfold stopCriteriaBuffers_wf.
  unfold initData_finished, initData_finishedSum, initData_batchSlots, zrange.
  rewrite !repeat_length, !List.length_map, length_seq, Hlimits, Hlens.
  split; [exact Hbw |]. split; [lia |].
  split; [rewrite <- Z2Nat.inj_mul by lia; reflexivity |].
  split; [reflexivity |]. split; [reflexivity |].
  intros slot Hin. unfold activeSlots in Hin.
  apply list_elem_of_In, elem_of_take in Hin as (bi & Hbi & Hlt).
  rewrite lookup_map, lookup_map in Hbi.
  rewrite lookup_seq_lt in Hbi by exact Hlt. cbn in Hbi. injection Hbi as <-.
  lia.
Qed.

(** [runMaxLengthCriteriaTest] passes on the kernel model whatever lengths
    and limits [initData] draws. *)
Lemma runMaxLengthCriteriaTest_passes (lens limits : list SizeType32)
    (batchSize beamWidth : SizeType32) :
  0 < batchSize -> 0 < beamWidth ->
  length limits = Z.to_nat (2 * batchSize) ->
  length lens = Z.to_nat (2 * batchSize * beamWidth) ->
  runMaxLengthCriteriaTest lens limits batchSize beamWidth = true.
Proof.
  intros Hbs Hbw Hlimits Hlens. unfold runMaxLengthCriteriaTest.
  pose proof (verifyMaxSeqLen_fresh _ _ _ _ _ _ _
                (initData_wf lens limits batchSize beamWidth Hbs Hbw Hlimits Hlens)
                (initData_noneFinished batchSize beamWidth)) as Hverify.
  destruct (invokeLengthCriterion _ _ _ _ _ _ _) as [finished' finishedSum'].
  exact Hverify.
Qed.

(** C4 on the buffers of [maxLengthCriteriaBS1BW2Test] with lengths 3, 7 and
    limit 5 for the active slot 0: the second beam is marked, the
    finished-sum of the slot is 1, and the verification passes. *)
Lemma C4_max_length_criterion_witness :
  runMaxLengthCriteriaTest [3; 7; 1; 1] [5; 9] 1 2 = true
  /\ snd (invokeLengthCriterion (initData_finished 1 2) (initData_finishedSum 1)
            [5; 9] [3; 7; 1; 1] (initData_batchSlots 1) 1 2) !! 0%nat
     = Some 1
  /\ exists s',
       fst (invokeLengthCriterion (initData_finished 1 2) (initData_finishedSum 1)
              [5; 9] [3; 7; 1; 1] (initData_batchSlots 1) 1 2) !! 1%nat = Some s'
       /\ FinishedState.isFinishedMaxLength s' = true.
Proof.
  assert (Hwf : stopCriteriaBuffers_wf (initData_finished 1 2)
                  (initData_finishedSum 1) [5; 9] [3; 7; 1; 1]
                  (initData_batchSlots 1) 1 2).
  { unfold stopCriteriaBuffers_wf.
    split; [lia |]. split; [vm_compute; lia |]. split; [reflexivity |].
    split; [reflexivity |]. split; [reflexivity |].
    intros slot [<- | []]; vm_compute; split; congruence. }
  assert (Hfresh : noneFinished (initData_finished 1 2) (initData_batchSlots 1) 1 2).
  { intros bi slot beam s Hbi Hslot Hbeam Hs.
    apply lookup_In in Hs. cbn in Hs.
    destruct Hs as [<- | [<- | [<- | [<- | []]]]]; reflexivity. }
  assert (Hslot : slotFresh (initData_finished 1 2) 2 0).
  { intros beam s Hbeam Hs.
    apply lookup_In in Hs. cbn in Hs.
    destruct Hs as [<- | [<- | [<- | [<- | []]]]]; reflexivity. }
  destruct (C4_max_length_criterion (initData_finished 1 2) (initData_finishedSum 1)
              [5; 9] [3; 7; 1; 1] (initData_batchSlots 1) 1 2 Hwf)
    as [Hslots Hfreshly].
  destruct (Hfreshly Hfresh) as [_ Hverify].
  destruct (Hslots 0%nat 0%nat 5 ltac:(cbn; lia) eq_refl eq_refl)
    as (Hbeams & _ & _ & _ & Hsum).
  split; [exact Hverify |].
  split; [rewrite (Hsum Hslot); reflexivity |].
  destruct (Hbeams 1%nat 7 FinishedState.empty ltac:(cbn; lia) eq_refl eq_refl)
    as (s' & Hs' & Hiff & _).
  exists s'. split; [exact Hs' |].
  apply Hiff. right. lia.
Defined.

(** Reading backward from position [n] matches the reversed phrase exactly
    when the phrase is the tail of the first [n] tokens. *)
Lemma matchBackward_spec (tokens word : list TokenIdType) (n : nat) :
  (n <= length tokens)%nat ->
  matchBackward tokens n (rev word) = true
  <-> exists pre, take n tokens = pre ++ word
                  /\ (length pre + length word)%nat = n.
Proof.
  revert n. induction word as [| w word IH] using rev_ind; intros n Hn.
  - cbn. split; [intros _ | intros _; reflexivity].
    exists (take n tokens). rewrite app_nil_r. split; [reflexivity |].
    cbn. rewrite length_take. lia.
  - rewrite rev_app_distr. cbn [rev app matchBackward].
    destruct n as [| p].
    + split; [discriminate |]. intros (pre & _ & Hlen).
      rewrite length_app in Hlen. cbn in Hlen. lia.
    + destruct (lookup_lt_is_Some_2 tokens p ltac:(lia)) as [tok Htok].
      rewrite Htok, (take_S_r _ _ _ Htok). split.
      * intros H. apply andb_prop in H as [Heq Hrest].
        apply Z.eqb_eq in Heq. subst tok.
        apply IH in Hrest as (pre & Htake & Hlen); [| lia].
        exists pre. rewrite Htake, app_assoc. split; [reflexivity |].
        rewrite length_app. cbn. lia.
      * intros (pre & Htake & Hlen).
        rewrite app_assoc in Htake. apply app_inj_tail in Htake as [Htake ->].
        rewrite Z.eqb_refl. cbn [andb]. apply IH; [lia |].
        exists pre. split; [exact Htake |].
        rewrite length_app in Hlen. cbn in Hlen. lia.
Qed.

Lemma matchBackward_bound (tokens rword : list TokenIdType) (n : nat) :
  rword <> [] -> matchBackward tokens n rword = true -> (n <= length tokens)%nat.
Proof.
  destruct rword as [| w rword]; [congruence | intros _].
  destruct n as [| p]; cbn; [discriminate |].
  destruct (tokens !! p) eqn:Htok; [| discriminate]. intros _.
  apply lookup_lt_Some in Htok. lia.
Qed.

(** A non-empty phrase matches exactly when it occurs ending at the current
    length; an empty entry never matches. *)
Lemma matchesStopWord_spec (tokens word : list TokenIdType) (seqLen : SizeType32) :
  matchesStopWord tokens seqLen word = true
  <-> word <> [] /\ occursEndingAt tokens seqLen word.
Proof.
  unfold matchesStopWord, occursEndingAt. split.
  - intros H. apply andb_prop in H as [H Hmatch]. apply andb_prop in H as [Hne Hpos].
    assert (Hword : word <> []) by (destruct word; [discriminate | congruence]).
    split; [exact Hword |]. split; [apply Z.leb_le, Hpos |].
    apply matchBackward_spec; [| exact Hmatch].
    eapply matchBackward_bound; [| exact Hmatch].
    intros Hrev. apply Hword. apply (f_equal (@rev _)) in Hrev.
    rewrite rev_involutive in Hrev. exact Hrev.
  - intros (Hword & Hpos & pre & Htake & Hlen).
    assert (Hn : (Z.to_nat seqLen <= length tokens)%nat).
    { apply (f_equal length) in Htake.
      rewrite length_take, length_app in Htake. lia. }
    apply andb_true_intro. split; [apply andb_true_intro; split |].
    + destruct word; [congruence | reflexivity].
    + apply Z.leb_le, Hpos.
    + apply matchBackward_spec; [exact Hn |]. exists pre. split; assumption.
Qed.

(** The state of one beam of an active slot after the stop-words
    criterion. *)
Lemma invokeStopWordsCriterion_beam (outputIds : list TokenIdType)
    (stopWords : list (list (list TokenIdType)))
    (finished : list FinishedState.t) (lens batchSlots : list SizeType32)
    (batchSize beamWidth maxSeqLen : SizeType32) (bi slot beam : nat)
    (words : list (list TokenIdType)) (seqLen : SizeType32) (s : FinishedState.t) :
  (bi < Z.to_nat batchSize)%nat ->
  batchSlots !! bi = Some (Z.of_nat slot) ->
  (beam < Z.to_nat beamWidth)%nat ->
  stopWords !! slot = Some words ->
  lens !! (slot * Z.to_nat beamWidth + beam)%nat = Some seqLen ->
  finished !! (slot * Z.to_nat beamWidth + beam)%nat = Some s ->
  invokeStopWordsCriterion outputIds stopWords finished lens batchSlots batchSize
    beamWidth maxSeqLen !! (slot * Z.to_nat beamWidth + beam)%nat
  = Some (stopWordsCriterion_beam words
            (outputIdsOf outputIds (Z.to_nat maxSeqLen)
               (slot * Z.to_nat beamWidth + beam))
            seqLen s).
Proof.
  intros Hbi Hslot Hbeam Hwords Hlen Hs. unfold invokeStopWordsCriterion.
  rewrite list_lookup_imap, Hs. cbn.
  rewrite (beam_index_div _ _ _ Hbeam), (isActive_true _ _ _ _ Hbi Hslot).
  rewrite Hwords, Hlen. reflexivity.
Qed.

Lemma stopWordsCriterion_beam_marked (words : list (list TokenIdType))
    (tokens : list TokenIdType) (seqLen : SizeType32) (s : FinishedState.t) :
  FinishedState.isFinishedStopWords (stopWordsCriterion_beam words tokens seqLen s)
  = FinishedState.isFinishedStopWords s
    || existsb (matchesStopWord tokens seqLen) words.
Proof.
  unfold stopWordsCriterion_beam.
  destruct (existsb (matchesStopWord tokens seqLen) words); cbn.
  - rewrite orb_true_r. reflexivity.
  - rewrite orb_false_r. reflexivity.
Qed.

Lemma existsb_matchesStopWord (words : list (list TokenIdType))
    (tokens : list TokenIdType) (seqLen : SizeType32) :
  existsb (matchesStopWord tokens seqLen) words = true
  <-> exists word, In word words /\ word <> []
                   /\ occursEndingAt tokens seqLen word.
Proof.
  rewrite existsb_exists. split.
  - intros (word & Hin & Hm). apply matchesStopWord_spec in Hm. eauto.
  - intros (word & Hin & Hne & Hocc). exists word. split; [exact Hin |].
    apply matchesStopWord_spec. split; assumption.
Qed.

(** The seven stop-words tests of stopCriteriaKernelsTest.cpp pass on the
    kernel model. *)
Lemma stopWordsCriteriaTests_pass :
  runStopWordsCriteriaTest [[[2]]; [[2]]] 1 1 = true
  /\ runStopWordsCriteriaTest [[[145]; [4]; [1]; [15]]; [[]]] 1 1 = true
  /\ runStopWordsCriteriaTest [[[2; 3]]; [[]]] 1 1 = true
  /\ runStopWordsCriteriaTest [[[1; 4]; [2; 3]; [13; 14; 15]]; [[]]] 1 1 = true
  /\ runStopWordsCriteriaTest [[[1; 4]; [2; 3]; [12; 14; 15]]; [[]]] 1 1 = true
  /\ runStopWordsCriteriaTest
       [[[2]]; [[]]; [[]]; [[]]; [[15]; [12; 13]]; [[]]; [[1]; [8; 9]]; [[]]] 4 1
     = true
  /\ runStopWordsCriteriaTest
       [[[2]]; [[]]; [[]]; [[]]; [[11]; [12; 13]]; [[]]; [[27]; [11; 12]]; [[]]] 4 2
     = true.
Proof. repeat split; vm_compute; reflexivity. Qed.

Lemma runBeam_snoc (words : list (list TokenIdType)) (emitted : list TokenIdType)
    (tok : TokenIdType) :
  runBeam words (emitted ++ [tok]) = stepBeam words (runBeam words emitted) tok.
Proof. unfold runBeam. rewrite fold_left_app. reflexivity. Qed.

(** A beam that is not finished has emitted every token it was given. *)
Lemma runBeam_unfinished (words : list (list TokenIdType))
    (emitted : list TokenIdType) :
  FinishedState.isFinished (snd (runBeam words emitted)) = false ->
  fst (runBeam words emitted) = emitted.
Proof.
  induction emitted as [| tok emitted IH] using rev_ind; [reflexivity |].
  rewrite runBeam_snoc. destruct (runBeam words emitted) as [tokens s].
  unfold stepBeam. destruct (FinishedState.isFinished s) eqn:Hs.
  - cbn. intros H. rewrite H in Hs. discriminate.
  - cbn. intros _. cbn in IH. rewrite (IH Hs). reflexivity.
Qed.

Lemma stepBeam_unfinished (words : list (list TokenIdType))
    (emitted : list TokenIdType) (tok : TokenIdType) :
  FinishedState.isFinished (snd (runBeam words emitted)) = false ->
  runBeam words (emitted ++ [tok])
  = (emitted ++ [tok],
     stopWordsCriterion_beam words (emitted ++ [tok])
       (Z.of_nat (length (emitted ++ [tok]))) (snd (runBeam words emitted))).
Proof.
  intros Hs. rewrite runBeam_snoc.
  pose proof (runBeam_unfinished words emitted Hs) as Hfst.
  destruct (runBeam words emitted) as [tokens s]. cbn in Hs, Hfst. subst tokens.
  unfold stepBeam. rewrite Hs. reflexivity.
Qed.

(** A phrase whose last token differs from the token just appended does
    not match. *)
Lemma matchesStopWord_last_ne (emitted word : list TokenIdType)
    (tok last : TokenIdType) :
  tok <> last ->
  matchesStopWord (emitted ++ [tok]) (Z.of_nat (length (emitted ++ [tok])))
    (word ++ [last]) = false.
Proof.
  intros Hne. unfold matchesStopWord. rewrite Nat2Z.id, rev_app_distr.
  rewrite !length_app. cbn [length rev app]. rewrite !Nat.add_1_r.
  cbn [matchBackward]. rewrite list_lookup_middle by reflexivity.
  destruct (Z.eqb_spec tok last) as [E | _]; [congruence |].
  cbn. rewrite andb_false_r. reflexivity.
Qed.

(** A phrase just emitted in full matches. *)
Lemma matchesStopWord_tail (emitted word : list TokenIdType) :
  word <> [] ->
  matchesStopWord (emitted ++ word) (Z.of_nat (length (emitted ++ word))) word = true.
Proof.
  intros Hne. apply matchesStopWord_spec. split; [exact Hne |].
  split; [lia |]. exists emitted. rewrite Nat2Z.id. split.
  - apply take_ge. lia.
  - rewrite length_app. reflexivity.
Qed.

(** The phrase {13,14,15}: the beam finishes at the step that appends 15,
    not at the steps that append 13 and 14. *)
Lemma stop_phrase_13_14_15 (emitted : list TokenIdType) :
  FinishedState.isFinished (snd (runBeam [[13; 14; 15]] emitted)) = false ->
  FinishedState.isFinished (snd (runBeam [[13; 14; 15]] (emitted ++ [13]))) = false
  /\ FinishedState.isFinished (snd (runBeam [[13; 14; 15]] (emitted ++ [13; 14])))
     = false
  /\ FinishedState.isFinishedStopWords
       (snd (runBeam [[13; 14; 15]] (emitted ++ [13; 14; 15]))) = true
  /\ fst (runBeam [[13; 14; 15]] (emitted ++ [13; 14; 15])) = emitted ++ [13; 14; 15].
Proof.
  intros H0.
  assert (H1 : FinishedState.isFinished
                 (snd (runBeam [[13; 14; 15]] (emitted ++ [13]))) = false).
  { rewrite (stepBeam_unfinished _ _ _ H0). cbn [snd].
    unfold stopWordsCriterion_beam. cbn [existsb].
    pose proof (matchesStopWord_last_ne emitted [13; 14] 13 15 ltac:(lia)) as E.
    cbn [app] in E. rewrite E. exact H0. }
  assert (H2 : FinishedState.isFinished
                 (snd (runBeam [[13; 14; 15]] ((emitted ++ [13]) ++ [14]))) = false).
  { rewrite (stepBeam_unfinished _ _ _ H1). cbn [snd].
    unfold stopWordsCriterion_beam. cbn [existsb].
    pose proof (matchesStopWord_last_ne (emitted ++ [13]) [13; 14] 14 15
                  ltac:(lia)) as E.
    cbn [app] in E. rewrite E. exact H1. }
  split; [exact H1 |].
  replace (emitted ++ [13; 14]) with ((emitted ++ [13]) ++ [14])
    by (rewrite <- app_assoc; reflexivity).
  split; [exact H2 |].
  replace (emitted ++ [13; 14; 15]) with (((emitted ++ [13]) ++ [14]) ++ [15])
    by (rewrite <- !app_assoc; reflexivity).
  rewrite (stepBeam_unfinished _ _ _ H2). cbn [fst snd]. split; [| reflexivity].
  rewrite stopWordsCriterion_beam_marked. cbn [existsb].
  replace (((emitted ++ [13]) ++ [14]) ++ [15]) with (emitted ++ [13; 14; 15])
    by (rewrite <- !app_assoc; reflexivity).
  rewrite matchesStopWord_tail by discriminate.
  rewrite orb_true_r. reflexivity.
Qed.

(** Along a run of a beam from the empty history, after every step the
    beam is marked finished-by-stop-words exactly when a stop phrase ends at
    its current length. *)
Lemma runBeam_marked_iff (words : list (list TokenIdType))
    (emitted : list TokenIdType) :
  let tokens := fst (runBeam words emitted) in
  FinishedState.isFinishedStopWords (snd (runBeam words emitted)) = true
  <-> exists word, In word words /\ word <> []
                   /\ occursEndingAt tokens (Z.of_nat (length tokens)) word.
Proof.
  cbn zeta. induction emitted as [| tok emitted IH] using rev_ind.
  - cbn. split; [discriminate |].
    intros (word & _ & Hne & _ & pre & Htake & _).
    rewrite take_nil in Htake.
    destruct pre, word; cbn in Htake; congruence.
  - rewrite runBeam_snoc. destruct (runBeam words emitted) as [tokens s].
    unfold stepBeam. destruct (FinishedState.isFinished s) eqn:Hs; [exact IH |].
    cbn [fst snd]. rewrite stopWordsCriterion_beam_marked.
    destruct (not_finished_flags s Hs) as (_ & Hw & _).
    unfold FinishedState.isFinishedStopWords in Hw |- *. rewrite Hw. cbn [orb].
    apply existsb_matchesStopWord.
Qed.

(** C5. The stop-words criterion, for every beam of every active slot.
    The criterion marks the beam finished-by-stop-words if and only if one
    of the slot's stop phrases occurs in the emitted tokens as a contiguous
    subsequence ending exactly at the current sequence length (an empty
    entry of the stop-word list configures no phrase): the mark is set
    afterwards exactly when it was set before or such a phrase occurs, so for
    a beam that arrives unmarked it is set exactly when a phrase occurs, and
    along a run of a beam from its empty history the mark is set after each
    step exactly when a phrase ends at the current length.  A beam that
    matches no phrase keeps its state, so one that was not finished remains
    not finished.  With the phrase {13,14,15} a beam finishes exactly at the
    step that appends 15, not at the steps that append 13 and 14. *)
Theorem C5_stop_words_criterion (outputIds : list TokenIdType)
    (stopWords : list (list (list TokenIdType)))
    (finished : list FinishedState.t) (lens batchSlots : list SizeType32)
    (batchSize beamWidth maxSeqLen : SizeType32) (bi slot beam : nat)
    (words : list (list TokenIdType)) (seqLen : SizeType32) (s : FinishedState.t) :
  (bi < Z.to_nat batchSize)%nat ->
  batchSlots !! bi = Some (Z.of_nat slot) ->
  (beam < Z.to_nat beamWidth)%nat ->
  stopWords !! slot = Some words ->
  lens !! (slot * Z.to_nat beamWidth + beam)%nat = Some seqLen ->
  finished !! (slot * Z.to_nat beamWidth + beam)%nat = Some s ->
  let j := (slot * Z.to_nat beamWidth + beam)%nat in
  let tokens := outputIdsOf outputIds (Z.to_nat maxSeqLen) j in
  let phraseOccurs :=
    exists word, In word words /\ word <> [] /\ occursEndingAt tokens seqLen word in
  (exists s',
     invokeStopWordsCriterion outputIds stopWords finished lens batchSlots
       batchSize beamWidth maxSeqLen !! j = Some s'
     /\ (FinishedState.isFinishedStopWords s' = true
         <-> FinishedState.isFinishedStopWords s = true \/ phraseOccurs)
     /\ (FinishedState.isFinishedStopWords s = false ->
         (FinishedState.isFinishedStopWords s' = true <-> phraseOccurs))
     /\ (~ phraseOccurs ->
         s' = s
         /\ (FinishedState.isFinished s = false ->
             FinishedState.isFinished s' = false)))
  /\ (forall emitted,
        let history := fst (runBeam words emitted) in
        FinishedState.isFinishedStopWords (snd (runBeam words emitted)) = true
        <-> exists word, In word words /\ word <> []
              /\ occursEndingAt history (Z.of_nat (length history)) word)
  /\ (forall emitted,
        FinishedState.isFinished (snd (runBeam [[13; 14; 15]] emitted)) = false ->
        FinishedState.isFinished (snd (runBeam [[13; 14; 15]] (emitted ++ [13])))
        = false
        /\ FinishedState.isFinished
             (snd (runBeam [[13; 14; 15]] (emitted ++ [13; 14]))) = false
        /\ FinishedState.isFinishedStopWords
             (snd (runBeam [[13; 14; 15]] (emitted ++ [13; 14; 15]))) = true).
Proof.
  intros Hbi Hslot Hbeam Hwords Hlen Hs. cbn zeta.
  split; [| split; [apply runBeam_marked_iff |]].
  - eexists. split; [eapply invokeStopWordsCriterion_beam; eauto |].
    rewrite stopWordsCriterion_beam_marked.
    pose proof (existsb_matchesStopWord words
                  (outputIdsOf outputIds (Z.to_nat maxSeqLen)
                     (slot * Z.to_nat beamWidth + beam)) seqLen) as Hex.
    split; [| split].
    + rewrite orb_true_iff, Hex. reflexivity.
    + intros Hunmarked. rewrite Hunmarked. cbn [orb]. exact Hex.
    + intros Hnone.
      destruct (existsb _ words) eqn:Hmatch.
      * exfalso. apply Hnone, Hex. reflexivity.
      * unfold stopWordsCriterion_beam. rewrite Hmatch.
        split; [reflexivity | tauto].
  - intros emitted H0.
    destruct (stop_phrase_13_14_15 emitted H0) as (H1 & H2 & H3 & _).
    repeat split; assumption.
Qed.

(** C5 on [stopWordsCriteriaBS1MultipleTokensMultipleWordsMatchTest]: the
    sixteen tokens 0..15 of slot 0 end in the phrase {13,14,15}. *)
Lemma C5_stop_words_criterion_witness :
  exists s',
    invokeStopWordsCriterion (initData_outputIds 1 1)
      [[[1; 4]; [2; 3]; [13; 14; 15]]; [[]]] (initData_finished 1 1)
      (initData_sequenceLengths 1 1) (initData_batchSlots 1) 1 1 mMaxSeqLen
      !! 0%nat = Some s'
    /\ FinishedState.isFinishedStopWords s' = true.
Proof.
  destruct (C5_stop_words_criterion (initData_outputIds 1 1)
              [[[1; 4]; [2; 3]; [13; 14; 15]]; [[]]] (initData_finished 1 1)
              (initData_sequenceLengths 1 1) (initData_batchSlots 1) 1 1 mMaxSeqLen
              0%nat 0%nat 0%nat [[1; 4]; [2; 3]; [13; 14; 15]] 16
              FinishedState.empty
              ltac:(vm_compute; lia) eq_refl ltac:(vm_compute; lia)
              eq_refl eq_refl eq_refl)
    as [(s' & Hlookup & _ & Hiff & _) _].
  exists s'. split; [exact Hlookup |].
  apply (Hiff eq_refl). exists [13; 14; 15].
  split; [right; right; left; reflexivity |]. split; [discriminate |].
  split; [lia |].
  exists [0; 1; 2; 3; 4; 5; 6; 7; 8; 9; 10; 11; 12]. split; reflexivity.
Defined.

(** * Further properties of the code *)

(** ** Decoding modes, the stage factory and the sampling layer's constructor *)

Lemma land_low2 (x k : Z) :
  Z.land 3 k = k -> Z.land x k = Z.land (x mod 4) k.
Proof.
  intros Hk. rewrite <- Hk at 1. rewrite Z.land_assoc.
  change 3 with (Z.ones 2). rewrite Z.land_ones by lia. reflexivity.
Qed.

Lemma mod4_cases (x : Z) :
  x mod 4 = 0 \/ x mod 4 = 1 \/ x mod 4 = 2 \/ x mod 4 = 3.
Proof. pose proof (Z.mod_pos_bound x 4). lia. Qed.

(** X1. For every state of the mode byte, [isTopKandTopP] holds exactly when
    both [isTopK] and [isTopP] hold, and [isTopKorTopP] exactly when one of
    them does; so a mode that is top-k and top-p is top-k or top-p. *)
Theorem X1_isTopKandTopP_andb (m : DecodingMode.t) :
  DecodingMode.isTopKandTopP m = DecodingMode.isTopK m && DecodingMode.isTopP m
  /\ DecodingMode.isTopKorTopP m = DecodingMode.isTopK m || DecodingMode.isTopP m
  /\ (DecodingMode.isTopKandTopP m = true -> DecodingMode.isTopKorTopP m = true).
Proof.
  assert (Hand : DecodingMode.isTopKandTopP m
                 = DecodingMode.isTopK m && DecodingMode.isTopP m).
  { unfold DecodingMode.isTopKandTopP, DecodingMode.isTopK, DecodingMode.isTopP,
      DecodingMode.allBitSet, DecodingMode.anyBitSet.
    change DecodingMode.kTopKTopP with 3.
    change DecodingMode.kTopK with 1.
    change DecodingMode.kTopP with 2.
    rewrite (land_low2 (DecodingMode.mState m) 3 eq_refl),
      (land_low2 (DecodingMode.mState m) 1 eq_refl),
      (land_low2 (DecodingMode.mState m) 2 eq_refl).
    destruct (mod4_cases (DecodingMode.mState m)) as [-> | [-> | [-> | ->]]];
      reflexivity. }
  pose proof (DecodingModeFacts.isTopKorTopP_orb m) as Hor.
  split; [exact Hand |]. split; [exact Hor |].
  rewrite Hand, Hor. intros H. apply andb_true_iff in H as [-> _]. reflexivity.
Qed.

(** X2. [fromExecutor] maps the six executor modes one-to-one onto the six
    modes the named factories build and throws for any other value; building
    the layers of the mode it returns fails for [kNONE] only. *)
Theorem X2_fromExecutor :
  (forall e m, fromExecutor e = Ok m -> DecodingMode.constructible m)
  /\ (forall m, DecodingMode.constructible m -> exists e, fromExecutor e = Ok m)
  /\ (forall e1 e2 m1 m2,
        fromExecutor e1 = Ok m1 -> fromExecutor e2 = Ok m2 ->
        DecodingMode_eqb m1 m2 = true -> e1 = e2)
  /\ (forall underlying, raises (fromExecutor (kOTHER underlying)))
  /\ (forall e m, fromExecutor e = Ok m ->
        (raises (createLayers m) <-> e = kNONE)).
Proof.
  split.
  { intros e m H. unfold DecodingMode.constructible.
    destruct e; cbn in H; try discriminate; injection H as <-; tauto. }
  split.
  { intros m [-> | [-> | [-> | [-> | [-> | ->]]]]];
      [exists kNONE | exists kTOP_K | exists kTOP_P | exists kTOP_K_TOP_P
       | exists kBEAM_SEARCH | exists kMEDUSA]; reflexivity. }
  split.
  { intros e1 e2 m1 m2 H1 H2 Heq.
    destruct e1; cbn in H1; try discriminate; injection H1 as <-;
      destruct e2; cbn in H2; try discriminate; injection H2 as <-;
      try reflexivity; discriminate Heq. }
  split.
  { intros underlying. eexists. reflexivity. }
  intros e m H.
  destruct e; cbn in H; try discriminate; injection H as <-; split;
    try (intros _; eexists; reflexivity);
    try reflexivity;
    try discriminate;
    intros [msg Hr]; discriminate Hr.
Qed.

(** X3. The constructor of [SamplingLayer] rejects every mode with the
    beam-search bit, with the beam-search message, and every other mode that
    has neither the top-k nor the top-p bit.  When it returns, the sub-layers
    are the top-k layer if the mode is top-k followed by the top-p layer if
    the mode is top-p: one or two sub-layers, never none.  Of the six modes
    the factories build it accepts TopK, TopP and TopKTopP only. *)
Theorem X3_SamplingLayer_new (mode : DecodingMode.t) :
  (DecodingMode.isBeamSearch mode = true ->
   SamplingLayer_new mode
   = TllmException "SamplingLayer does not support Beam search mode")
  /\ (DecodingMode.isBeamSearch mode = false ->
      DecodingMode.isTopK mode = false -> DecodingMode.isTopP mode = false ->
      SamplingLayer_new mode
      = TllmException "SamplingLayer requires TopK nor TopP mode")
  /\ (forall layers, SamplingLayer_new mode = Ok layers ->
        DecodingMode.isBeamSearch mode = false
        /\ layers = (if DecodingMode.isTopK mode then [TopKSamplingLayer] else [])
                    ++ (if DecodingMode.isTopP mode then [TopPSamplingLayer] else [])
        /\ (1 <= length layers <= 2)%nat)
  /\ (DecodingMode.constructible mode ->
      (isOk (SamplingLayer_new mode) = true
       <-> mode = DecodingMode.TopK \/ mode = DecodingMode.TopP
           \/ mode = DecodingMode.TopKTopP)).
Proof.
  pose proof (DecodingModeFacts.isTopKorTopP_orb mode) as Hor.
  unfold SamplingLayer_new. rewrite Hor.
  refine (conj _ (conj _ (conj _ _))).
  - intros ->. reflexivity.
  - intros -> -> ->. reflexivity.
  - intros layers.
    destruct (DecodingMode.isBeamSearch mode); [discriminate |].
    destruct (DecodingMode.isTopK mode), (DecodingMode.isTopP mode);
      cbn; intros H; try discriminate; injection H as <-;
      (split; [reflexivity | split; [reflexivity | cbn; lia]]).
  - clear Hor.
    intros [-> | [-> | [-> | [-> | [-> | ->]]]]]; cbn; split;
      try (intros _; tauto); try discriminate; try reflexivity;
      intros [H | [H | H]]; discriminate H.
Qed.

Lemma fold_left_max_ge (sizes : list Z) (acc : Z) :
  acc <= fold_left (fun m size => Z.max m size) sizes acc
  /\ forall size, In size sizes ->
       size <= fold_left (fun m size => Z.max m size) sizes acc.
Proof.
  revert acc. induction sizes as [| s sizes IH]; intros acc; cbn [fold_left].
  - split; [lia | intros size []].
  - destruct (IH (Z.max acc s)) as [Hacc Hin]. split; [lia |].
    intros size [<- | H]; [lia | apply Hin, H].
Qed.

Lemma fold_left_max_In (sizes : list Z) (acc : Z) :
  fold_left (fun m size => Z.max m size) sizes acc = acc
  \/ In (fold_left (fun m size => Z.max m size) sizes acc) sizes.
Proof.
  revert acc. induction sizes as [| s sizes IH]; intros acc; cbn [fold_left].
  - left. reflexivity.
  - destruct (IH (Z.max acc s)) as [E | Hin].
    + rewrite E. destruct (Z.max_spec acc s) as [[_ ->] | [_ ->]];
        [right; left; reflexivity | left; reflexivity].
    + right. right. exact Hin.
Qed.

(** X4. The workspace [allocateBuffer] sizes is shared by the sub-layers: it
    is at least as large as each sub-layer asks for, and no larger than the
    most demanding one asks for (0 when there is no sub-layer). *)
Theorem X4_allocateBuffer_mWorkspaceSize (workspaceSizes : list Z) :
  (forall size, In size workspaceSizes ->
                size <= allocateBuffer_mWorkspaceSize workspaceSizes)
  /\ 0 <= allocateBuffer_mWorkspaceSize workspaceSizes
  /\ (allocateBuffer_mWorkspaceSize workspaceSizes = 0
      \/ In (allocateBuffer_mWorkspaceSize workspaceSizes) workspaceSizes).
Proof.
  unfold allocateBuffer_mWorkspaceSize.
  destruct (fold_left_max_ge workspaceSizes 0) as [H0 Hin].
  split; [exact Hin |]. split; [exact H0 |].
  apply fold_left_max_In.
Qed.

(** X5. The mode the decode-layer test picks is always one the stage factory
    accepts: beam width 1 gives the four sampling stages, or the three
    speculative stages when Medusa is requested; any other beam width gives
    the four stages built for beam search, whether Medusa is requested or
    not.  The sampling layer itself can be constructed for that mode exactly
    when the beam width is 1 and Medusa is not requested, and then has both
    sub-layers. *)
Theorem X5_allocateData_decodingMode (mBeamWidth : SizeType32) (mUseMedusa : bool) :
  let mode := allocateData_decodingMode mBeamWidth mUseMedusa in
  DecodingMode.constructible mode
  /\ (exists layers,
        createLayers mode = Ok layers
        /\ map layerKind layers
           = (if (mBeamWidth =? 1) && mUseMedusa
              then speculativeStages else samplingOrBeamStages)
        /\ List.Forall (fun layer => layerMode layer = mode) layers)
  /\ (DecodingMode.isBeamSearch mode = negb (mBeamWidth =? 1))
  /\ ((mBeamWidth =? 1) && negb mUseMedusa = true ->
      SamplingLayer_new mode = Ok [TopKSamplingLayer; TopPSamplingLayer])
  /\ ((mBeamWidth =? 1) && negb mUseMedusa = false ->
      raises (SamplingLayer_new mode)).
Proof.
  unfold allocateData_decodingMode, DecodingMode.constructible.
  destruct (mBeamWidth =? 1), mUseMedusa; cbn;
    (split; [tauto |]);
    (split; [eexists; split; [reflexivity |];
             split; [reflexivity | repeat constructor] |]);
    (split; [reflexivity |]);
    split; intros H; try discriminate H; try reflexivity;
    eexists; reflexivity.
Qed.

(** ** The constructor of a sampling config from an executor request *)

Lemma SamplingConfig_fromExecutor_field (f : Field) (request : ExecutorRequest) :
  field_get f (SamplingConfig_fromExecutor (fst request) (snd request))
  = SET_FROM_OPTIONAL (executor_get f request).
Proof. destruct request as [samplingConfig [spec |]], f; reflexivity. Qed.

Lemma SamplingConfig_fromExecutor_singleRequest (request : ExecutorRequest) :
  singleRequest (SamplingConfig_fromExecutor (fst request) (snd request)).
Proof.
  intros f v Hf. rewrite SamplingConfig_fromExecutor_field in Hf.
  destruct (executor_get f request); cbn in Hf; [| discriminate].
  injection Hf as <-. reflexivity.
Qed.

(** X6. The config built from an executor request is a single-request
    config: it has the request's beam width, every tunable field the request
    sets holds exactly that one value, every field the request leaves unset
    is absent, and the Medusa top-k list and [normalizeLogProbs] are always
    absent. *)
Theorem X6_SamplingConfig_fromExecutor (samplingConfig : executor.SamplingConfig)
    (specDecodingConfig : option executor.SpeculativeDecodingConfig) :
  let c := SamplingConfig_fromExecutor samplingConfig specDecodingConfig in
  singleRequest c
  /\ beamWidth c = executor.getBeamWidth samplingConfig
  /\ topKMedusaHeads c = None
  /\ normalizeLogProbs c = None
  /\ (forall f x, executor_get f (samplingConfig, specDecodingConfig) = Some x ->
                  field_get f c = Some [x])
  /\ (forall f, executor_get f (samplingConfig, specDecodingConfig) = None ->
                field_get f c = None).
Proof.
  intros c.
  split; [exact (SamplingConfig_fromExecutor_singleRequest
                   (samplingConfig, specDecodingConfig)) |].
  split; [reflexivity |]. split; [reflexivity |]. split; [reflexivity |].
  split.
  - intros f x Hx. unfold c.
    pose proof (SamplingConfig_fromExecutor_field f (samplingConfig, specDecodingConfig))
      as E.
    cbn [fst snd] in E. rewrite E, Hx. reflexivity.
  - intros f Hx. unfold c.
    pose proof (SamplingConfig_fromExecutor_field f (samplingConfig, specDecodingConfig))
      as E.
    cbn [fst snd] in E. rewrite E, Hx. reflexivity.
Qed.

Lemma fusedField_SET_FROM_OPTIONAL {A T : Type} (g : A -> option T) (l : list A) (d : T) :
  fusedField (map (fun a => SET_FROM_OPTIONAL (g a)) l) d
  = if existsb (fun a => has_value (g a)) l
    then Some (map (fun a => default d (g a)) l)
    else None.
Proof.
  unfold fusedField.
  rewrite (existsb_has_value_map (fun a => SET_FROM_OPTIONAL (g a))).
  assert (Hex : existsb (fun a => has_value (SET_FROM_OPTIONAL (g a))) l
                = existsb (fun a => has_value (g a)) l).
  { induction l as [| a l IH]; [reflexivity |].
    cbn [existsb]. rewrite IH. destruct (g a); reflexivity. }
  rewrite Hex. clear Hex.
  destruct (existsb (fun a => has_value (g a)) l); [| reflexivity].
  f_equal. rewrite List.map_map.
  induction l as [| a l IH]; [reflexivity |].
  cbn [map]. rewrite IH. destruct (g a); reflexivity.
Qed.

(** X7. Fusing the configs of any non-empty list of executor requests never
    raises.  The fused config has the first request's beam width; a tunable
    field that no request sets is absent, and one that some request sets
    holds, per request and in order, the request's value or the field's
    default; the Medusa top-k list and [normalizeLogProbs] are absent. *)
Theorem X7_fuse_fromExecutor (D : DefaultDecodingParams.t)
    (requests : list ExecutorRequest) :
  requests <> [] ->
  exists fused,
    SamplingConfig_fuse D
      (map (fun r => SamplingConfig_fromExecutor (fst r) (snd r)) requests)
    = Ok fused
    /\ (forall r rest, requests = r :: rest ->
          beamWidth fused = executor.getBeamWidth (fst r))
    /\ (forall f,
          field_get f fused
          = if existsb (fun r => has_value (executor_get f r)) requests
            then Some (map (fun r => default (field_default D f) (executor_get f r))
                         requests)
            else None)
    /\ topKMedusaHeads fused = None
    /\ normalizeLogProbs fused = None.
Proof.
  intros Hne.
  set (configs := map (fun r => SamplingConfig_fromExecutor (fst r) (snd r)) requests).
  assert (Hne' : configs <> []) by (unfold configs; destruct requests; [congruence | discriminate]).
  assert (Hall : List.Forall singleRequest configs).
  { unfold configs. apply List.Forall_forall. intros c Hin.
    apply in_map_iff in Hin as (r & <- & _).
    apply SamplingConfig_fromExecutor_singleRequest. }
  assert (Hfield : forall f,
            field_get f (fusedConfig D configs)
            = if existsb (fun r => has_value (executor_get f r)) requests
              then Some (map (fun r => default (field_default D f) (executor_get f r))
                           requests)
              else None).
  { intros f. rewrite field_get_fusedConfig. unfold configs.
    rewrite List.map_map.
    rewrite (map_ext _ (fun r => SET_FROM_OPTIONAL (executor_get f r)))
      by (intros r; apply SamplingConfig_fromExecutor_field).
    apply fusedField_SET_FROM_OPTIONAL. }
  exists (fusedConfig D configs).
  split; [apply SamplingConfig_fuse_ok; assumption |].
  split; [intros r rest ->; reflexivity |].
  split; [exact Hfield |].
  split.
  - unfold fusedConfig. cbn [topKMedusaHeads].
    apply fusedField_absent. intros c Hin. unfold configs in Hin.
    apply in_map_iff in Hin as (r & <- & _). reflexivity.
  - destruct requests as [| r rest]; [congruence | reflexivity].
Qed.

(** X7 on two requests: top-k is set by the first only, the temperature and
    the acceptance threshold by the second only, the top-p by none. *)
Lemma X7_fuse_fromExecutor_witness :
  exists fused,
    SamplingConfig_fuse exampleDefaults
      (map (fun r => SamplingConfig_fromExecutor (fst r) (snd r))
         [executorRequestA; executorRequestB])
    = Ok fused
    /\ beamWidth fused = 1
    /\ topK fused = Some [5; 0]
    /\ temperature fused = Some [float_one; float_one]
    /\ draftAcceptanceThreshold fused = Some [float_zero; float_zero]
    /\ topP fused = None.
Proof.
  destruct (X7_fuse_fromExecutor exampleDefaults [executorRequestA; executorRequestB]
              ltac:(discriminate))
    as (fused & Hok & Hbw & Hf & _).
  exists fused. split; [exact Hok |].
  split; [exact (Hbw _ _ eq_refl) |].
  split; [exact (Hf F_topK) |].
  split; [exact (Hf F_temperature) |].
  split; [exact (Hf F_draftAcceptanceThreshold) |].
  exact (Hf F_topP).
Defined.

Lemma fusedField_single {T : Type} (o : OptVec T) (d : T) :
  (forall v, o = Some v -> length v = 1%nat) -> fusedField [o] d = o.
Proof.
  intros H. destruct o as [v |]; [| reflexivity].
  destruct (length_one_inv v (H v eq_refl)) as [x ->]. reflexivity.
Qed.

(** X8. Fusing a batch of one is the identity: the constructor, given the
    one-element list of a single-request config, returns that very config. *)
Theorem X8_fuse_singleton (D : DefaultDecodingParams.t) (c : SamplingConfig) :
  singleRequest c -> SamplingConfig_fuse D [c] = Ok c.
Proof.
  intros Hc.
  assert (Hall : List.Forall singleRequest [c]) by (repeat constructor; exact Hc).
  rewrite (SamplingConfig_fuse_ok D [c] ltac:(discriminate) Hall).
  f_equal. unfold fusedConfig. cbn [map hd].
  rewrite (fusedField_single _ _ (Hc F_temperature)).
  rewrite (fusedField_single _ _ (Hc F_minLength)).
  rewrite (fusedField_single _ _ (Hc F_repetitionPenalty)).
  rewrite (fusedField_single _ _ (Hc F_presencePenalty)).
  rewrite (fusedField_single _ _ (Hc F_frequencyPenalty)).
  rewrite (fusedField_single _ _ (Hc F_topK)).
  rewrite (fusedField_single _ _ (Hc F_topP)).
  rewrite (fusedField_single _ _ (Hc F_randomSeed)).
  rewrite (fusedField_single _ _ (Hc F_topPDecay)).
  rewrite (fusedField_single _ _ (Hc F_topPMin)).
  rewrite (fusedField_single _ _ (Hc F_topPResetIds)).
  rewrite (fusedField_single _ _ (Hc F_beamSearchDiversityRate)).
  rewrite (fusedField_single _ _ (Hc F_lengthPenalty)).
  rewrite (fusedField_single _ _ (Hc F_earlyStopping)).
  rewrite (fusedField_single _ _ (Hc F_draftAcceptanceThreshold)).
  rewrite (fusedField_single _ _ (Hc F_topKMedusaHeads)).
  destruct c; reflexivity.
Qed.

Lemma requestA_singleRequest : singleRequest requestA.
Proof.
  intros f v Hf. destruct f; cbn in Hf; try discriminate;
    injection Hf as <-; reflexivity.
Qed.

(** X8 on the request that sets top-k and a seed. *)
Lemma X8_fuse_singleton_witness :
  SamplingConfig_fuse exampleDefaults [requestA] = Ok requestA.
Proof. exact (X8_fuse_singleton exampleDefaults requestA requestA_singleRequest). Defined.

(** X9. A fused config is not a request: when the fusion of two or more
    configs returns a config in which some tunable field is present, every
    list of configs that contains this fused config makes the constructor
    raise. *)
Theorem X9_fuse_of_fused_raises (D : DefaultDecodingParams.t)
    (configs : list SamplingConfig) (fused : SamplingConfig) (f : Field)
    (others : list SamplingConfig) :
  SamplingConfig_fuse D configs = Ok fused ->
  (2 <= length configs)%nat ->
  specifies f fused ->
  In fused others ->
  raises (SamplingConfig_fuse D others).
Proof.
  intros Hok Hlen Hspec Hin.
  destruct (Result_cases (SamplingConfig_fuse D others)) as [[refused Hre] | Hr];
    [exfalso | exact Hr].
  pose proof (SamplingConfig_fuse_Ok_inv D configs fused Hok) as [Hne Hall].
  rewrite (SamplingConfig_fuse_ok D configs Hne Hall) in Hok.
  injection Hok as <-.
  apply SamplingConfig_fuse_Ok_inv in Hre as [_ Hothers].
  unfold specifies in Hspec.
  destruct (field_get f (fusedConfig D configs)) as [values |] eqn:Hf; [| congruence].
  pose proof (singleRequest_field others f Hothers _ values Hin Hf) as Hone.
  rewrite field_get_fusedConfig in Hf.
  apply fusedField_length in Hf. rewrite List.length_map in Hf. lia.
Qed.

(** X9 on the fusion of two requests, whose top-k has two entries. *)
Lemma X9_fuse_of_fused_raises_witness :
  raises (SamplingConfig_fuse exampleDefaults
            [fusedConfig exampleDefaults [requestA; requestB]; requestB]).
Proof.
  apply (X9_fuse_of_fused_raises exampleDefaults [requestA; requestB]
           (fusedConfig exampleDefaults [requestA; requestB]) F_topK).
  - reflexivity.
  - cbn. lia.
  - discriminate.
  - left. reflexivity.
Defined.

(** ** The oracle of the stop-words test and the size of the words tables *)

Lemma list_eqb_eq (a b : list Z) : list_eqb a b = true <-> a = b.
Proof.
  unfold list_eqb. revert b.
  induction a as [| x a IH]; intros [| y b]; cbn; split; intros H;
    try reflexivity; try discriminate.
  - apply andb_true_iff in H as [Hlen H].
    apply andb_true_iff in H as [Hxy H].
    apply Z.eqb_eq in Hxy. subst y. f_equal.
    apply IH. rewrite Hlen, H. reflexivity.
  - injection H as -> ->.
    destruct (proj2 (IH b) eq_refl). rewrite Z.eqb_refl.
    apply (proj2 (IH b) eq_refl).
Qed.

(** X11. [verifyStopWordsStopCriteriaResults] hands [isSubsequence] a window
    that is exactly as long as the stop word.  On such a window the search
    is an equality test: the word is found exactly when it is not empty and
    the window holds the very tokens of the word; an empty word is never
    found. *)
Theorem X11_isSubsequence_window (window word : list Z) :
  length window = length word ->
  (isSubsequence window (length word) word = true
   <-> word <> [] /\ window = word).
Proof.
  intros Hlen. unfold isSubsequence.
  destruct word as [| w word].
  - cbn. split; [discriminate | intros [H _]; congruence].
  - cbn [length seq existsb]. rewrite Nat.add_0_l, Nat.leb_refl. cbn [andb drop].
    change (drop 0 window) with window. cbn [length] in Hlen.
    replace (take (S (length word)) window) with window
      by (rewrite <- Hlen; symmetry; apply firstn_all).
    assert (Hrest : existsb
              (fun i => (i + S (length word) <=? S (length word))%nat
                        && list_eqb (take (S (length word)) (drop i window)) (w :: word))
              (seq 1 (length word)) = false).
    { apply not_true_is_false. intros H.
      apply existsb_exists in H as (i & Hin & H).
      apply in_seq in Hin. apply andb_true_iff in H as [H _].
      apply Nat.leb_le in H. lia. }
    rewrite Hrest, orb_false_r, list_eqb_eq.
    split; [intros ->; split; [discriminate | reflexivity] | tauto].
Qed.

(** X11 on the three-token stop word of the matching test. *)
Lemma X11_isSubsequence_window_witness :
  isSubsequence [13; 14; 15] (length [13; 14; 15]) [13; 14; 15] = true
  <-> [13; 14; 15] <> [] /\ [13; 14; 15] = [13; 14; 15].
Proof. exact (X11_isSubsequence_window [13; 14; 15] [13; 14; 15] eq_refl). Defined.

Lemma fold_left_lengths (batchWords : list (list TokenIdType)) (acc : Z) :
  fold_left (fun wordsLen words => wordsLen + Z.of_nat (length words)) batchWords acc
  = acc + Z.of_nat (length (concat batchWords)).
Proof.
  revert acc. induction batchWords as [| w l IH]; intros acc; cbn [fold_left concat].
  - cbn. lia.
  - rewrite IH, List.length_app. lia.
Qed.

Lemma wordsLenOf_spec (batchWords : list (list TokenIdType)) :
  Z.of_nat (length (concat batchWords)) <= wordsLenOf batchWords
  /\ (length (concat batchWords) = length batchWords ->
      wordsLenOf batchWords = Z.of_nat (length (concat batchWords)) + 1)
  /\ (length (concat batchWords) <> length batchWords ->
      wordsLenOf batchWords = Z.of_nat (length (concat batchWords))).
Proof.
  unfold wordsLenOf. rewrite fold_left_lengths, Z.add_0_l.
  destruct (Z.eqb_spec (Z.of_nat (length (concat batchWords)))
              (Z.of_nat (length batchWords))) as [E | E];
    (split; [lia |]); split; intros H; lia.
Qed.

Lemma concat_length_ge (batchWords : list (list TokenIdType)) :
  (forall words, In words batchWords -> words <> []) ->
  (length batchWords <= length (concat batchWords))%nat.
Proof.
  induction batchWords as [| w l IH]; intros Hne; cbn [concat length]; [lia |].
  rewrite List.length_app.
  assert (Hw : w <> []) by (apply Hne; left; reflexivity).
  assert (Hl : (length l <= length (concat l))%nat)
    by (apply IH; intros words Hin; apply Hne; right; exact Hin).
  destruct w; [congruence | cbn [length]; lia].
Qed.

Lemma concat_length_singletons (batchWords : list (list TokenIdType)) :
  (forall words, In words batchWords -> length words = 1%nat) ->
  length (concat batchWords) = length batchWords.
Proof.
  induction batchWords as [| w l IH]; intros H1; cbn [concat length]; [reflexivity |].
  rewrite List.length_app, (H1 w (or_introl eq_refl)), IH; [reflexivity |].
  intros words Hin. apply H1. right. exact Hin.
Qed.

(** X12. [getMaxWordsLen] is the row length of the words table, and every
    batch entry fits in a row: the entry's tokens, laid end to end, are at
    most [getMaxWordsLen]; when every word of the entry is a single token
    there is room for one more position; and when no word of the entry is
    empty the entry has at most [getMaxWordsLen] words, so that one offset
    per word fits as well.  The result is 0 for no entry, and is never
    negative. *)
Theorem X12_getMaxWordsLen (inputWords : list (list (list TokenIdType))) :
  0 <= getMaxWordsLen inputWords
  /\ getMaxWordsLen [] = 0
  /\ forall batchWords, In batchWords inputWords ->
       Z.of_nat (length (concat batchWords)) <= getMaxWordsLen inputWords
       /\ ((forall words, In words batchWords -> length words = 1%nat) ->
           Z.of_nat (length (concat batchWords)) + 1 <= getMaxWordsLen inputWords)
       /\ ((forall words, In words batchWords -> words <> []) ->
           Z.of_nat (length batchWords) <= getMaxWordsLen inputWords).
Proof.
  unfold getMaxWordsLen.
  assert (Hfold : forall (l : list (list (list TokenIdType))) acc,
            acc <= fold_left (fun m bw => Z.max m (wordsLenOf bw)) l acc
            /\ forall bw, In bw l ->
                 wordsLenOf bw <= fold_left (fun m bw => Z.max m (wordsLenOf bw)) l acc).
  { induction l as [| b l IH]; intros acc; cbn [fold_left].
    - split; [lia | intros bw []].
    - destruct (IH (Z.max acc (wordsLenOf b))) as [Hacc Hin]. split; [lia |].
      intros bw [<- | H]; [lia | apply Hin, H]. }
  destruct (Hfold inputWords 0) as [H0 Hin].
  split; [exact H0 |]. split; [reflexivity |].
  intros batchWords Hbw. specialize (Hin batchWords Hbw).
  destruct (wordsLenOf_spec batchWords) as (Hge & Heq & _).
  split; [lia |]. split.
  - intros H1. rewrite (Heq (concat_length_singletons _ H1)) in Hin. lia.
  - intros Hne. pose proof (concat_length_ge _ Hne). lia.
Qed.

(** ** The ban-words layer *)

Lemma to_SizeType32_small (z : Z) : 0 <= z < 2 ^ 31 -> to_SizeType32 z = z.
Proof.
  intros H. unfold to_SizeType32.
  change (2 ^ 31) with 2147483648 in *. change (2 ^ 32) with 4294967296.
  rewrite Z.mod_small by lia. lia.
Qed.

Lemma forward_sizes_Returns (params : BanWordsParams)
    (sizes : SizeType32 * SizeType32 * SizeType32) :
  forward_sizes params = Returns sizes ->
  (exists logitsShape,
     inputs_logits params = Some logitsShape
     /\ (length logitsShape = 3%nat \/ length logitsShape = 4%nat))
  \/ inputs_logits params = None.
Proof.
  unfold forward_sizes. intros H.
  destruct (inputs_logits params) as [logitsShape |]; [left | right; reflexivity].
  exists logitsShape. split; [reflexivity |].
  destruct (Nat.eqb_spec (length logitsShape) 3) as [E3 | _]; [left; exact E3 |].
  destruct (Nat.eqb_spec (length logitsShape) 4) as [E4 | _]; [right; exact E4 |].
  discriminate H.
Qed.

(** X13. [BanWordsLayer::forward] cannot complete without [inputs->logits]:
    a call that returns was given a logits tensor of rank 3 or 4.  The
    branch that reads the sizes off [inputs->logits_vec] never leads to a
    return: with [logits] empty and [logits_vec] set the call ends in an
    exception, which for a well-formed first fragment (rank 3 or 4) is the
    [std::bad_optional_access] of [inputs->logits.value()], thrown before any
    kernel is launched. *)
Theorem X13_BanWordsLayer_forward_needs_logits (params : BanWordsParams) :
  (forall launched,
     BanWordsLayer_forward params = Returns launched ->
     exists logitsShape,
       inputs_logits params = Some logitsShape
       /\ (length logitsShape = 3%nat \/ length logitsShape = 4%nat))
  /\ (forall logits_vec,
        inputs_logits params = None ->
        inputs_logits_vec params = Some logits_vec ->
        output_ids_shape params <> [] ->
        exists e, BanWordsLayer_forward params = Throws e)
  /\ (forall logitsShape rest,
        inputs_logits params = None ->
        inputs_logits_vec params = Some (logitsShape :: rest) ->
        output_ids_shape params <> [] ->
        length logitsShape = 3%nat \/ length logitsShape = 4%nat ->
        BanWordsLayer_forward params = Throws bad_optional_access).
Proof.
  assert (Hthird : forall logitsShape rest,
            inputs_logits params = None ->
            inputs_logits_vec params = Some (logitsShape :: rest) ->
            output_ids_shape params <> [] ->
            length logitsShape = 3%nat \/ length logitsShape = 4%nat ->
            BanWordsLayer_forward params = Throws bad_optional_access).
  { intros logitsShape rest Hl Hv Hout Hrank.
    unfold BanWordsLayer_forward, forward_sizes. rewrite Hl, Hv.
    destruct (last (output_ids_shape params)) as [maxSeqLen |] eqn:Hlast.
    2: { apply last_None in Hlast. congruence. }
    cbn [length Nat.ltb Nat.leb lookup list_lookup].
    destruct Hrank as [H3 | H4].
    - destruct logitsShape as [| a [| b [| c [| d l]]]]; try discriminate H3.
      reflexivity.
    - destruct logitsShape as [| a [| b [| c [| d [| e l]]]]]; try discriminate H4.
      reflexivity. }
  split; [| split; [| exact Hthird]].
  - intros launched H. unfold BanWordsLayer_forward in H.
    destruct (last (output_ids_shape params)); [| discriminate].
    destruct (forward_sizes params) as [[[batchSize beamWidth] vocabSize] | e |] eqn:Hs;
      try discriminate.
    destruct (forward_sizes_Returns _ _ Hs) as [Hsome | Hnone]; [exact Hsome |].
    rewrite Hnone in H. discriminate.
  - intros logits_vec Hl Hv Hout.
    destruct logits_vec as [| logitsShape rest].
    + unfold BanWordsLayer_forward, forward_sizes. rewrite Hl, Hv.
      destruct (last (output_ids_shape params)) eqn:Hlast.
      2: { apply last_None in Hlast. congruence. }
      eexists. reflexivity.
    + destruct (Nat.eq_dec (length logitsShape) 3%nat) as [H3 | N3];
        [eexists; apply (Hthird logitsShape rest); auto |].
      destruct (Nat.eq_dec (length logitsShape) 4%nat) as [H4 | N4];
        [eexists; apply (Hthird logitsShape rest); auto |].
      unfold BanWordsLayer_forward, forward_sizes. rewrite Hl, Hv.
      destruct (last (output_ids_shape params)) eqn:Hlast.
      2: { apply last_None in Hlast. congruence. }
      cbn [length Nat.ltb Nat.leb lookup list_lookup].
      apply Nat.eqb_neq in N3, N4. cbn [length] in N3, N4 |- *.
      rewrite N3, N4. eexists. reflexivity.
Qed.

(** X14. With a logits tensor of shape [batchSize, beamWidth, vocabSize] or
    [batchSize, tokensPerStep, beamWidth, vocabSize] (extents below 2^31),
    [forward] launches at most two kernels: the repeated-n-gram ban when an
    n-gram size is given, then the bad-words ban when the maximal bad-words
    length is not zero; with neither it launches nothing.  Both get the
    first extent as batch size and the last two as beam width and vocabulary
    size (the second extent of a rank-4 tensor is not used) and the last
    extent of the output ids as maximal sequence length; the bad-words kernel
    gets the parent ids only for a beam width above 1. *)
Theorem X14_BanWordsLayer_forward_launches (params : BanWordsParams)
    (logitsShape shapePrefix : list Z)
    (batchSize beamWidth vocabSize maxSeqLen : Z) :
  inputs_logits params = Some logitsShape ->
  (logitsShape = [batchSize; beamWidth; vocabSize]
   \/ exists tokensPerStep,
        logitsShape = [batchSize; tokensPerStep; beamWidth; vocabSize]) ->
  output_ids_shape params = shapePrefix ++ [maxSeqLen] ->
  0 <= batchSize < 2 ^ 31 -> 0 <= beamWidth < 2 ^ 31 ->
  0 <= vocabSize < 2 ^ 31 -> 0 <= maxSeqLen < 2 ^ 31 ->
  sequence_length_present params = true ->
  bad_words_present params = true ->
  BanWordsLayer_forward params
  = Returns
      ((if no_repeat_ngram_size_present params
        then [invokeBanRepeatNgram batchSize beamWidth maxSeqLen vocabSize]
        else [])
       ++ (if negb (max_bad_words_len params =? 0)
           then [invokeBanBadWords (1 <? beamWidth) batchSize beamWidth
                   (max_bad_words_len params) vocabSize maxSeqLen]
           else [])).
Proof.
  intros Hl Hshape Hout Hb Hw Hv Hs Hseq Hbad.
  unfold BanWordsLayer_forward, forward_sizes, banRepeatNGrams, banBadWords.
  rewrite Hl, Hout, last_snoc, Hseq, Hbad.
  assert (Hsizes : logitsShape !! 0%nat = Some batchSize
            /\ logitsShape !! (length logitsShape - 3 + 1)%nat = Some beamWidth
            /\ logitsShape !! (length logitsShape - 3 + 2)%nat = Some vocabSize
            /\ (length logitsShape =? 3)%nat || (length logitsShape =? 4)%nat = true).
  { destruct Hshape as [-> | [t ->]]; repeat split; reflexivity. }
  destruct Hsizes as (E0 & E1 & E2 & Er).
  rewrite Er, E0, E1, E2.
  rewrite !to_SizeType32_small by assumption.
  destruct (no_repeat_ngram_size_present params),
    (negb (max_bad_words_len params =? 0)); reflexivity.
Qed.

(** X14 on the logits of a Medusa step, shape [2, 4, 1, 9], with an output
    of shape [4, 1, 16], one bad word configured and no n-gram size. *)
Lemma X14_BanWordsLayer_forward_launches_witness :
  BanWordsLayer_forward
    (mkBanWordsParams [4; 1; 16] true (Some [2; 4; 1; 9]) None false 2 true)
  = Returns [invokeBanBadWords false 2 1 2 9 16].
Proof.
  apply (X14_BanWordsLayer_forward_launches
           (mkBanWordsParams [4; 1; 16] true (Some [2; 4; 1; 9]) None false 2 true)
           [2; 4; 1; 9] [4; 1] 2 1 9 16);
    try reflexivity; try (vm_compute; split; [discriminate | reflexivity]).
  right. exists 4. reflexivity.
Defined.

(** ** Layer types of the model configuration *)

Lemma lookup_repeat_lt {A : Type} (a : A) (n i : nat) :
  (i < n)%nat -> repeat a n !! i = Some a.
Proof.
  revert i. induction n as [| n IH]; intros [| i] Hi; try lia; cbn.
  - reflexivity.
  - apply IH. lia.
Qed.

Lemma buildLayerTypes_fold (layerStringTypes : list string) (numLayers k : nat) :
  (k <= numLayers)%nat ->
  let step := fun (result : list LayerType) (i : nat) =>
    match layerStringTypes !! (i mod length layerStringTypes)%nat with
    | Some name =>
        if String.eqb name "attention" then <[i := kATTENTION]> result
        else if String.eqb name "recurrent" then <[i := kRECURRENT]> result
        else result
    | None => result
    end in
  let result := fold_left step (seq 0 k) (repeat kATTENTION numLayers) in
  length result = numLayers
  /\ forall i, (i < numLayers)%nat ->
       result !! i
       = Some (if (i <? k)%nat then
                 match layerStringTypes !! (i mod length layerStringTypes)%nat with
                 | Some name => if String.eqb name "recurrent"
                                then kRECURRENT else kATTENTION
                 | None => kATTENTION
                 end
               else kATTENTION).
Proof.
  intros Hk step. induction k as [| k IH].
  - cbn. split; [apply repeat_length |].
    intros i Hi. apply lookup_repeat_lt. exact Hi.
  - destruct (IH ltac:(lia)) as [Hlen Hat]. clear IH.
    rewrite seq_S, fold_left_app. cbn [Nat.add fold_left].
    set (prev := fold_left step (seq 0 k) (repeat kATTENTION numLayers)) in *.
    assert (Hprev : prev !! k = Some kATTENTION).
    { rewrite (Hat k Hk), Nat.ltb_irrefl. reflexivity. }
    assert (Hstep : length (step prev k) = numLayers
              /\ step prev k !! k
                 = Some match layerStringTypes !! (k mod length layerStringTypes)%nat with
                        | Some name => if String.eqb name "recurrent"
                                       then kRECURRENT else kATTENTION
                        | None => kATTENTION
                        end
              /\ forall i, i <> k -> step prev k !! i = prev !! i).
    { unfold step.
      destruct (layerStringTypes !! (k mod length layerStringTypes)%nat) as [name |].
      - destruct (String.eqb_spec name "attention") as [-> | Hna].
        + rewrite length_insert. split; [exact Hlen |]. split.
          * apply list_lookup_insert_eq. lia.
          * intros i Hi. apply list_lookup_insert_ne. congruence.
        + destruct (String.eqb name "recurrent").
          * rewrite length_insert. split; [exact Hlen |]. split.
            -- apply list_lookup_insert_eq. lia.
            -- intros i Hi. apply list_lookup_insert_ne. congruence.
          * split; [exact Hlen |]. split; [exact Hprev | reflexivity].
      - split; [exact Hlen |]. split; [exact Hprev | reflexivity]. }
    destruct Hstep as (Hlen' & Hk' & Hother).
    split; [exact Hlen' |].
    intros i Hi. destruct (Nat.eq_dec i k) as [-> | Hne].
    + rewrite Hk'. replace (k <? S k)%nat with true by (symmetry; apply Nat.ltb_lt; lia).
      reflexivity.
    + rewrite (Hother i Hne), (Hat i Hi).
      replace (i <? S k)%nat with (i <? k)%nat; [reflexivity |].
      destruct (Nat.ltb_spec i k), (Nat.ltb_spec i (S k)); try reflexivity; lia.
Qed.

(** X15. [buildLayerTypes] always returns [numLayers] layer types.  The
    names describe one group of layers, which is repeated: layer [i] is
    recurrent exactly when the name at position [i] modulo the group size is
    ["recurrent"]; every other name, ["attention"] or not, gives an attention
    layer, and so does an empty list of names.  The last group may be
    incomplete. *)
Theorem X15_buildLayerTypes (numLayers : nat) (layerStringTypes : list string) :
  length (buildLayerTypes numLayers layerStringTypes) = numLayers
  /\ (layerStringTypes = [] ->
      buildLayerTypes numLayers layerStringTypes = repeat kATTENTION numLayers)
  /\ (forall i name,
        (i < numLayers)%nat ->
        layerStringTypes !! (i mod length layerStringTypes)%nat = Some name ->
        buildLayerTypes numLayers layerStringTypes !! i
        = Some (if String.eqb name "recurrent" then kRECURRENT else kATTENTION))
  /\ (forall i,
        (i + length layerStringTypes < numLayers)%nat ->
        buildLayerTypes numLayers layerStringTypes !! (i + length layerStringTypes)%nat
        = buildLayerTypes numLayers layerStringTypes !! i).
Proof.
  assert (Hat : forall i, (i < numLayers)%nat ->
            buildLayerTypes numLayers layerStringTypes !! i
            = Some match layerStringTypes !! (i mod length layerStringTypes)%nat with
                   | Some name => if String.eqb name "recurrent"
                                  then kRECURRENT else kATTENTION
                   | None => kATTENTION
                   end).
  { intros i Hi. unfold buildLayerTypes.
    destruct layerStringTypes as [| name0 names].
    - cbn. apply lookup_repeat_lt. exact Hi.
    - cbn [length Nat.eqb].
      destruct (buildLayerTypes_fold (name0 :: names) numLayers numLayers (le_n _))
        as [_ H].
      cbn [length] in H. rewrite (H i Hi).
      replace (i <? numLayers)%nat with true by (symmetry; apply Nat.ltb_lt; exact Hi).
      reflexivity. }
  split.
  { unfold buildLayerTypes. destruct layerStringTypes as [| name0 names].
    - apply repeat_length.
    - cbn [length Nat.eqb].
      destruct (buildLayerTypes_fold (name0 :: names) numLayers numLayers (le_n _))
        as [H _].
      exact H. }
  split; [intros ->; reflexivity |].
  split.
  - intros i name Hi Hname. rewrite (Hat i Hi), Hname. reflexivity.
  - intros i Hi. rewrite (Hat _ Hi), (Hat i ltac:(lia)).
    destruct layerStringTypes as [| name0 names]; [reflexivity |].
    replace ((i + length (name0 :: names)) mod length (name0 :: names))%nat
      with (i mod length (name0 :: names))%nat; [reflexivity |].
    rewrite <- (Nat.Div0.add_mod_idemp_r i), Nat.Div0.mod_same, Nat.add_0_r.
    reflexivity.
Qed.

(** ** The world configuration *)

Lemma bindO_Returns_inv {A B : Type} (o : Outcome A) (k : A -> Outcome B) (b : B) :
  (o ≫= k) = Returns b -> exists a, o = Returns a /\ k a = Returns b.
Proof. destruct o as [a | e |]; [eauto | discriminate | discriminate]. Qed.

Lemma check_Returns_inv {B : Type} (cond : bool) (info : string)
    (k : unit -> Outcome B) (b : B) :
  (check cond info ≫= k) = Returns b -> cond = true /\ k tt = Returns b.
Proof. destruct cond; [intros H; split; [reflexivity | exact H] | discriminate]. Qed.

Lemma fold_left_min_le (l : list Z) (acc : Z) :
  fold_left Z.min l acc <= acc
  /\ (forall y, In y l -> fold_left Z.min l acc <= y)
  /\ (fold_left Z.min l acc = acc \/ In (fold_left Z.min l acc) l).
Proof.
  revert acc. induction l as [| x l IH]; intros acc; cbn [fold_left].
  - split; [lia |]. split; [intros y [] | left; reflexivity].
  - destruct (IH (Z.min acc x)) as (Hacc & Hin & Hmem).
    split; [lia |]. split.
    + intros y [<- | H]; [lia | apply Hin, H].
    + destruct Hmem as [E | H]; [| right; right; exact H].
      rewrite E. destruct (Z.min_spec acc x) as [[_ ->] | [_ ->]];
        [left; reflexivity | right; left; reflexivity].
Qed.

Lemma fold_max_lt (x : Z) (rest : list Z) (bound : Z) :
  (fold_left Z.max rest x <? bound) = true <-> forall y, In y (x :: rest) -> y < bound.
Proof.
  destruct (fold_left_max_ge rest x) as [Hx Hin].
  pose proof (fold_left_max_In rest x) as Hmem.
  change (fold_left (fun m size : Z => Z.max m size) rest x)
    with (fold_left Z.max rest x) in Hx, Hin, Hmem.
  rewrite Z.ltb_lt. split.
  - intros Hm y [<- | Hy]; [lia | specialize (Hin y Hy); lia].
  - intros Hall. destruct Hmem as [E | Hmem].
    + rewrite E. apply Hall. left. reflexivity.
    + apply Hall. right. exact Hmem.
Qed.

Lemma fold_min_ge (x : Z) (rest : list Z) (bound : Z) :
  (bound <=? fold_left Z.min rest x) = true
  <-> forall y, In y (x :: rest) -> bound <= y.
Proof.
  destruct (fold_left_min_le rest x) as (Hx & Hin & Hmem).
  rewrite Z.leb_le. split.
  - intros Hm y [<- | Hy]; [lia | specialize (Hin y Hy); lia].
  - intros Hall. destruct Hmem as [E | Hmem'].
    + rewrite E. apply Hall. left. reflexivity.
    + apply Hall. right. exact Hmem'.
Qed.

Lemma nodup_length_le (l : list Z) : (length (nodup Z.eq_dec l) <= length l)%nat.
Proof.
  induction l as [| x l IH]; cbn [nodup length]; [lia |].
  destruct (in_dec Z.eq_dec x l); cbn [length]; lia.
Qed.

Lemma nodup_length_iff (l : list Z) :
  length (nodup Z.eq_dec l) = length l <-> List.NoDup l.
Proof.
  split.
  - induction l as [| x l IH]; cbn [nodup length]; intros H; [constructor |].
    destruct (in_dec Z.eq_dec x l) as [Hin | Hnot].
    + pose proof (nodup_length_le l). lia.
    + cbn [length] in H. constructor; [exact Hnot | apply IH; lia].
  - intros H. rewrite (nodup_fixed_point Z.eq_dec H). reflexivity.
Qed.

Lemma In_zrange (n y : Z) : In y (zrange n) <-> 0 <= y < n.
Proof.
  unfold zrange. rewrite in_map_iff. split.
  - intros (i & <- & Hi). apply in_seq in Hi. lia.
  - intros Hy. exists (Z.to_nat y). split; [lia | apply in_seq; lia].
Qed.

Lemma NoDup_zrange (n : Z) : List.NoDup (zrange n).
Proof.
  unfold zrange. apply Finite.Injective_map_NoDup; [| apply seq_NoDup].
  intros a b H. lia.
Qed.

Lemma length_zrange (n : Z) : length (zrange n) = Z.to_nat n.
Proof. unfold zrange. rewrite List.length_map, length_seq. reflexivity. Qed.

Lemma deviceIds_count (gpusPerNode : SizeType32) (ids : list SizeType32) :
  0 <= gpusPerNode ->
  List.NoDup ids -> (forall id, In id ids -> 0 <= id < gpusPerNode) ->
  Z.of_nat (length ids) <= gpusPerNode.
Proof.
  intros Hg Hnd Hrange.
  assert (H : (length ids <= length (zrange gpusPerNode))%nat).
  { apply NoDup_incl_length; [exact Hnd |].
    intros id Hin. apply In_zrange, Hrange, Hin. }
  rewrite length_zrange in H. lia.
Qed.

(** In a build with [ENABLE_MULTI_DEVICE] the constructor returns exactly
    for positive parallelism degrees and usable device ids. *)
Lemma WorldConfig_new_multi_iff
    (tensorParallelism pipelineParallelism rank gpusPerNode : SizeType32)
    (deviceIds : option (list SizeType32)) (w : WorldConfig) :
  0 <= gpusPerNode < 2 ^ 31 ->
  WorldConfig_new true tensorParallelism pipelineParallelism rank gpusPerNode deviceIds
  = Returns w
  <-> 0 < tensorParallelism /\ 0 < pipelineParallelism
      /\ deviceIds_ok gpusPerNode (default (zrange gpusPerNode) deviceIds)
      /\ w = mkWorldConfig tensorParallelism pipelineParallelism rank gpusPerNode
               (default (zrange gpusPerNode) deviceIds).
Proof.
  intros Hg. unfold WorldConfig_new, deviceIds_ok.
  assert (Hneg : (gpusPerNode <? 0) = false) by (apply Z.ltb_ge; lia).
  rewrite Hneg.
  destruct deviceIds as [ids |]; cbn [default from_option Datatypes.id].
  - destruct ids as [| x rest].
    { cbn. split; [discriminate | intros (_ & _ & (H & _) & _); congruence]. }
    set (ids := x :: rest) in *.
    assert (Hlen : (0 <? Z.of_nat (length ids)) = true)
      by (apply Z.ltb_lt; unfold ids; cbn [length]; lia).
    rewrite Hlen. cbn [check]. change (Returns tt ≫= ?k) with (k tt). cbv beta.
    change (max_element ids) with (Returns (fold_left Z.max rest x)).
    change (min_element ids) with (Returns (fold_left Z.min rest x)).
    pose proof (fold_max_lt x rest gpusPerNode) as Hmax.
    pose proof (fold_min_ge x rest 0) as Hmin.
    pose proof (nodup_length_iff ids) as Hset.
    fold ids in Hmax, Hmin.
    split.
    + intros H.
      apply bindO_Returns_inv in H as (ids' & H & Hrest).
      apply check_Returns_inv in H as [_ H].
      apply bindO_Returns_inv in H as (maxId & Hm & H). injection Hm as <-.
      apply check_Returns_inv in H as [Hcmax H].
      apply bindO_Returns_inv in H as (minId & Hm & H). injection Hm as <-.
      apply check_Returns_inv in H as [Hcmin H].
      apply check_Returns_inv in H as [Hcset H].
      injection H as <-.
      apply check_Returns_inv in Hrest as [Htp Hrest].
      apply check_Returns_inv in Hrest as [Hpp Hrest].
      injection Hrest as <-.
      apply Z.ltb_lt in Htp, Hpp. apply Z.eqb_eq in Hcset.
      split; [exact Htp |]. split; [exact Hpp |].
      split; [| reflexivity].
      split; [discriminate |].
      split; [apply Hset; lia |].
      intros id Hin. split; [apply Hmin | apply Hmax]; assumption.
    + intros (Htp & Hpp & (_ & Hnd & Hrange) & ->).
      assert (Hcount : (to_SizeType32 (Z.of_nat (length ids)) <=? gpusPerNode) = true).
      { pose proof (deviceIds_count gpusPerNode ids ltac:(lia) Hnd Hrange) as Hc.
        rewrite to_SizeType32_small by lia. apply Z.leb_le. exact Hc. }
      assert (Hcmax : (fold_left Z.max rest x <? gpusPerNode) = true)
        by (apply Hmax; intros y Hy; apply Hrange, Hy).
      assert (Hcmin : (0 <=? fold_left Z.min rest x) = true)
        by (apply Hmin; intros y Hy; apply Hrange, Hy).
      assert (Hcset : (Z.of_nat (length (nodup Z.eq_dec ids)) =? Z.of_nat (length ids))
                      = true)
        by (apply Z.eqb_eq; f_equal; apply Hset, Hnd).
      apply Z.ltb_lt in Htp, Hpp.
      rewrite Hcount. cbn [check]. change (Returns tt ≫= ?k) with (k tt). cbv beta.
      change (Returns ?a ≫= ?k) with (k a). cbv beta.
      rewrite Hcmax. cbn [check]. change (Returns tt ≫= ?k) with (k tt). cbv beta.
      change (Returns ?a ≫= ?k) with (k a). cbv beta.
      rewrite Hcmin. cbn [check]. change (Returns tt ≫= ?k) with (k tt). cbv beta.
      rewrite Hcset. cbn [check]. change (Returns tt ≫= ?k) with (k tt). cbv beta.
      change (Returns ?a ≫= ?k) with (k a). cbv beta.
      rewrite Htp, Hpp. reflexivity.
  - rewrite repeat_length, Z2Nat.id by lia.
    split.
    + intros H.
      apply check_Returns_inv in H as [Hpos H].
      change (Returns ?a ≫= ?k) with (k a) in H. cbv beta in H.
      apply check_Returns_inv in H as [Htp H].
      apply check_Returns_inv in H as [Hpp H].
      injection H as <-.
      apply Z.ltb_lt in Hpos, Htp, Hpp.
      split; [exact Htp |]. split; [exact Hpp |]. split; [| reflexivity].
      split.
      * intros E. pose proof (length_zrange gpusPerNode) as Hl.
        rewrite E in Hl. cbn in Hl. lia.
      * split; [apply NoDup_zrange | intros id; apply In_zrange].
    + intros (Htp & Hpp & (Hne & _) & ->).
      assert (Hpos : (0 <? gpusPerNode) = true).
      { apply Z.ltb_lt. destruct (Z.eq_dec gpusPerNode 0) as [-> | Hnz]; [| lia].
        exfalso. apply Hne. reflexivity. }
      apply Z.ltb_lt in Htp, Hpp.
      rewrite Hpos. cbn [check]. change (Returns tt ≫= ?k) with (k tt). cbv beta.
      change (Returns ?a ≫= ?k) with (k a). cbv beta.
      rewrite Htp, Hpp. reflexivity.
Qed.

(** X16. In a build with multi-device support, the constructor of
    [WorldConfig] returns exactly when the tensor and pipeline parallelism
    are positive and the device ids are usable: at least one id, no id twice,
    every id a GPU of the node (between 0 and [gpusPerNode] - 1).  The device
    ids of the result are the given ones, or 0 .. [gpusPerNode] - 1 when none
    are given, and there are never more of them than GPUs per node.  The
    rank is stored unchecked.  In a build without multi-device support the
    arguments are not checked at all and the configuration is that of a
    single GPU. *)
Theorem X16_WorldConfig_new
    (tensorParallelism pipelineParallelism rank gpusPerNode : SizeType32)
    (deviceIds : option (list SizeType32)) :
  0 <= gpusPerNode < 2 ^ 31 ->
  (forall w,
     WorldConfig_new true tensorParallelism pipelineParallelism rank gpusPerNode
       deviceIds = Returns w
     <-> 0 < tensorParallelism /\ 0 < pipelineParallelism
         /\ deviceIds_ok gpusPerNode (default (zrange gpusPerNode) deviceIds)
         /\ w = mkWorldConfig tensorParallelism pipelineParallelism rank gpusPerNode
                  (default (zrange gpusPerNode) deviceIds))
  /\ (forall w,
        WorldConfig_new true tensorParallelism pipelineParallelism rank gpusPerNode
          deviceIds = Returns w ->
        Z.of_nat (length (mDeviceIds w)) <= mGpusPerNode w)
  /\ (exists ids,
        WorldConfig_new false tensorParallelism pipelineParallelism rank gpusPerNode
          deviceIds = Returns (mkWorldConfig 1 1 0 1 ids)).
Proof.
  intros Hg. split; [| split].
  - intros w. apply WorldConfig_new_multi_iff, Hg.
  - intros w H. apply (WorldConfig_new_multi_iff _ _ _ _ _ _ Hg) in H
      as (_ & _ & (_ & Hnd & Hrange) & ->).
    cbn [mDeviceIds mGpusPerNode]. apply deviceIds_count; [lia | assumption ..].
  - unfold WorldConfig_new.
    assert (Hneg : (gpusPerNode <? 0) = false) by (apply Z.ltb_ge; lia).
    rewrite Hneg. eexists. reflexivity.
Qed.

(** X16 on a node of eight GPUs of which the devices 2 and 3 are used. *)
Lemma X16_WorldConfig_new_witness :
  WorldConfig_new true 2 1 0 8 (Some [2; 3]) = Returns (mkWorldConfig 2 1 0 8 [2; 3]).
Proof.
  assert (Hg : 0 <= 8 < 2 ^ 31) by (vm_compute; split; [discriminate | reflexivity]).
  destruct (X16_WorldConfig_new 2 1 0 8 (Some [2; 3]) Hg) as [Hiff _].
  apply Hiff. split; [lia |]. split; [lia |]. split; [| reflexivity].
  split; [discriminate |]. split.
  - repeat constructor; cbn; intuition discriminate.
  - intros id [<- | [<- | []]]; lia.
Defined.

Lemma int_result_Returns_inv (z r : Z) :
  int_result z = Returns r -> r = z /\ - 2 ^ 31 <= z < 2 ^ 31.
Proof.
  unfold int_result.
  destruct (Z.leb_spec (- 2 ^ 31) z) as [Hlo | _]; [| discriminate].
  destruct (Z.ltb_spec z (2 ^ 31)) as [Hhi | _]; [| discriminate].
  cbn. intros E. injection E as <-. split; [reflexivity | split; assumption].
Qed.

(** X17. Whenever [WorldConfig::mpi] returns, the product of the tensor and
    pipeline parallelism of the result is the number of MPI processes and
    is representable in [int], both are positive, the rank is the MPI rank,
    and the pipeline parallelism is the requested one, or 1.  When no tensor
    parallelism is requested it is the number of processes divided by the
    pipeline parallelism, which must then divide it.  The processes fit on
    one node, or every GPU of the node runs one local process.  When the
    product of the requested parallelisms is not representable in [int] the
    call has no defined behaviour. *)
Theorem X17_WorldConfig_mpi (mpiSize mpiRank localSize : Z) (gpusPerNode : SizeType32)
    (tensorParallelism pipelineParallelism : option SizeType32)
    (deviceIds : option (list SizeType32)) (w : WorldConfig) :
  0 <= gpusPerNode < 2 ^ 31 ->
  WorldConfig_mpi mpiSize mpiRank localSize gpusPerNode tensorParallelism
    pipelineParallelism deviceIds = Returns w ->
  mTensorParallelism w * mPipelineParallelism w = mpiSize
  /\ 0 < mTensorParallelism w /\ 0 < mPipelineParallelism w
  /\ mPipelineParallelism w = default 1 pipelineParallelism
  /\ (forall tp, tensorParallelism = Some tp -> mTensorParallelism w = tp)
  /\ (tensorParallelism = None ->
      mTensorParallelism w = mpiSize / mPipelineParallelism w
      /\ mpiSize mod mPipelineParallelism w = 0)
  /\ mRank w = mpiRank
  /\ mGpusPerNode w = gpusPerNode
  /\ (mpiSize <= gpusPerNode \/ localSize = gpusPerNode)
  /\ deviceIds_ok gpusPerNode (mDeviceIds w)
  /\ 0 < mpiSize < 2 ^ 31
  /\ (forall tp pp,
        ~ (- 2 ^ 31 <= tp * pp < 2 ^ 31) ->
        WorldConfig_mpi mpiSize mpiRank localSize gpusPerNode (Some tp) (Some pp)
          deviceIds = Undefined).
Proof.
  intros Hg H. unfold WorldConfig_mpi in H.
  apply bindO_Returns_inv in H as (quotient & Hq & H).
  apply bindO_Returns_inv in H as (product & Hp & H).
  apply int_result_Returns_inv in Hp as [-> Hfits].
  apply check_Returns_inv in H as [Hprod H].
  apply check_Returns_inv in H as [Hfit H].
  apply (WorldConfig_new_multi_iff _ _ _ _ _ _ Hg) in H
    as (Htp & Hpp & Hids & ->).
  cbn [mTensorParallelism mPipelineParallelism mRank mGpusPerNode mDeviceIds].
  apply Z.eqb_eq in Hprod.
  destruct (default 1 pipelineParallelism =? 0); [discriminate |].
  apply int_result_Returns_inv in Hq as [-> _].
  split; [lia |]. split; [exact Htp |]. split; [exact Hpp |].
  split; [reflexivity |].
  split; [intros tp ->; reflexivity |].
  split.
  { intros ->. cbn [default] in *.
    set (pp := default 1 pipelineParallelism) in *.
    assert (Hsize : 0 < mpiSize) by nia.
    rewrite Z.quot_div_nonneg in Hprod by lia.
    rewrite Z.quot_div_nonneg by lia.
    split; [reflexivity |].
    pose proof (Z.div_mod mpiSize pp ltac:(lia)) as Hdm. lia. }
  split; [reflexivity |]. split; [reflexivity |].
  split.
  { apply orb_true_iff in Hfit as [Hle | Heq];
      [left; apply Z.leb_le, Hle | right; apply Z.eqb_eq, Heq]. }
  split; [exact Hids |].
  split; [rewrite Hprod; split; [nia | lia] |].
  intros tp pp Hover.
  unfold WorldConfig_mpi. cbn [default from_option Datatypes.id].
  destruct (pp =? 0); [reflexivity |].
  unfold int_result.
  destruct ((- 2 ^ 31 <=? Z.quot mpiSize pp) && (Z.quot mpiSize pp <? 2 ^ 31));
    [| reflexivity].
  change (Returns ?a ≫= ?k) with (k a). cbv beta.
  destruct (Z.leb_spec (- 2 ^ 31) (tp * pp)) as [Hlo | _]; [| reflexivity].
  destruct (Z.ltb_spec (tp * pp) (2 ^ 31)) as [Hhi | _]; [| reflexivity].
  exfalso. apply Hover. split; assumption.
Qed.

(** X17 on four processes on a node of eight GPUs, pipeline parallelism 2
    and no tensor parallelism requested. *)
Lemma X17_WorldConfig_mpi_witness :
  mTensorParallelism (mkWorldConfig 2 2 3 8 (zrange 8))
  * mPipelineParallelism (mkWorldConfig 2 2 3 8 (zrange 8)) = 4.
Proof.
  assert (Hg : 0 <= 8 < 2 ^ 31) by (vm_compute; split; [discriminate | reflexivity]).
  exact (proj1 (X17_WorldConfig_mpi 4 3 4 8 None (Some 2) None
                  (mkWorldConfig 2 2 3 8 (zrange 8)) Hg eq_refl)).
Defined.

(** ** Shapes and TensorRT dimensions *)

Lemma shapeToDims_loop_spec (rest : list Z) (i : nat) (dims_d result : list Z) :
  shapeToDims_loop rest i dims_d = Returns result ->
  (i + length rest <= length dims_d)%nat ->
  length result = length dims_d
  /\ (forall k extent, rest !! k = Some extent -> result !! (i + k)%nat = Some extent)
  /\ (forall j, (j < i \/ i + length rest <= j)%nat -> result !! j = dims_d !! j)
  /\ (forall extent, In extent rest -> extent <= dim_max).
Proof.
  revert i dims_d. induction rest as [| extent rest IH]; intros i dims_d H Hlen.
  - cbn in H. injection H as <-. split; [reflexivity |].
    split; [intros k e Hk; discriminate Hk |].
    split; [reflexivity | intros e []].
  - cbn [shapeToDims_loop] in H.
    apply check_Returns_inv in H as [Hext H].
    cbn [length] in Hlen.
    destruct (IH (S i) _ H) as (Hl & Hin & Hout & Hmax).
    { rewrite length_insert. lia. }
    rewrite length_insert in Hl. split; [exact Hl |].
    split; [| split].
    + intros [| k] e Hk; cbn in Hk.
      * injection Hk as <-. rewrite Nat.add_0_r, Hout by lia.
        apply list_lookup_insert_eq. lia.
      * replace (i + S k)%nat with (S i + k)%nat by lia. apply Hin, Hk.
    + intros j Hj. cbn [length] in Hj. rewrite Hout by lia.
      apply list_lookup_insert_ne. lia.
    + intros e [<- | He]; [apply Z.leb_le, Hext | apply Hmax, He].
Qed.

Lemma shapeToDims_loop_Returns (rest : list Z) (i : nat) (dims_d : list Z) :
  (forall extent, In extent rest -> extent <= dim_max) ->
  exists result, shapeToDims_loop rest i dims_d = Returns result.
Proof.
  revert i dims_d. induction rest as [| extent rest IH]; intros i dims_d Hmax.
  - eexists. reflexivity.
  - cbn [shapeToDims_loop].
    assert (Hext : (extent <=? dim_max) = true)
      by (apply Z.leb_le, Hmax; left; reflexivity).
    rewrite Hext. apply IH. intros e He. apply Hmax. right. exact He.
Qed.

Lemma dimsToShape_loop_spec (dims_d : list Z) (n i : nat) (shape result : list Z) :
  dimsToShape_loop dims_d n i shape = Returns result ->
  (i + n <= length shape)%nat ->
  length result = length shape
  /\ (forall j, (i <= j < i + n)%nat ->
        exists extent, dims_d !! j = Some extent /\ 0 <= extent
                       /\ result !! j = Some extent)
  /\ (forall j, (j < i \/ i + n <= j)%nat -> result !! j = shape !! j).
Proof.
  revert i shape. induction n as [| n IH]; intros i shape H Hlen.
  - cbn in H. injection H as <-. split; [reflexivity |].
    split; [intros j Hj; lia | reflexivity].
  - cbn [dimsToShape_loop] in H.
    destruct (dims_d !! i) as [extent |] eqn:Hi; [| discriminate].
    apply check_Returns_inv in H as [Hext H].
    destruct (IH (S i) _ H) as (Hl & Hin & Hout).
    { rewrite length_insert. lia. }
    rewrite length_insert in Hl. split; [exact Hl |]. split.
    + intros j Hj. destruct (Nat.eq_dec j i) as [-> | Hne].
      * exists extent. split; [exact Hi |]. split; [apply Z.leb_le, Hext |].
        rewrite Hout by lia. apply list_lookup_insert_eq. lia.
      * apply Hin. lia.
    + intros j Hj. rewrite Hout by lia. apply list_lookup_insert_ne. lia.
Qed.

Lemma dimsToShape_loop_Returns (dims_d : list Z) (n i : nat) (shape : list Z) :
  (forall j, (i <= j < i + n)%nat ->
     exists extent, dims_d !! j = Some extent /\ 0 <= extent) ->
  exists result, dimsToShape_loop dims_d n i shape = Returns result.
Proof.
  revert i shape. induction n as [| n IH]; intros i shape Hd.
  - eexists. reflexivity.
  - cbn [dimsToShape_loop].
    destruct (Hd i ltac:(lia)) as (extent & -> & Hext).
    apply Z.leb_le in Hext. rewrite Hext.
    apply IH. intros j Hj. apply Hd. lia.
Qed.

(** X18. A shape survives the trip through TensorRT dimensions.
    [shapeToDims] returns exactly when the shape has at most [MAX_DIMS]
    extents, none above the largest 64-bit signed integer; the dimensions it
    returns count the extents and hold them in order, and [dimsToShape] maps
    them back to the very shape. *)
Theorem X18_shapeToDims_dimsToShape (MAX_DIMS : nat)
    (uninitialised shape : list Z) :
  length uninitialised = MAX_DIMS ->
  (forall extent, In extent shape -> 0 <= extent) ->
  ((exists dims, shapeToDims MAX_DIMS uninitialised shape = Returns dims)
   <-> (length shape <= MAX_DIMS)%nat
       /\ forall extent, In extent shape -> extent <= dim_max)
  /\ forall dims,
       shapeToDims MAX_DIMS uninitialised shape = Returns dims ->
       nbDims dims = Z.of_nat (length shape)
       /\ length (d dims) = MAX_DIMS
       /\ take (length shape) (d dims) = shape
       /\ dimsToShape dims = Returns shape.
Proof.
  intros Hun Hnonneg.
  assert (Hinv : forall dims,
            shapeToDims MAX_DIMS uninitialised shape = Returns dims ->
            (length shape <= MAX_DIMS)%nat
            /\ (forall extent, In extent shape -> extent <= dim_max)
            /\ nbDims dims = Z.of_nat (length shape)
            /\ length (d dims) = MAX_DIMS
            /\ forall k extent, shape !! k = Some extent ->
                                d dims !! k = Some extent).
  { intros dims H. unfold shapeToDims in H.
    apply check_Returns_inv in H as [Hlen H]. apply Nat.leb_le in Hlen.
    apply bindO_Returns_inv in H as (dims_d & Hloop & H). injection H as <-.
    destruct (shapeToDims_loop_spec _ _ _ _ Hloop) as (Hl & Hin & _ & Hmax);
      [cbn; lia |].
    split; [exact Hlen |]. split; [exact Hmax |]. split; [reflexivity |].
    split; [cbn [d]; lia |]. exact Hin. }
  split.
  - split.
    + intros [dims H]. destruct (Hinv dims H) as (H1 & H2 & _). split; assumption.
    + intros [Hlen Hmax]. unfold shapeToDims.
      apply Nat.leb_le in Hlen. rewrite Hlen.
      destruct (shapeToDims_loop_Returns shape 0 uninitialised Hmax) as [dims_d ->].
      eexists. reflexivity.
  - intros dims H. destruct (Hinv dims H) as (Hlen & Hmax & Hnb & Hd & Hat).
    split; [exact Hnb |]. split; [exact Hd |].
    assert (Htake : take (length shape) (d dims) = shape).
    { apply list_eq. intros k.
      destruct (shape !! k) as [extent |] eqn:Hk.
      - rewrite lookup_take_lt by (eapply lookup_lt_Some, Hk). apply Hat, Hk.
      - apply lookup_ge_None in Hk. apply lookup_ge_None.
        rewrite length_take. lia. }
    split; [exact Htake |].
    unfold dimsToShape. rewrite Hnb, Nat2Z.id.
    assert (Hpos : (0 <=? Z.of_nat (length shape)) = true) by (apply Z.leb_le; lia).
    rewrite Hpos.
    destruct (dimsToShape_loop_Returns (d dims) (length shape) 0
                (repeat 0 (length shape))) as [result Hres].
    { intros j Hj. destruct (lookup_lt_is_Some_2 shape j ltac:(lia)) as [extent Hk].
      exists extent. split; [apply Hat, Hk |].
      apply Hnonneg. eapply lookup_In, Hk. }
    change (check true "Assertion failed" ≫= ?k) with (k tt). cbv beta.
    rewrite Hres. f_equal.
    destruct (dimsToShape_loop_spec _ _ _ _ _ Hres) as (Hl & Hin & _);
      [rewrite repeat_length; lia |].
    rewrite repeat_length in Hl.
    apply list_eq. intros k.
    destruct (shape !! k) as [extent |] eqn:Hk.
    + pose proof (lookup_lt_Some _ _ _ Hk) as Hlt.
      destruct (Hin k ltac:(lia)) as (e & He & _ & Hr).
      rewrite Hr, <- He. apply Hat, Hk.
    + apply lookup_ge_None in Hk. apply lookup_ge_None. lia.
Qed.

(** X18 on the shape [2, 3, 5] and an array of eight uninitialised
    entries. *)
Lemma X18_shapeToDims_dimsToShape_witness :
  dimsToShape (mkDims 3 [2; 3; 5; 77; 77; 77; 77; 77]) = Returns [2; 3; 5].
Proof.
  destruct (X18_shapeToDims_dimsToShape 8 (repeat 77 8) [2; 3; 5] eq_refl) as [_ H].
  - intros extent [<- | [<- | [<- | []]]]; lia.
  - exact (proj2 (proj2 (proj2 (H (mkDims 3 [2; 3; 5; 77; 77; 77; 77; 77]) eq_refl)))).
Defined.

(** X19. [dimsToShape] returns exactly for dimensions whose count is not
    negative and whose first [nbDims] extents are not negative; the shape it
    returns has [nbDims] extents, those of the dimensions in order, and
    [shapeToDims] maps it back to dimensions with the same count and the
    same first [nbDims] extents. *)
Theorem X19_dimsToShape_shapeToDims (MAX_DIMS : nat) (dims : Dims)
    (uninitialised : list Z) :
  length (d dims) = MAX_DIMS ->
  length uninitialised = MAX_DIMS ->
  nbDims dims <= Z.of_nat MAX_DIMS ->
  (forall extent, In extent (d dims) -> extent <= dim_max) ->
  ((exists shape, dimsToShape dims = Returns shape)
   <-> 0 <= nbDims dims
       /\ forall extent, In extent (take (Z.to_nat (nbDims dims)) (d dims)) ->
                         0 <= extent)
  /\ forall shape,
       dimsToShape dims = Returns shape ->
       shape = take (Z.to_nat (nbDims dims)) (d dims)
       /\ Z.of_nat (length shape) = nbDims dims
       /\ exists dims',
            shapeToDims MAX_DIMS uninitialised shape = Returns dims'
            /\ nbDims dims' = nbDims dims
            /\ take (Z.to_nat (nbDims dims)) (d dims')
               = take (Z.to_nat (nbDims dims)) (d dims).
Proof.
  intros Hd Hun Hnb Hmax.
  assert (Hinv : forall shape,
            dimsToShape dims = Returns shape ->
            0 <= nbDims dims
            /\ shape = take (Z.to_nat (nbDims dims)) (d dims)
            /\ forall extent, In extent shape -> 0 <= extent).
  { intros shape H. unfold dimsToShape in H.
    apply check_Returns_inv in H as [Hpos H]. apply Z.leb_le in Hpos.
    destruct (dimsToShape_loop_spec _ _ _ _ _ H) as (Hl & Hin & _);
      [rewrite repeat_length; lia |].
    rewrite repeat_length in Hl.
    split; [exact Hpos |].
    assert (Hshape : shape = take (Z.to_nat (nbDims dims)) (d dims)).
    { apply list_eq. intros k.
      destruct (Nat.lt_ge_cases k (Z.to_nat (nbDims dims))) as [Hk | Hk].
      - destruct (Hin k ltac:(lia)) as (e & He & _ & Hr).
        rewrite Hr, lookup_take_lt by exact Hk. symmetry. exact He.
      - rewrite (proj2 (lookup_ge_None shape k)) by lia.
        symmetry. apply lookup_ge_None. rewrite length_take. lia. }
    split; [exact Hshape |].
    intros extent He. apply list_elem_of_In, list_elem_of_lookup in He as [k Hk].
    pose proof (lookup_lt_Some _ _ _ Hk) as Hlt.
    destruct (Hin k ltac:(lia)) as (e & _ & Hpos' & Hr).
    rewrite Hr in Hk. injection Hk as <-. exact Hpos'. }
  split.
  - split.
    + intros [shape H]. destruct (Hinv shape H) as (Hpos & -> & Hnonneg).
      split; assumption.
    + intros [Hpos Hnonneg]. unfold dimsToShape.
      apply Z.leb_le in Hpos. rewrite Hpos.
      apply dimsToShape_loop_Returns. intros j Hj.
      destruct (lookup_lt_is_Some_2 (d dims) j ltac:(lia)) as [extent Hk].
      exists extent. split; [exact Hk |]. apply Hnonneg.
      apply list_elem_of_In, list_elem_of_lookup. exists j.
      rewrite lookup_take_lt by lia. exact Hk.
  - intros shape H. destruct (Hinv shape H) as (Hpos & Hshape & Hnonneg).
    assert (Hlen : length shape = Z.to_nat (nbDims dims))
      by (rewrite Hshape, length_take; lia).
    split; [exact Hshape |]. split; [lia |].
    assert (Hle : forall extent, In extent shape -> extent <= dim_max).
    { intros extent He. apply Hmax. rewrite Hshape in He.
      apply list_elem_of_In in He. apply list_elem_of_In.
      eapply elem_of_take in He as (k & Hk & _).
      eapply list_elem_of_lookup_2, Hk. }
    unfold shapeToDims.
    assert (Hrank : (length shape <=? MAX_DIMS)%nat = true) by (apply Nat.leb_le; lia).
    rewrite Hrank.
    destruct (shapeToDims_loop_Returns shape 0 uninitialised Hle) as [dims_d Hloop].
    change (check true "Assertion failed" ≫= ?k) with (k tt). cbv beta.
    rewrite Hloop. eexists. split; [reflexivity |]. cbn [nbDims d].
    split; [lia |].
    destruct (shapeToDims_loop_spec _ _ _ _ Hloop) as (Hl & Hin & _);
      [cbn; lia |].
    rewrite <- Hshape, <- Hlen.
    apply list_eq. intros k.
    destruct (shape !! k) as [extent |] eqn:Hk.
    + rewrite lookup_take_lt by (eapply lookup_lt_Some, Hk). apply (Hin k), Hk.
    + apply lookup_ge_None in Hk. apply lookup_ge_None. rewrite length_take. lia.
Qed.

(** X19 on dimensions that hold two extents. *)
Lemma X19_dimsToShape_shapeToDims_witness :
  exists dims',
    shapeToDims 4 [1; 1; 1; 1] [4; 9] = Returns dims'
    /\ nbDims dims' = 2
    /\ take 2 (d dims') = [4; 9].
Proof.
  assert (Hmax : forall extent, In extent [4; 9; 0; 0] -> extent <= dim_max).
  { intros extent [<- | [<- | [<- | [<- | []]]]]; vm_compute; discriminate. }
  destruct (X19_dimsToShape_shapeToDims 4 (mkDims 2 [4; 9; 0; 0]) [1; 1; 1; 1]
              eq_refl eq_refl ltac:(cbn; lia) Hmax) as [_ Hround].
  exact (proj2 (proj2 (Hround [4; 9] eq_refl))).
Defined.

(** ** The serialized size of a cubin *)

Lemma land_lnot3 (x : Z) :
  0 <= x < 2 ^ 64 -> Z.land x (Z.lnot 3 mod 2 ^ 64) = 4 * (x / 4).
Proof.
  intros Hx.
  rewrite <- (Z.land_ones (Z.lnot 3) 64) by lia.
  rewrite (Z.land_comm (Z.lnot 3)), Z.land_assoc.
  rewrite (Z.land_ones x 64) by lia.
  rewrite Z.mod_small by exact Hx.
  rewrite <- Z.ldiff_land.
  change 3 with (Z.ones 2).
  rewrite Z.ldiff_ones_r by lia.
  rewrite Z.shiftr_div_pow2, Z.shiftl_mul_pow2 by lia.
  change (2 ^ 2) with 4. lia.
Qed.

(** X20. The serialized size of a cubin of [n] bytes is the length prefix
    of 4 bytes plus [n], rounded up to the next multiple of 4: it is a
    multiple of 4, at least [4 + n], less than [4 + n + 4], and no smaller
    multiple of 4 is at least [4 + n]; for [n] a multiple of 4 it is exactly
    [4 + n]. *)
Theorem X20_CubinObj_getSerializationSize (n : Z) :
  0 <= n <= 2 ^ 64 - 8 ->
  CubinObj_getSerializationSize n mod 4 = 0
  /\ 4 + n <= CubinObj_getSerializationSize n < 4 + n + 4
  /\ (forall m, m mod 4 = 0 -> 4 + n <= m -> CubinObj_getSerializationSize n <= m)
  /\ (n mod 4 = 0 -> CubinObj_getSerializationSize n = 4 + n).
Proof.
  intros Hn. unfold CubinObj_getSerializationSize.
  change (2 ^ 64) with 18446744073709551616 in Hn.
  rewrite (Z.mod_small (4 + n))
    by (change (2 ^ 64) with 18446744073709551616; lia).
  rewrite (Z.mod_small (4 + n + 3))
    by (change (2 ^ 64) with 18446744073709551616; lia).
  rewrite land_lnot3 by (change (2 ^ 64) with 18446744073709551616; lia).
  pose proof (Z.div_mod (4 + n + 3) 4 ltac:(lia)) as Hdm.
  pose proof (Z.mod_pos_bound (4 + n + 3) 4 ltac:(lia)) as Hb.
  split.
  { rewrite Z.mul_comm. apply Z.mod_mul. lia. }
  split; [lia |]. split.
  - intros m Hm Hle.
    pose proof (Z.div_mod m 4 ltac:(lia)) as Hdm'. rewrite Hm in Hdm'.
    assert ((4 + n + 3) / 4 <= m / 4); [| lia].
    apply Z.div_le_lower_bound; lia.
  - intros H4.
    pose proof (Z.div_mod n 4 ltac:(lia)) as Hn4. rewrite H4 in Hn4.
    replace (4 + n + 3) with (3 + (1 + n / 4) * 4) by lia.
    rewrite Z.div_add by lia. change (3 / 4) with 0. lia.
Qed.

(** X20 on a cubin of 5 bytes, serialized in 12. *)
Lemma X20_CubinObj_getSerializationSize_witness :
  CubinObj_getSerializationSize 5 mod 4 = 0
  /\ 4 + 5 <= CubinObj_getSerializationSize 5 < 4 + 5 + 4.
Proof.
  assert (H : 0 <= 5 <= 2 ^ 64 - 8) by (vm_compute; split; discriminate).
  destruct (X20_CubinObj_getSerializationSize 5 H) as (H1 & H2 & _).
  split; assumption.
Defined.

(** ** The output shape of the GEMM plugin *)

Lemma load_is_Some {A : Type} (buf : list A) (i : Z) :
  0 <= i < Z.of_nat (length buf) -> exists x, load buf i = Some x.
Proof.
  intros Hi. unfold load. destruct (Z.leb_spec 0 i); [| lia].
  apply lookup_lt_is_Some_2. lia.
Qed.

Lemma assign_Returns {E : Type} (arr : list E) (i : Z) (x : E) :
  0 <= i < Z.of_nat (length arr) -> assign arr i x = Returns (store arr i x).
Proof.
  intros Hi. unfold assign, store.
  destruct (Z.leb_spec 0 i); [| lia]. destruct (Z.ltb_spec i (Z.of_nat (length arr))); [| lia].
  reflexivity.
Qed.

Lemma copyExtents_spec {E : Type} (input : list E) (i : Z) (count : nat) (offset : Z)
    (ret_d : list E) :
  0 <= i -> i + Z.of_nat count <= Z.of_nat (length input) ->
  0 <= offset + i -> offset + i + Z.of_nat count <= Z.of_nat (length ret_d) ->
  exists result,
    copyExtents input i count offset ret_d = Returns result
    /\ length result = length ret_d
    /\ (forall j, i <= j < i + Z.of_nat count ->
          load result (offset + j) = load input j)
    /\ (forall k, k < offset + i \/ offset + i + Z.of_nat count <= k ->
          load result k = load ret_d k).
Proof.
  revert i ret_d. induction count as [| count IH]; intros i ret_d Hi Hin Ho Hout.
  - exists ret_d. split; [reflexivity |]. split; [reflexivity |].
    split; [intros j Hj; lia | reflexivity].
  - cbn [copyExtents].
    destruct (load_is_Some input i ltac:(lia)) as [x Hx]. rewrite Hx.
    rewrite assign_Returns by lia.
    change (Returns ?a ≫= ?k) with (k a). cbv beta.
    destruct (IH (i + 1) (store ret_d (offset + i) x)) as (result & Hres & Hlen & Hcopied & Hkept);
      try (rewrite ?length_store; lia).
    exists result. split; [exact Hres |].
    rewrite length_store in Hlen. split; [exact Hlen |]. split.
    + intros j Hj. destruct (Z.eq_dec j i) as [-> | Hne].
      * rewrite Hkept by lia. rewrite load_store_eq by lia. symmetry. exact Hx.
      * apply Hcopied. lia.
    + intros k Hk. rewrite Hkept by lia. apply load_store_ne. lia.
Qed.

(** X21. The output of the GEMM plugin has the extents of the first input
    without its contracted extent (the first one when A is transposed, the
    last one otherwise), followed by the extents of the second input without
    its contracted extent (the last one when B is transposed, the first one
    otherwise); their number is the sum of the two ranks minus 2.  Asked for
    another output than output 0, or given other than two inputs, the
    function returns no dimension at all. *)
Theorem X21_getOutputDimensions {E : Type} (null : E) (mTransA mTransB : bool)
    (inputA inputB : DimsExprs E) (uninitialised : list E) :
  1 <= exprs_nbDims inputA <= Z.of_nat (length (exprs_d inputA)) ->
  1 <= exprs_nbDims inputB <= Z.of_nat (length (exprs_d inputB)) ->
  exprs_nbDims inputA + exprs_nbDims inputB - 2 <= Z.of_nat (length uninitialised) ->
  (exists ret,
     getOutputDimensions null mTransA mTransB 0 [inputA; inputB] 2 uninitialised
     = Returns ret
     /\ exprs_nbDims ret = exprs_nbDims inputA + exprs_nbDims inputB - 2
     /\ length (exprs_d ret) = length uninitialised
     /\ (forall k, 0 <= k < exprs_nbDims inputA - 1 ->
           load (exprs_d ret) k
           = load (exprs_d inputA) (if mTransA then k + 1 else k))
     /\ (forall k, 0 <= k < exprs_nbDims inputB - 1 ->
           load (exprs_d ret) (exprs_nbDims inputA - 1 + k)
           = load (exprs_d inputB) (if mTransB then k else k + 1)))
  /\ (forall outputIndex nbInputs inputs,
        nbInputs <> 2 \/ outputIndex <> 0 ->
        exists ret,
          getOutputDimensions null mTransA mTransB outputIndex inputs nbInputs
            uninitialised = Returns ret
          /\ exprs_nbDims ret = 0).
Proof.
  intros HA HB Hfit. split.
  - unfold getOutputDimensions.
    cbn [Z.eqb negb lookup list_lookup].
    set (a := exprs_nbDims inputA) in *. set (b := exprs_nbDims inputB) in *.
    assert (HcA : exists d1,
              (if mTransA
               then copyExtents (exprs_d inputA) 1 (Z.to_nat (a - 1)) (-1) uninitialised
               else copyExtents (exprs_d inputA) 0 (Z.to_nat (a - 1)) 0 uninitialised)
              = Returns d1
              /\ length d1 = length uninitialised
              /\ (forall k, 0 <= k < a - 1 ->
                    load d1 k = load (exprs_d inputA) (if mTransA then k + 1 else k))).
    { destruct mTransA.
      - destruct (copyExtents_spec (exprs_d inputA) 1 (Z.to_nat (a - 1)) (-1)
                    uninitialised) as (d1 & H1 & Hl & Hc & _); try lia.
        exists d1. split; [exact H1 |]. split; [exact Hl |].
        intros k Hk. rewrite <- (Hc (k + 1)) by lia. f_equal. lia.
      - destruct (copyExtents_spec (exprs_d inputA) 0 (Z.to_nat (a - 1)) 0
                    uninitialised) as (d1 & H1 & Hl & Hc & _); try lia.
        exists d1. split; [exact H1 |]. split; [exact Hl |].
        intros k Hk. rewrite <- (Hc k) by lia. f_equal. }
    destruct HcA as (d1 & -> & Hl1 & Hc1).
    change (Returns ?x ≫= ?k) with (k x). cbv beta.
    assert (HcB : exists d2,
              (if mTransB
               then copyExtents (exprs_d inputB) 0 (Z.to_nat (b - 1)) (a - 1) d1
               else copyExtents (exprs_d inputB) 1 (Z.to_nat (b - 1)) (a - 2) d1)
              = Returns d2
              /\ length d2 = length d1
              /\ (forall k, 0 <= k < b - 1 ->
                    load d2 (a - 1 + k)
                    = load (exprs_d inputB) (if mTransB then k else k + 1))
              /\ (forall k, k < a - 1 -> load d2 k = load d1 k)).
    { destruct mTransB.
      - destruct (copyExtents_spec (exprs_d inputB) 0 (Z.to_nat (b - 1)) (a - 1) d1)
          as (d2 & H2 & Hl & Hc & Hk2); try lia.
        exists d2. split; [exact H2 |]. split; [exact Hl |]. split.
        + intros k Hk. apply Hc. lia.
        + intros k Hk. apply Hk2. lia.
      - destruct (copyExtents_spec (exprs_d inputB) 1 (Z.to_nat (b - 1)) (a - 2) d1)
          as (d2 & H2 & Hl & Hc & Hk2); try lia.
        exists d2. split; [exact H2 |]. split; [exact Hl |]. split.
        + intros k Hk. rewrite <- (Hc (k + 1)) by lia. f_equal. lia.
        + intros k Hk. apply Hk2. lia. }
    destruct HcB as (d2 & -> & Hl2 & Hc2 & Hk2).
    eexists. split; [reflexivity |]. cbn [exprs_nbDims exprs_d].
    split; [reflexivity |]. split; [lia |]. split.
    + intros k Hk. rewrite Hk2 by lia. apply Hc1, Hk.
    + exact Hc2.
  - intros outputIndex nbInputs inputs Hbad. unfold getOutputDimensions.
    destruct (Z.eqb_spec nbInputs 2) as [-> | _]; cbn [negb].
    + destruct (Z.eqb_spec outputIndex 0) as [-> | _]; cbn [negb].
      * destruct Hbad; congruence.
      * eexists. split; reflexivity.
    + eexists. split; reflexivity.
Qed.

(** X21 on A of shape [b, s, k] and a transposed B of shape [n, k]: the
    output has the shape [b, s, n]. *)
Lemma X21_getOutputDimensions_witness :
  exists ret,
    getOutputDimensions 0 false true 0
      [mkDimsExprs 3 [7; 5; 64; 0]; mkDimsExprs 2 [11; 64; 0; 0]] 2 [0; 0; 0; 0]
    = Returns ret
    /\ exprs_nbDims ret = 3
    /\ load (exprs_d ret) 0 = Some 7
    /\ load (exprs_d ret) 1 = Some 5
    /\ load (exprs_d ret) 2 = Some 11.
Proof.
  destruct (X21_getOutputDimensions 0 false true
              (mkDimsExprs 3 [7; 5; 64; 0]) (mkDimsExprs 2 [11; 64; 0; 0]) [0; 0; 0; 0])
    as [(ret & Hret & Hnb & _ & HA & HB) _]; try (cbn; lia).
  exists ret. split; [exact Hret |]. split; [exact Hnb |].
  split; [exact (HA 0 ltac:(cbn; lia)) |].
  split; [exact (HA 1 ltac:(cbn; lia)) |].
  exact (HB 0 ltac:(cbn; lia)).
Defined.

(** ** The words tables of the decode-layer test *)

Lemma writeWord_spec (wordsData : list Z) (start : Z) (word : list TokenIdType) :
  0 <= start ->
  start + Z.of_nat (length word) <= Z.of_nat (length wordsData) ->
  exists result,
    writeWord wordsData start word = Returns result
    /\ length result = length wordsData
    /\ (forall k, (k < length word)%nat ->
          load result (start + Z.of_nat k) = Some (nth k word (-1)))
    /\ (forall j, j < start \/ start + Z.of_nat (length word) <= j ->
          load result j = load wordsData j).
Proof.
  revert start wordsData.
  induction word as [| token word IH]; intros start wordsData Hs Hfit.
  - exists wordsData. split; [reflexivity |]. split; [reflexivity |].
    split; [intros k Hk; cbn in Hk; lia | reflexivity].
  - cbn [writeWord length] in *.
    rewrite assign_Returns by lia.
    change (Returns ?a ≫= ?k) with (k a). cbv beta.
    destruct (IH (start + 1) (store wordsData start token))
      as (result & Hres & Hlen & Hat & Hkept);
      try (rewrite ?length_store; lia).
    exists result. split; [exact Hres |].
    rewrite length_store in Hlen. split; [exact Hlen |]. split.
    + intros [| k] Hk.
      * rewrite Z.add_0_r, Hkept by lia. apply load_store_eq. lia.
      * replace (start + Z.of_nat (S k)) with (start + 1 + Z.of_nat k) by lia.
        apply Hat. lia.
    + intros j Hj. rewrite Hkept by lia. apply load_store_ne. lia.
Qed.

Lemma tokensUpTo_cons (word : list TokenIdType) (words : list (list TokenIdType))
    (n : nat) :
  tokensUpTo (word :: words) (S n) = Z.of_nat (length word) + tokensUpTo words n.
Proof. unfold tokensUpTo. cbn [take concat]. rewrite List.length_app. lia. Qed.

Lemma tokensUpTo_le (words : list (list TokenIdType)) (n : nat) :
  0 <= tokensUpTo words n <= Z.of_nat (length (concat words)).
Proof.
  unfold tokensUpTo. split; [lia |].
  rewrite <- (take_drop n words) at 2. rewrite concat_app, List.length_app. lia.
Qed.

Lemma writeWords_spec (words : list (list TokenIdType)) (wordsData : list Z)
    (batchSlot maxWordsLen wi totalLen : Z) :
  0 <= batchSlot * 2 * maxWordsLen ->
  batchSlot * 2 * maxWordsLen + 2 * maxWordsLen <= Z.of_nat (length wordsData) ->
  0 <= wi -> 0 <= totalLen ->
  totalLen + Z.of_nat (length (concat words)) <= maxWordsLen ->
  (wi + Z.of_nat (length words) <= maxWordsLen
   \/ totalLen + Z.of_nat (length (concat words)) = 0) ->
  exists result,
    writeWords wordsData batchSlot maxWordsLen wi totalLen words = Returns result
    /\ length result = length wordsData
    /\ (forall k, (k < length (concat words))%nat ->
          load result (batchSlot * 2 * maxWordsLen + totalLen + Z.of_nat k)
          = Some (nth k (concat words) (-1)))
    /\ (forall i, (i < length words)%nat ->
          load result (batchSlot * 2 * maxWordsLen + maxWordsLen + wi + Z.of_nat i)
          = if 0 <? totalLen + tokensUpTo words (S i)
            then Some (totalLen + tokensUpTo words (S i))
            else load wordsData
                   (batchSlot * 2 * maxWordsLen + maxWordsLen + wi + Z.of_nat i))
    /\ (forall j,
          ~ (batchSlot * 2 * maxWordsLen + totalLen <= j
             < batchSlot * 2 * maxWordsLen + totalLen
               + Z.of_nat (length (concat words))) ->
          ~ (batchSlot * 2 * maxWordsLen + maxWordsLen + wi <= j
             < batchSlot * 2 * maxWordsLen + maxWordsLen + wi
               + Z.of_nat (length words)) ->
          load result j = load wordsData j).
Proof.
  set (base := batchSlot * 2 * maxWordsLen).
  revert wordsData wi totalLen.
  induction words as [| word words IH];
    intros wordsData wi totalLen Hbase Hfit Hwi Htot Htokens Hoffsets.
  - exists wordsData. split; [reflexivity |]. split; [reflexivity |].
    split; [intros k Hk; cbn in Hk; lia |].
    split; [intros i Hi; cbn in Hi; lia | reflexivity].
  - cbn [writeWords]. fold base.
    cbn [concat length] in Htokens, Hoffsets.
    rewrite List.length_app in Htokens, Hoffsets.
    destruct (writeWord_spec wordsData (base + 0 * maxWordsLen + totalLen) word)
      as (r1 & Hr1 & Hl1 & Hat1 & Hkept1); try lia.
    rewrite Hr1. change (Returns ?a ≫= ?k) with (k a). cbv beta.
    set (totalLen' := totalLen + Z.of_nat (length word)) in *.
    assert (Hr2 : exists r2,
              (if 0 <? totalLen'
               then assign r1 (base + 1 * maxWordsLen + wi) totalLen'
               else Returns r1) = Returns r2
              /\ length r2 = length r1
              /\ load r2 (base + maxWordsLen + wi)
                 = (if 0 <? totalLen' then Some totalLen'
                    else load r1 (base + maxWordsLen + wi))
              /\ forall j, j <> base + maxWordsLen + wi -> load r2 j = load r1 j).
    { destruct (Z.ltb_spec 0 totalLen') as [Hpos | Hzero].
      - rewrite assign_Returns by lia.
        exists (store r1 (base + 1 * maxWordsLen + wi) totalLen').
        split; [reflexivity |]. split; [apply length_store |]. split.
        + replace (base + maxWordsLen + wi) with (base + 1 * maxWordsLen + wi) by lia.
          apply load_store_eq. lia.
        + intros j Hj. apply load_store_ne. lia.
      - exists r1. repeat split; reflexivity. }
    destruct Hr2 as (r2 & -> & Hl2 & Hat2 & Hkept2).
    change (Returns ?a ≫= ?k) with (k a). cbv beta.
    destruct (IH r2 (wi + 1) totalLen') as (result & Hres & Hlen & Htok & Hoff & Hkept);
      try lia.
    exists result. split; [exact Hres |]. split; [lia |].
    split; [| split].
    + intros k Hk. cbn [concat] in Hk |- *. rewrite List.length_app in Hk.
      destruct (Nat.lt_ge_cases k (length word)) as [Hlt | Hge].
      * rewrite app_nth1 by exact Hlt.
        rewrite Hkept by lia. rewrite Hkept2 by lia.
        replace (base + totalLen + Z.of_nat k)
          with (base + 0 * maxWordsLen + totalLen + Z.of_nat k) by lia.
        apply Hat1, Hlt.
      * rewrite app_nth2 by exact Hge.
        replace (base + totalLen + Z.of_nat k)
          with (base + totalLen' + Z.of_nat (k - length word)) by lia.
        apply Htok. lia.
    + intros [| i] Hi; cbn [length] in Hi.
      * rewrite Z.add_0_r. rewrite Hkept by lia.
        rewrite tokensUpTo_cons.
        replace (tokensUpTo words 0) with 0 by reflexivity.
        rewrite Z.add_0_r. fold totalLen'.
        rewrite Hat2.
        destruct (0 <? totalLen'); [reflexivity |].
        apply Hkept1. lia.
      * rewrite tokensUpTo_cons, Z.add_assoc. fold totalLen'.
        replace (base + maxWordsLen + wi + Z.of_nat (S i))
          with (base + maxWordsLen + (wi + 1) + Z.of_nat i) by lia.
        rewrite (Hoff i ltac:(lia)).
        destruct (0 <? totalLen' + tokensUpTo words (S i)); [reflexivity |].
        rewrite Hkept2 by lia. apply Hkept1. lia.
    + intros j Htokens' Hoffsets'. cbn [concat length] in Htokens', Hoffsets'.
      rewrite List.length_app in Htokens'.
      rewrite Hkept by lia. rewrite Hkept2 by lia. apply Hkept1. lia.
Qed.

Lemma slot_rows_bounds (batchSlot mMaxBatchSize maxWordsLen : Z) :
  0 <= maxWordsLen -> 0 <= batchSlot < mMaxBatchSize ->
  0 <= batchSlot * 2 * maxWordsLen
  /\ batchSlot * 2 * maxWordsLen + 2 * maxWordsLen <= mMaxBatchSize * 2 * maxWordsLen.
Proof. intros Hm Hs. split; nia. Qed.

Lemma slot_rows_disjoint (slot slot' maxWordsLen j : Z) :
  0 <= maxWordsLen -> slot <> slot' ->
  slot * 2 * maxWordsLen <= j < slot * 2 * maxWordsLen + 2 * maxWordsLen ->
  ~ (slot' * 2 * maxWordsLen <= j < slot' * 2 * maxWordsLen + 2 * maxWordsLen).
Proof. intros Hm Hne Hj Hj'. nia. Qed.

(** The words of one entry written to a slot whose rows hold -1. *)
Lemma writeWords_rows (words : list (list TokenIdType)) (wordsData : list Z)
    (batchSlot maxWordsLen : Z) :
  0 <= batchSlot * 2 * maxWordsLen ->
  batchSlot * 2 * maxWordsLen + 2 * maxWordsLen <= Z.of_nat (length wordsData) ->
  Z.of_nat (length (concat words)) <= maxWordsLen ->
  (Z.of_nat (length words) <= maxWordsLen \/ concat words = []) ->
  (forall k, 0 <= k < 2 * maxWordsLen ->
     load wordsData (batchSlot * 2 * maxWordsLen + k) = Some (-1)) ->
  exists result,
    writeWords wordsData batchSlot maxWordsLen 0 0 words = Returns result
    /\ length result = length wordsData
    /\ wordsRows result batchSlot maxWordsLen words
    /\ (forall j,
          ~ (batchSlot * 2 * maxWordsLen <= j
             < batchSlot * 2 * maxWordsLen + 2 * maxWordsLen) ->
          load result j = load wordsData j).
Proof.
  intros Hbase Hfit Htokens Hoffsets Hempty.
  set (base := batchSlot * 2 * maxWordsLen) in *.
  destruct (writeWords_spec words wordsData batchSlot maxWordsLen 0 0)
    as (result & Hres & Hlen & Htok & Hoff & Hkept); fold base; try lia.
  { destruct Hoffsets as [H | ->]; [left; lia | right; reflexivity]. }
  fold base in Htok, Hoff, Hkept.
  assert (Hoff' : forall i, (i < length words)%nat ->
            load result (base + maxWordsLen + Z.of_nat i)
            = if 0 <? tokensUpTo words (S i)
              then Some (tokensUpTo words (S i))
              else load wordsData (base + maxWordsLen + Z.of_nat i)).
  { intros i Hi. specialize (Hoff i Hi).
    rewrite Z.add_0_r in Hoff. rewrite Z.add_0_l in Hoff. exact Hoff. }
  exists result. split; [exact Hres |]. split; [exact Hlen |]. split.
  - unfold wordsRows. cbv zeta. fold base. split.
    + intros k Hk.
      destruct (Nat.lt_ge_cases k (length (concat words))) as [Hlt | Hge].
      * specialize (Htok k Hlt). rewrite Z.add_0_r in Htok. exact Htok.
      * rewrite nth_overflow by exact Hge.
        rewrite Hkept by lia. apply Hempty. lia.
    + intros wi Hwi.
      destruct (Nat.ltb_spec wi (length words)) as [Hlt | Hge]; cbn [andb].
      * rewrite (Hoff' wi Hlt).
        destruct (0 <? tokensUpTo words (S wi)); [reflexivity |].
        replace (base + maxWordsLen + Z.of_nat wi)
          with (base + (maxWordsLen + Z.of_nat wi)) by lia.
        apply Hempty. lia.
      * rewrite Hkept by lia.
        replace (base + maxWordsLen + Z.of_nat wi)
          with (base + (maxWordsLen + Z.of_nat wi)) by lia.
        apply Hempty. lia.
  - intros j Hj.
    destruct (Z_lt_le_dec j (base + maxWordsLen + 0)) as [Hlow | Hhigh].
    + apply Hkept; lia.
    + destruct (Z_lt_le_dec j (base + maxWordsLen + 0 + Z.of_nat (length words)))
        as [Hin | Hout].
      * replace j with (base + maxWordsLen + Z.of_nat (Z.to_nat (j - base - maxWordsLen)))
          by lia.
        rewrite Hoff' by lia.
        destruct Hoffsets as [H | Hnil]; [lia |].
        pose proof (tokensUpTo_le words (S (Z.to_nat (j - base - maxWordsLen)))) as Hle.
        rewrite Hnil in Hle. cbn [length] in Hle.
        destruct (Z.ltb_spec 0 (tokensUpTo words (S (Z.to_nat (j - base - maxWordsLen)))));
          [lia | reflexivity].
      * apply Hkept; lia.
Qed.

Lemma wordsRows_ext (wordsData wordsData' : list Z) (batchSlot maxWordsLen : Z)
    (words : list (list TokenIdType)) :
  (forall j, batchSlot * 2 * maxWordsLen <= j
             < batchSlot * 2 * maxWordsLen + 2 * maxWordsLen ->
             load wordsData' j = load wordsData j) ->
  wordsRows wordsData batchSlot maxWordsLen words ->
  wordsRows wordsData' batchSlot maxWordsLen words.
Proof.
  unfold wordsRows. cbv zeta. intros Hsame [Htok Hoff]. split.
  - intros k Hk. rewrite Hsame by lia. apply Htok, Hk.
  - intros wi Hwi. rewrite Hsame by lia. apply Hoff, Hwi.
Qed.

Lemma initXWordsTensors_words_spec (inputWords : list (list (list TokenIdType)))
    (batchSlotsPtr wordsData : list Z) (mMaxBatchSize maxWordsLen bi : Z) :
  0 <= maxWordsLen -> 0 <= bi ->
  Z.of_nat (length wordsData) = mMaxBatchSize * 2 * maxWordsLen ->
  (forall idx, (idx < length inputWords)%nat ->
     exists slot, load batchSlotsPtr (bi + Z.of_nat idx) = Some slot
                  /\ 0 <= slot < mMaxBatchSize) ->
  (forall idx idx' slot,
     (idx < length inputWords)%nat -> (idx' < length inputWords)%nat ->
     load batchSlotsPtr (bi + Z.of_nat idx) = Some slot ->
     load batchSlotsPtr (bi + Z.of_nat idx') = Some slot -> idx = idx') ->
  (forall words, In words inputWords ->
     Z.of_nat (length (concat words)) <= maxWordsLen
     /\ (Z.of_nat (length words) <= maxWordsLen \/ concat words = [])) ->
  (forall idx slot, (idx < length inputWords)%nat ->
     load batchSlotsPtr (bi + Z.of_nat idx) = Some slot ->
     forall k, 0 <= k < 2 * maxWordsLen ->
       load wordsData (slot * 2 * maxWordsLen + k) = Some (-1)) ->
  exists result,
    initXWordsTensors_words batchSlotsPtr wordsData maxWordsLen bi inputWords
    = Returns result
    /\ length result = length wordsData
    /\ (forall idx words slot,
          inputWords !! idx = Some words ->
          load batchSlotsPtr (bi + Z.of_nat idx) = Some slot ->
          wordsRows result slot maxWordsLen words)
    /\ (forall j,
          (forall idx slot, (idx < length inputWords)%nat ->
             load batchSlotsPtr (bi + Z.of_nat idx) = Some slot ->
             ~ (slot * 2 * maxWordsLen <= j
                < slot * 2 * maxWordsLen + 2 * maxWordsLen)) ->
          load result j = load wordsData j).
Proof.
  intros Hmax. revert wordsData bi.
  induction inputWords as [| words inputWords IH];
    intros wordsData bi Hbi Hsize Hslots Hdistinct Hfits Hempty.
  - exists wordsData. split; [reflexivity |]. split; [reflexivity |].
    split; [intros idx words slot H; discriminate H | reflexivity].
  - cbn [initXWordsTensors_words].
    destruct (Hslots 0%nat ltac:(cbn; lia)) as (slot0 & Hslot0 & Hrange0).
    rewrite Z.add_0_r in Hslot0. rewrite Hslot0.
    destruct (slot_rows_bounds slot0 mMaxBatchSize maxWordsLen Hmax Hrange0)
      as [Hb0 Hb1].
    destruct (Hfits words (or_introl eq_refl)) as [Htokens Hoffsets].
    destruct (writeWords_rows words wordsData slot0 maxWordsLen)
      as (r1 & Hr1 & Hl1 & Hrows1 & Hkept1); try lia; try assumption.
    { intros k Hk. apply (Hempty 0%nat slot0); [cbn; lia | | exact Hk].
      rewrite Z.add_0_r. exact Hslot0. }
    rewrite Hr1. change (Returns ?a ≫= ?k) with (k a). cbv beta.
    assert (Hshift : forall idx, bi + 1 + Z.of_nat idx = bi + Z.of_nat (S idx))
      by (intros idx; lia).
    destruct (IH r1 (bi + 1)) as (result & Hres & Hlen & Hrows & Hkept); try lia.
    { intros idx Hidx. rewrite Hshift. apply Hslots. cbn; lia. }
    { intros idx idx' slot Hidx Hidx' H H'. rewrite Hshift in H, H'.
      assert (S idx = S idx') by (eapply Hdistinct; eauto; cbn; lia). lia. }
    { intros w Hw. apply Hfits. right. exact Hw. }
    { intros idx slot Hidx Hslot k Hk. rewrite Hshift in Hslot.
      rewrite Hkept1.
      - apply (Hempty (S idx) slot); [cbn; lia | exact Hslot | exact Hk].
      - apply (slot_rows_disjoint slot slot0 maxWordsLen); [exact Hmax | | lia].
        intros ->.
        assert (S idx = 0%nat); [| lia].
        eapply Hdistinct; [cbn; lia | cbn; lia | exact Hslot |].
        rewrite Z.add_0_r. exact Hslot0. }
    exists result. split; [exact Hres |]. split; [lia |]. split.
    + intros [| idx] w slot Hw Hslot.
      * cbn in Hw. injection Hw as <-.
        rewrite Z.add_0_r, Hslot0 in Hslot. injection Hslot as <-.
        apply (wordsRows_ext r1); [| exact Hrows1].
        intros j Hj. apply Hkept. intros idx slot Hidx Hslot.
        rewrite Hshift in Hslot.
        apply (slot_rows_disjoint slot0 slot maxWordsLen); [exact Hmax | | exact Hj].
        intros ->.
        assert (S idx = 0%nat); [| lia].
        eapply Hdistinct; [cbn; lia | cbn; lia | exact Hslot |].
        rewrite Z.add_0_r. exact Hslot0.
      * cbn in Hw. rewrite <- Hshift in Hslot. eapply Hrows; eauto.
    + intros j Hj. rewrite Hkept.
      * apply Hkept1. apply (Hj 0%nat slot0); [cbn; lia |].
        rewrite Z.add_0_r. exact Hslot0.
      * intros idx slot Hidx Hslot. rewrite Hshift in Hslot.
        apply (Hj (S idx) slot); [cbn; lia | exact Hslot].
Qed.

Lemma initXWordsTensors_ptrs_spec (count : nat)
    (batchSlotsPtr wordsPtr wordsLenData : list Z) (maxWordsLen bi : Z) :
  0 <= bi ->
  (forall idx, (idx < count)%nat ->
     exists slot, load batchSlotsPtr (bi + Z.of_nat idx) = Some slot
                  /\ 0 <= slot < Z.of_nat (length wordsPtr)
                  /\ 0 <= slot < Z.of_nat (length wordsLenData)) ->
  exists wordsPtr' wordsLenData',
    initXWordsTensors_ptrs batchSlotsPtr wordsPtr wordsLenData maxWordsLen bi count
    = Returns (wordsPtr', wordsLenData')
    /\ length wordsPtr' = length wordsPtr
    /\ length wordsLenData' = length wordsLenData
    /\ (forall idx slot, (idx < count)%nat ->
          load batchSlotsPtr (bi + Z.of_nat idx) = Some slot ->
          load wordsPtr' slot = Some (slot * 2 * maxWordsLen)
          /\ load wordsLenData' slot = Some maxWordsLen)
    /\ (forall j, load wordsPtr' j = load wordsPtr j
                  \/ load wordsPtr' j = Some (j * 2 * maxWordsLen))
    /\ (forall j, load wordsLenData' j = load wordsLenData j
                  \/ load wordsLenData' j = Some maxWordsLen).
Proof.
  revert wordsPtr wordsLenData bi.
  induction count as [| count IH]; intros wordsPtr wordsLenData bi Hbi Hslots.
  - exists wordsPtr, wordsLenData. split; [reflexivity |].
    split; [reflexivity |]. split; [reflexivity |].
    split; [intros idx slot Hidx; lia |]. split; intros j; left; reflexivity.
  - cbn [initXWordsTensors_ptrs].
    destruct (Hslots 0%nat ltac:(lia)) as (slot0 & Hslot0 & Hp0 & Hl0).
    rewrite Z.add_0_r in Hslot0. rewrite Hslot0.
    rewrite !assign_Returns by lia.
    change (Returns ?a ≫= ?k) with (k a). cbv beta.
    change (Returns ?a ≫= ?k) with (k a). cbv beta.
    assert (Hshift : forall idx, bi + 1 + Z.of_nat idx = bi + Z.of_nat (S idx))
      by (intros idx; lia).
    destruct (IH (store wordsPtr slot0 (slot0 * 2 * maxWordsLen))
                (store wordsLenData slot0 maxWordsLen) (bi + 1))
      as (p & l & Hres & Hlp & Hll & Hat & Hp & Hl); [lia | |].
    { intros idx Hidx. rewrite Hshift, !length_store. apply Hslots. lia. }
    rewrite !length_store in *.
    exists p, l. split; [exact Hres |]. split; [exact Hlp |]. split; [exact Hll |].
    assert (Hp' : forall j, load p j = load wordsPtr j
                            \/ load p j = Some (j * 2 * maxWordsLen)).
    { intros j. destruct (Hp j) as [E | E]; [| right; exact E].
      destruct (Z.eq_dec j slot0) as [-> | Hne].
      - right. rewrite E. apply load_store_eq. lia.
      - left. rewrite E. apply load_store_ne. congruence. }
    assert (Hl' : forall j, load l j = load wordsLenData j
                            \/ load l j = Some maxWordsLen).
    { intros j. destruct (Hl j) as [E | E]; [| right; exact E].
      destruct (Z.eq_dec j slot0) as [-> | Hne].
      - right. rewrite E. apply load_store_eq. lia.
      - left. rewrite E. apply load_store_ne. congruence. }
    split; [| split; assumption].
    intros [| idx] slot Hidx Hslot.
    + rewrite Z.add_0_r, Hslot0 in Hslot. injection Hslot as <-. split.
      * destruct (Hp slot0) as [E | E]; [| exact E].
        rewrite E. apply load_store_eq. lia.
      * destruct (Hl slot0) as [E | E]; [| exact E].
        rewrite E. apply load_store_eq. lia.
    + rewrite <- Hshift in Hslot. apply (Hat idx slot); [lia | exact Hslot].
Qed.

Lemma load_Z_of_nat {A : Type} (buf : list A) (i : nat) :
  load buf (Z.of_nat i) = buf !! i.
Proof.
  unfold load. destruct (Z.leb_spec 0 (Z.of_nat i)); [| lia].
  rewrite Nat2Z.id. reflexivity.
Qed.

Lemma List_NoDup_lookup {A : Type} (l : list A) (i j : nat) (x : A) :
  List.NoDup l -> l !! i = Some x -> l !! j = Some x -> i = j.
Proof.
  intros H. revert i j.
  induction H as [| a l Hnot Hnd IH]; intros [| i] [| j] Hi Hj; cbn in Hi, Hj;
    try discriminate; try reflexivity.
  - injection Hi as ->. exfalso. apply Hnot. eapply lookup_In, Hj.
  - injection Hj as ->. exfalso. apply Hnot. eapply lookup_In, Hi.
  - f_equal. eapply IH; eauto.
Qed.

Lemma fold_wordsLenOf_ge (l : list (list (list TokenIdType))) (acc : Z) :
  acc <= fold_left (fun m bw => Z.max m (wordsLenOf bw)) l acc
  /\ forall bw, In bw l ->
       wordsLenOf bw <= fold_left (fun m bw => Z.max m (wordsLenOf bw)) l acc.
Proof.
  revert acc. induction l as [| b l IH]; intros acc; cbn [fold_left].
  - split; [lia | intros bw []].
  - destruct (IH (Z.max acc (wordsLenOf b))) as [Hacc Hin]. split; [lia |].
    intros bw [<- | H]; [lia | apply Hin, H].
Qed.

Lemma getMaxWordsLen_ge (inputWords : list (list (list TokenIdType)))
    (batchWords : list (list TokenIdType)) :
  In batchWords inputWords -> wordsLenOf batchWords <= getMaxWordsLen inputWords.
Proof.
  intros Hin. unfold getMaxWordsLen.
  destruct (fold_wordsLenOf_ge inputWords 0) as [_ Hle]. apply Hle, Hin.
Qed.

(** X22. [initXWordsTensors], with the row length [getMaxWordsLen] that
    [allocateData] computes, batch slots that are distinct and below
    [mMaxBatchSize], and entries without empty words (or without any token),
    writes nothing outside the buffers.  In the words table the two rows of
    each entry's slot hold the entry's words: the first row the tokens of the
    words end to end, the second row the end offset of each word, both padded
    with -1; every position outside the rows of the entries' slots holds -1.
    The pointer table holds for each entry's slot the start of its rows, the
    length table the row length. *)
Theorem X22_initXWordsTensors (mMaxBatchSize : SizeType32)
    (batchSlotsPtr wordsPtr wordsLenData : list Z)
    (inputWords : list (list (list TokenIdType))) :
  let maxWordsLen := getMaxWordsLen inputWords in
  0 <= mMaxBatchSize ->
  (length inputWords <= length batchSlotsPtr)%nat ->
  List.NoDup (take (length inputWords) batchSlotsPtr) ->
  (forall slot, In slot (take (length inputWords) batchSlotsPtr) ->
                0 <= slot < mMaxBatchSize) ->
  Z.of_nat (length wordsPtr) = mMaxBatchSize ->
  Z.of_nat (length wordsLenData) = mMaxBatchSize ->
  (forall words, In words inputWords ->
     (forall word, In word words -> word <> []) \/ concat words = []) ->
  exists wordsData wordsPtr' wordsLenData',
    initXWordsTensors mMaxBatchSize batchSlotsPtr wordsPtr wordsLenData maxWordsLen
      inputWords
    = Returns (wordsData, wordsPtr', wordsLenData')
    /\ Z.of_nat (length wordsData) = mMaxBatchSize * 2 * maxWordsLen
    /\ (forall bi words slot,
          inputWords !! bi = Some words -> batchSlotsPtr !! bi = Some slot ->
          wordsRows wordsData slot maxWordsLen words
          /\ load wordsPtr' slot = Some (slot * 2 * maxWordsLen)
          /\ load wordsLenData' slot = Some maxWordsLen)
    /\ (forall j,
          0 <= j < mMaxBatchSize * 2 * maxWordsLen ->
          (forall slot, In slot (take (length inputWords) batchSlotsPtr) ->
             ~ (slot * 2 * maxWordsLen <= j
                < slot * 2 * maxWordsLen + 2 * maxWordsLen)) ->
          load wordsData j = Some (-1)).
Proof.
  intros maxWordsLen Hbatch Hcount Hnd Hrange Hptr Hlen Hregular.
  assert (Hmax : 0 <= maxWordsLen).
  { unfold maxWordsLen, getMaxWordsLen.
    destruct (fold_wordsLenOf_ge inputWords 0) as [H0 _]. exact H0. }
  assert (Hslot : forall idx, (idx < length inputWords)%nat ->
            exists slot, load batchSlotsPtr (0 + Z.of_nat idx) = Some slot
                         /\ batchSlotsPtr !! idx = Some slot
                         /\ 0 <= slot < mMaxBatchSize).
  { intros idx Hidx.
    destruct (lookup_lt_is_Some_2 batchSlotsPtr idx ltac:(lia)) as [slot Hs].
    exists slot. rewrite Z.add_0_l, load_Z_of_nat. split; [exact Hs |].
    split; [exact Hs |]. apply Hrange.
    apply (lookup_In _ idx). rewrite lookup_take_lt by exact Hidx. exact Hs. }
  assert (Hin_take : forall idx slot, (idx < length inputWords)%nat ->
            load batchSlotsPtr (0 + Z.of_nat idx) = Some slot ->
            In slot (take (length inputWords) batchSlotsPtr)).
  { intros idx slot Hidx Hs. rewrite Z.add_0_l, load_Z_of_nat in Hs.
    apply (lookup_In _ idx). rewrite lookup_take_lt by exact Hidx. exact Hs. }
  set (wordsData0 := repeat (-1) (Z.to_nat (mMaxBatchSize * 2 * maxWordsLen))).
  assert (Hsize : Z.of_nat (length wordsData0) = mMaxBatchSize * 2 * maxWordsLen).
  { unfold wordsData0. rewrite repeat_length. nia. }
  assert (Hminus : forall j, 0 <= j < mMaxBatchSize * 2 * maxWordsLen ->
            load wordsData0 j = Some (-1)).
  { intros j Hj. unfold load. destruct (Z.leb_spec 0 j); [| lia].
    apply lookup_repeat_lt. lia. }
  destruct (initXWordsTensors_words_spec inputWords batchSlotsPtr wordsData0
              mMaxBatchSize maxWordsLen 0 Hmax ltac:(lia) Hsize)
    as (wordsData & Hwords & Hwlen & Hrows & Hkept).
  { intros idx Hidx. destruct (Hslot idx Hidx) as (slot & Hs & _ & Hr). eauto. }
  { intros idx idx' slot Hidx Hidx' Hs Hs'.
    rewrite Z.add_0_l, load_Z_of_nat in Hs, Hs'.
    apply (List_NoDup_lookup (take (length inputWords) batchSlotsPtr) idx idx' slot Hnd);
      rewrite lookup_take_lt by assumption; assumption. }
  { intros words Hw.
    pose proof (getMaxWordsLen_ge inputWords words Hw) as Hle.
    fold maxWordsLen in Hle.
    destruct (wordsLenOf_spec words) as (Hge & _ & _).
    split; [lia |].
    destruct (Hregular words Hw) as [Hne | Hnil]; [left | right; exact Hnil].
    pose proof (concat_length_ge words Hne). lia. }
  { intros idx slot Hidx Hs k Hk. apply Hminus.
    pose proof (Hrange slot (Hin_take idx slot Hidx Hs)) as Hr.
    destruct (slot_rows_bounds slot mMaxBatchSize maxWordsLen Hmax Hr). lia. }
  destruct (initXWordsTensors_ptrs_spec (length inputWords) batchSlotsPtr wordsPtr
              wordsLenData maxWordsLen 0 ltac:(lia))
    as (wordsPtr' & wordsLenData' & Hptrs & _ & _ & Hat & _).
  { intros idx Hidx. destruct (Hslot idx Hidx) as (slot & Hs & _ & Hr).
    exists slot. split; [exact Hs | lia]. }
  exists wordsData, wordsPtr', wordsLenData'.
  split.
  { unfold initXWordsTensors. fold wordsData0. rewrite Hwords.
    change (Returns ?a ≫= ?k) with (k a). cbv beta.
    rewrite Hptrs. reflexivity. }
  split; [lia |]. split.
  - intros bi words slot Hw Hs.
    pose proof (lookup_lt_Some _ _ _ Hw) as Hbi.
    assert (Hs' : load batchSlotsPtr (0 + Z.of_nat bi) = Some slot)
      by (rewrite Z.add_0_l, load_Z_of_nat; exact Hs).
    split; [eapply Hrows; eauto | apply (Hat bi slot Hbi Hs')].
  - intros j Hj Hout. rewrite Hkept; [apply Hminus, Hj |].
    intros idx slot Hidx Hs. apply Hout. eapply Hin_take; eauto.
Qed.

(** X22 on the bad words {4, 0} and {2} of the request in slot 0 and no bad
    word for the request in slot 2: the table has rows of length 3, and the
    rows of slot 0 are [4, 0, 2] and [2, 3, -1]. *)
Lemma X22_initXWordsTensors_witness :
  exists wordsData wordsPtr' wordsLenData',
    initXWordsTensors 4 [0; 2] [0; 0; 0; 0] [0; 0; 0; 0] 3 [[[4; 0]; [2]]; [[]]]
    = Returns (wordsData, wordsPtr', wordsLenData')
    /\ wordsRows wordsData 0 3 [[4; 0]; [2]]
    /\ wordsRows wordsData 2 3 [[]]
    /\ load wordsLenData' 2 = Some 3.
Proof.
  destruct (X22_initXWordsTensors 4 [0; 2] [0; 0; 0; 0] [0; 0; 0; 0]
              [[[4; 0]; [2]]; [[]]])
    as (wordsData & wordsPtr' & wordsLenData' & Hinit & _ & Hrows & _).
  - lia.
  - cbn. lia.
  - repeat constructor; cbn; intuition discriminate.
  - intros slot [<- | [<- | []]]; lia.
  - reflexivity.
  - reflexivity.
  - intros words [<- | [<- | []]].
    + left. intros word [<- | [<- | []]]; discriminate.
    + right. reflexivity.
  - exists wordsData, wordsPtr', wordsLenData'.
    split; [exact Hinit |].
    destruct (Hrows 0%nat [[4; 0]; [2]] 0 eq_refl eq_refl) as (H0 & _ & _).
    destruct (Hrows 1%nat [[]] 2 eq_refl eq_refl) as (H2 & _ & Hl2).
    split; [exact H0 |]. split; [exact H2 | exact Hl2].
Defined.

(** ** Equality of sampling configs *)

Lemma float_eqb_refl_iff (x : FloatType) : float_eqb x x = true <-> x <> S754_nan.
Proof.
  unfold float_eqb, SFeqb.
  destruct x as [s | s | | s m e]; cbn.
  - split; [discriminate | reflexivity].
  - destruct s; (split; [discriminate | reflexivity]).
  - split; [discriminate | congruence].
  - rewrite Z.compare_refl, Pos.compare_cont_refl.
    destruct s; (split; [discriminate | reflexivity]).
Qed.

Lemma vector_eqb_refl_iff {T : Type} (eqb : T -> T -> bool) (v : list T) :
  vector_eqb eqb v v = true <-> forall x, In x v -> eqb x x = true.
Proof.
  unfold vector_eqb. rewrite Nat.eqb_refl. cbn [andb].
  induction v as [| y v IH]; cbn [combine forallb fst snd].
  - split; [intros _ x [] | reflexivity].
  - rewrite andb_true_iff, IH. split.
    + intros [Hy Hv] x [<- | Hx]; [exact Hy | apply Hv, Hx].
    + intros H. split; [apply H; left; reflexivity |].
      intros x Hx. apply H. right. exact Hx.
Qed.

Lemma vector_eqb_length {T : Type} (eqb : T -> T -> bool) (u v : list T) :
  vector_eqb eqb u v = true -> length u = length v.
Proof.
  unfold vector_eqb. intros H. apply andb_true_iff in H as [H _].
  apply Nat.eqb_eq, H.
Qed.

Lemma optvec_eqb_length {T : Type} (eqb : T -> T -> bool) (a b : OptVec T) :
  optional_eqb (vector_eqb eqb) a b = true ->
  option_map (@length T) a = option_map (@length T) b.
Proof.
  destruct a as [u |], b as [v |]; cbn; intros H; try discriminate; [| reflexivity].
  f_equal. eapply vector_eqb_length, H.
Qed.

Lemma optvec_Z_eqb_eq (a b : OptVec Z) :
  optional_eqb (vector_eqb Z.eqb) a b = true -> a = b.
Proof.
  destruct a as [u |], b as [v |]; cbn; intros H; try discriminate; [| reflexivity].
  f_equal. apply list_eqb_eq. exact H.
Qed.

Lemma optvec_Z_eqb_refl (o : OptVec Z) : optional_eqb (vector_eqb Z.eqb) o o = true.
Proof.
  destruct o as [v |]; [| reflexivity]. cbn.
  apply vector_eqb_refl_iff. intros x _. apply Z.eqb_refl.
Qed.

Lemma optvec_float_eqb_refl_iff (o : OptVec FloatType) :
  optional_eqb (vector_eqb float_eqb) o o = true
  <-> forall x, In x (default [] o) -> x <> S754_nan.
Proof.
  destruct o as [v |]; cbn.
  - rewrite vector_eqb_refl_iff. split; intros H x Hx; apply float_eqb_refl_iff, H, Hx.
  - split; [intros _ x [] | reflexivity].
Qed.

(** X10. [operator==] on sampling configs is not an equivalence on all
    configs: a config equals itself exactly when none of its floating-point
    values is a NaN.  Two configs that compare equal have the same beam
    width, the same [normalizeLogProbs], the same integer-valued fields, and
    for every tunable field either both lack it or both hold vectors of the
    same length. *)
Theorem X10_SamplingConfig_eqb :
  (forall c,
     SamplingConfig_eqb c c = true
     <-> forall x, In x (floatValues c) -> x <> S754_nan)
  /\ SamplingConfig_eqb requestNaN requestNaN = false
  /\ (forall a b,
        SamplingConfig_eqb a b = true ->
        beamWidth a = beamWidth b
        /\ normalizeLogProbs a = normalizeLogProbs b
        /\ minLength a = minLength b /\ topK a = topK b
        /\ randomSeed a = randomSeed b /\ topPResetIds a = topPResetIds b
        /\ earlyStopping a = earlyStopping b
        /\ forall f,
             option_map (@length _) (field_get f a)
             = option_map (@length _) (field_get f b)).
Proof.
  split; [| split; [reflexivity |]].
  - intros c. unfold SamplingConfig_eqb, floatValues.
    rewrite !andb_true_iff, !optvec_float_eqb_refl_iff.
    cbn [map concat]. split.
    + intros H x Hin. rewrite !in_app_iff in Hin.
      destruct H as [[[[[[[[[[[[[[[[[_ H1] _] H2] H3] H4] _] H5] _] H6] H7] _] H8] H9] _]
                       H10] _] _].
      destruct Hin as [Hin | [Hin | [Hin | [Hin | [Hin | [Hin | [Hin | [Hin | [Hin
                         | [Hin | []]]]]]]]]]];
        eauto.
    + intros H.
      assert (Hmedusa : optional_eqb (vector_eqb (vector_eqb Z.eqb))
                          (topKMedusaHeads c) (topKMedusaHeads c) = true).
      { destruct (topKMedusaHeads c) as [v |]; [| reflexivity]. cbn.
        apply vector_eqb_refl_iff. intros x _.
        apply vector_eqb_refl_iff. intros y _. apply Z.eqb_refl. }
      assert (Hbool : optional_eqb Bool.eqb (normalizeLogProbs c) (normalizeLogProbs c)
                      = true)
        by (destruct (normalizeLogProbs c) as [[|] |]; reflexivity).
      repeat split;
        try apply Z.eqb_refl; try apply optvec_Z_eqb_refl;
        try exact Hmedusa; try exact Hbool;
        intros x Hx; apply H; rewrite !in_app_iff; tauto.
  - intros a b H. unfold SamplingConfig_eqb in H.
    rewrite !andb_true_iff in H.
    destruct H as [[[[[[[[[[[[[[[[[Hbw H1] H2] H3] H4] H5] H6] H7] H8] H9] H10] H11]
                     H12] H13] H14] H15] H16] H17].
    split; [apply Z.eqb_eq, Hbw |].
    split.
    { destruct (normalizeLogProbs a) as [x |], (normalizeLogProbs b) as [y |];
        cbn in H17; try discriminate; [| reflexivity].
      f_equal. apply Bool.eqb_prop, H17. }
    split; [apply optvec_Z_eqb_eq, H2 |].
    split; [apply optvec_Z_eqb_eq, H6 |].
    split; [apply optvec_Z_eqb_eq, H8 |].
    split; [apply optvec_Z_eqb_eq, H11 |].
    split; [apply optvec_Z_eqb_eq, H14 |].
    intros f. destruct f; cbn [field_get field_type];
      eapply optvec_eqb_length; eassumption.
Qed.
